(** * Duplicate detection engine of the headless Calibre tools

    A shallow embedding of [cli/duplicates/finder.py] and
    [cli/duplicates/matching.py], with the properties of the exemption
    partitioner, the subset pruner, the soundex encoder, the unicode folder
    and the orchestrator [find_duplicates].

    Conventions.
    - A Python [str] is a list of code points ([list N]).
    - A Python [set] is a [gset]; a [dict] used as a map is a [gmap]; the
      [OrderedDict] built by [_sort_candidate_groups] is an association list.
    - The order in which a [set] or a [dict] is iterated is not fixed by the
      language: it is a parameter ([HashOrder]) of every function that
      iterates one.
    - [TypeError] raised on calling [None] is the [None] of [option]. *)

From stdpp Require Import base decidable option list sorting gmap fin_sets strings.
From Stdlib Require Import ZArith NArith Lia.

#[local] Set Warnings "-clear-no-such-hyp".

Local Open Scope Z_scope.

(** ** Python orderings *)

(** The rich comparison [<] of the values the engine sorts: on [int], [str],
    tuples and lists of those it is a strict total order. *)
Class PyOrd (A : Type) := {
  py_lt : A → A → bool;
  py_lt_irrefl : ∀ x, py_lt x x = false;
  py_lt_trans : ∀ x y z, py_lt x y = true → py_lt y z = true → py_lt x z = true;
  py_lt_connex : ∀ x y, py_lt x y = false → py_lt y x = false → x = y
}.

#[export] Program Instance Z_PyOrd : PyOrd Z := {| py_lt := Z.ltb |}.
Next Obligation. intros x. apply Z.ltb_irrefl. Qed.
Next Obligation. intros x y z. rewrite !Z.ltb_lt. lia. Qed.
Next Obligation. intros x y. rewrite !Z.ltb_ge. lia. Qed.

#[export] Program Instance N_PyOrd : PyOrd N := {| py_lt := N.ltb |}.
Next Obligation. intros x. apply N.ltb_irrefl. Qed.
Next Obligation. intros x y z. rewrite !N.ltb_lt. lia. Qed.
Next Obligation. intros x y. rewrite !N.ltb_ge. lia. Qed.

(** Sequences compare lexicographically. *)
Fixpoint list_lt `{PyOrd A} (l1 l2 : list A) : bool :=
  match l1, l2 with
  | [], [] => false
  | [], _ :: _ => true
  | _ :: _, [] => false
  | x :: l1', y :: l2' =>
      if py_lt x y then true
      else if py_lt y x then false
      else list_lt l1' l2'
  end.

(** Tuples compare component by component. *)
Definition pair_lt `{PyOrd A} `{PyOrd B} (p q : A * B) : bool :=
  if py_lt p.1 q.1 then true
  else if py_lt q.1 p.1 then false
  else py_lt p.2 q.2.

#[export] Program Instance list_PyOrd `{PyOrd A} : PyOrd (list A) :=
  {| py_lt := list_lt |}.
Next Obligation.
  intros A ? l. induction l as [|x l IH]; simpl; [done|].
  by rewrite py_lt_irrefl.
Qed.
Next Obligation.
  intros A ? l1. induction l1 as [|x l1 IH]; intros [|y l2] [|z l3]; simpl; try done.
  destruct (py_lt x y) eqn:Hxy.
  - intros _. destruct (py_lt y z) eqn:Hyz.
    + by rewrite (py_lt_trans x y z).
    + destruct (py_lt z y) eqn:Hzy; [done|].
      by rewrite <-(py_lt_connex y z), Hxy.
  - destruct (py_lt y x) eqn:Hyx; [done|].
    rewrite <-(py_lt_connex x y) by done.
    destruct (py_lt x z); [done|]. destruct (py_lt z x); [done|]. apply IH.
Qed.
Next Obligation.
  intros A ? l1. induction l1 as [|x l1 IH]; intros [|y l2]; simpl; try done.
  destruct (py_lt x y) eqn:Hxy; [done|].
  destruct (py_lt y x) eqn:Hyx; [done|].
  intros ??. f_equal; [by apply py_lt_connex|by apply IH].
Qed.

#[export] Program Instance pair_PyOrd `{PyOrd A} `{PyOrd B} : PyOrd (A * B) :=
  {| py_lt := pair_lt |}.
Next Obligation.
  intros A ? B ? [a b]. unfold pair_lt; simpl. by rewrite !py_lt_irrefl.
Qed.
Next Obligation.
  intros A ? B ? [a1 b1] [a2 b2] [a3 b3]. unfold pair_lt; simpl.
  destruct (py_lt a1 a2) eqn:H12.
  - intros _. destruct (py_lt a2 a3) eqn:H23.
    + by rewrite (py_lt_trans a1 a2 a3).
    + destruct (py_lt a3 a2) eqn:H32; [done|].
      by rewrite <-(py_lt_connex a2 a3), H12.
  - destruct (py_lt a2 a1) eqn:H21; [done|].
    rewrite <-(py_lt_connex a1 a2) by done.
    destruct (py_lt a1 a3); [done|]. destruct (py_lt a3 a1); [done|].
    apply py_lt_trans.
Qed.
Next Obligation.
  intros A ? B ? [a1 b1] [a2 b2]. unfold pair_lt; simpl.
  destruct (py_lt a1 a2) eqn:H12; [done|].
  destruct (py_lt a2 a1) eqn:H21; [done|].
  intros ??. f_equal; by apply py_lt_connex.
Qed.

(** [sorted] and [list.sort]: a stable sort; an element is placed after the
    elements that are not greater than it. *)
Fixpoint insert_sorted {A} (lt : A → A → bool) (x : A) (l : list A) : list A :=
  match l with
  | [] => [x]
  | y :: l' => if lt x y then x :: l else y :: insert_sorted lt x l'
  end.

Definition py_sorted {A} (lt : A → A → bool) (l : list A) : list A :=
  foldl (λ acc x, insert_sorted lt x acc) [] l.

(** [le_of lt x y]: [y] is not smaller than [x]. *)
Definition le_of {A} (lt : A → A → bool) (x y : A) : Prop := lt y x = false.

(** ** Iteration order of hashed containers *)

(** Iterating a [set] or a [dict] yields each element once, in an order the
    language leaves open. *)
Class HashOrder := {
  set_iter : ∀ `{Countable A}, gset A → list A;
  set_iter_perm : ∀ `{Countable A} (s : gset A), set_iter s ≡ₚ elements s;
  dict_iter : ∀ `{Countable K} {V}, gmap K V → list (K * V);
  dict_iter_perm : ∀ `{Countable K} {V} (m : gmap K V), dict_iter m ≡ₚ map_to_list m
}.

(** The order of stdpp's own enumeration is one such order. *)
Definition canonical_order : HashOrder :=
  {| set_iter := λ A _ _ s, elements s;
     set_iter_perm := λ A _ _ s, reflexivity _;
     dict_iter := λ K _ _ V m, map_to_list m;
     dict_iter_perm := λ K _ _ V m, reflexivity _ |}.

(** ** [ExemptionsMap] *)

Abbreviation ExemptionsMap A := (gmap A (gset A)).

Section exemptions.
Context `{Countable A}.

(** [__contains__] *)
Definition exemptions_contains (E : ExemptionsMap A) (book_id : A) : bool :=
  bool_decide (is_Some (E !! book_id)).

Definition merge_sets (E : ExemptionsMap A) (book_id : A) : gset A :=
  default ∅ (E !! book_id).

Definition add_exemption (book_id1 book_id2 : A) (E : ExemptionsMap A)
    : ExemptionsMap A :=
  let E1 := if exemptions_contains E book_id1 then E else <[book_id1 := ∅]> E in
  let E2 := if exemptions_contains E1 book_id2 then E1 else <[book_id2 := ∅]> E1 in
  let E3 := <[book_id1 := merge_sets E2 book_id1 ∪ {[book_id2]}]> E2 in
  <[book_id2 := merge_sets E3 book_id2 ∪ {[book_id1]}]> E3.

(** "If A excludes B then B excludes A". *)
Definition symmetric_exemptions (E : ExemptionsMap A) : Prop :=
  ∀ x y, y ∈ merge_sets E x → x ∈ merge_sets E y.
End exemptions.

(** ** [DuplicateFinder._partition_using_exemptions] *)

Section partition.
Context {HO : HashOrder} `{Countable A} {PO : PyOrd A}.

Implicit Types (results : list (gset A)) (partitioning_ids : list (option A)).

(** Body of [for nd in ndm_entry]: a sibling partition for a higher
    conflicting id, built from the value [res] had before the update. *)
Definition spawn_step (one_dup : A) (ndm_entry res : gset A)
    (st : list (gset A) * list (option A)) (nd : A)
    : list (gset A) * list (option A) :=
  if py_lt one_dup nd && bool_decide (nd ∈ res)
  then (st.1 ++ [(res ∖ ndm_entry ∖ {[one_dup]}) ∪ {[nd]}], st.2 ++ [Some nd])
  else st.

(** [for i, res in enumerate(results)]: the list is appended to while it is
    iterated, so the iterator also visits the new partitions; [i] is the
    iterator's index and [fuel] bounds the number of visits. *)
Fixpoint scan_results (fuel : nat) (one_dup : A) (ndm_entry : gset A) (i : nat)
    results partitioning_ids : option (list (gset A) * list (option A)) :=
  match results !! i with
  | None => Some (results, partitioning_ids)
  | Some res =>
      match fuel with
      | O => None
      | S fuel' =>
          if bool_decide (one_dup ∈ res) then
            if bool_decide (partitioning_ids !! i = Some (Some one_dup)) then
              scan_results fuel' one_dup ndm_entry (S i)
                (<[i := (res ∖ ndm_entry) ∪ {[one_dup]}]> results) partitioning_ids
            else
              let st := foldl (spawn_step one_dup ndm_entry res)
                          (<[i := (res ∖ ndm_entry) ∪ {[one_dup]}]> results,
                           partitioning_ids)
                          (set_iter ndm_entry) in
              scan_results fuel' one_dup ndm_entry (S i) st.1 st.2
          else scan_results fuel' one_dup ndm_entry (S i) results partitioning_ids
      end
  end.

(** Each partition present when the scan starts is visited once and adds at
    most one sibling per exempted id; the siblings are visited once. *)
Definition scan_fuel (ndm_entry : gset A) results : nat :=
  (length results * S (length (set_iter ndm_entry)))%nat.

(** Body of [for one_dup in data_items]. *)
Definition partition_step (exemptions : ExemptionsMap A)
    (st : list (gset A) * list (option A)) (one_dup : A)
    : list (gset A) * list (option A) :=
  if exemptions_contains exemptions one_dup then
    let ndm_entry := merge_sets exemptions one_dup in
    default st (scan_results (scan_fuel ndm_entry st.1) one_dup ndm_entry 0 st.1 st.2)
  else st.

Definition _partition_using_exemptions (data_items : list A)
    (exemptions : ExemptionsMap A) : list (list A) :=
  let data_items := py_sorted py_lt data_items in
  let st := foldl (partition_step exemptions)
              ([list_to_set data_items], [None]) data_items in
  let sr := (λ r, py_sorted py_lt (set_iter r))
              <$> filter (λ r : gset A, (1 < size r)%nat) st.1 in
  py_sorted list_lt sr.

(** One scan read entry by entry, an entry being a partition with its
    pivot: what the scan leaves of an entry, and the siblings it appends for
    it. *)
Definition upd_entry (one_dup : A) (ndm_entry : gset A) (e : gset A * option A)
    : gset A * option A :=
  if bool_decide (one_dup ∈ e.1) then ((e.1 ∖ ndm_entry) ∪ {[one_dup]}, e.2) else e.

Definition spawn_entries (one_dup : A) (ndm_entry : gset A) (e : gset A * option A)
    : list (gset A * option A) :=
  if bool_decide (one_dup ∈ e.1) && negb (bool_decide (e.2 = Some one_dup)) then
    (λ nd, ((e.1 ∖ ndm_entry ∖ {[one_dup]}) ∪ {[nd]}, Some nd)) <$>
      filter (λ nd, py_lt one_dup nd && bool_decide (nd ∈ e.1)) (set_iter ndm_entry)
  else [].

Definition step_entries (exemptions : ExemptionsMap A)
    (entries : list (gset A * option A)) (one_dup : A) : list (gset A * option A) :=
  if exemptions_contains exemptions one_dup then
    let ndm_entry := merge_sets exemptions one_dup in
    (upd_entry one_dup ndm_entry <$> entries)
      ++ (entries ≫= spawn_entries one_dup ndm_entry)
  else entries.

(** The partitions, with their pivots, when the loop over [data_items] ends. *)
Definition final_entries (data_items : list A) (exemptions : ExemptionsMap A)
    : list (gset A * option A) :=
  foldl (step_entries exemptions)
    [(list_to_set (py_sorted py_lt data_items), None)] (py_sorted py_lt data_items).

(** The invariant of the loop over [data_items]: every partition draws its
    elements from [universe], and holds nothing exempted from an element of
    [processed] that it contains. *)
Definition bounded_safe (exemptions : ExemptionsMap A) (universe : gset A)
    (processed : list A) (entries : list (gset A * option A)) : Prop :=
  ∀ e, e ∈ entries → fst e ⊆ universe ∧
    ∀ x y, x ∈ processed → x ∈ fst e → y ∈ merge_sets exemptions x → y ∈ fst e → y = x.
End partition.

(** ** Strings *)

(** A [str] is the sequence of its code points. *)
Abbreviation str := (list N).

(** A literal, written with the characters of Basic Latin. *)
Definition py (s : string) : str := Ascii.N_of_ascii <$> String.list_ascii_of_string s.

(** [ord(c)] for a literal [c] of one character. *)
Definition ord (c : string) : N :=
  match c with
  | String a _ => Ascii.N_of_ascii a
  | EmptyString => 0%N
  end.
Arguments ord : simpl never.

(** What the engine takes from the interpreter: the string methods and the
    [re] classes that depend on the Unicode character database, the
    properties [unicodedata] reads from it, and [str] of a list. *)
Class Unicode := {
  (** [str.upper] and [str.lower] *)
  str_upper : str → str;
  str_lower : str → str;
  (** white space of [str.split], [str.strip] and of the class [\s] *)
  isspace : N → bool;
  (** a pattern character matching a character under [re.IGNORECASE] *)
  ignorecase_eq : N → N → bool;
  (** full canonical decomposition of a code point *)
  decomposition : N → str;
  (** canonical combining class, [unicodedata.combining] *)
  combining : N → N;
  (** [unicodedata.category(c) == 'Mn'] *)
  category_Mn : N → bool;
  (** [str(l)] for a list [l] of strings *)
  str_of_list : list str → str;
  (** a full decomposition is made of characters that decompose no further *)
  decomposition_full : ∀ c d, d ∈ decomposition c → decomposition d = [d]
}.

Section strings.
Context {U : Unicode}.

(** [pat.sub(repl, s)] for a pattern that is one character class. *)
Definition re_sub_class (cls : N → bool) (repl : str) (s : str) : str :=
  s ≫= λ c, if cls c then repl else [c].

(** [c in s] *)
Definition str_contains (c : N) (s : str) : bool := bool_decide (c ∈ s).

(** [s.strip()] *)
Fixpoint str_lstrip (s : str) : str :=
  match s with
  | [] => []
  | c :: s' => if isspace c then str_lstrip s' else s
  end.
Definition str_strip (s : str) : str := reverse (str_lstrip (reverse (str_lstrip s))).

(** [s.split()]: the maximal runs of characters that are not white space;
    [cur] is the run being read, reversed. *)
Fixpoint str_split_from (cur : str) (s : str) : list str :=
  match s with
  | [] => if bool_decide (cur = []) then [] else [reverse cur]
  | c :: s' =>
      if isspace c
      then if bool_decide (cur = []) then str_split_from [] s'
           else reverse cur :: str_split_from [] s'
      else str_split_from (c :: cur) s'
  end.
Definition str_split (s : str) : list str := str_split_from [] s.

(** [s.split(sep)] for a separator of one character. *)
Fixpoint str_split_sep_from (sep : N) (cur : str) (s : str) : list str :=
  match s with
  | [] => [reverse cur]
  | c :: s' =>
      if (c =? sep)%N then reverse cur :: str_split_sep_from sep [] s'
      else str_split_sep_from sep (c :: cur) s'
  end.
Definition str_split_sep (sep : N) (s : str) : list str := str_split_sep_from sep [] s.

(** [s.replace(a, b)] for single characters. *)
Definition str_replace (a b : N) (s : str) : str :=
  (λ c, if (c =? a)%N then b else c) <$> s.

(** [sep.join(l)] *)
Fixpoint str_join (sep : str) (l : list str) : str :=
  match l with
  | [] => []
  | [x] => x
  | x :: l' => x ++ sep ++ str_join sep l'
  end.

(** [s[:n]], also for a negative [n]. *)
Definition slice_to {A} (l : list A) (n : Z) : list A :=
  if (0 <=? n)%Z then take (Z.to_nat n) l
  else take (Z.to_nat (Z.of_nat (length l) + n)) l.

(** [n * s] *)
Definition str_repeat (n : Z) (c : N) : str := replicate (Z.to_nat n) c.

(** *** [unicodedata.normalize('NFD', text)] *)

(** Canonical ordering: a character of non-zero combining class moves to the
    right past the characters of a greater class that precede it, so every
    run of such characters is sorted by class, stably. *)
Fixpoint reorder_insert (c : N) (l : str) : str :=
  match l with
  | [] => [c]
  | y :: l' =>
      if (0 <? combining y)%N && (combining y <? combining c)%N
      then y :: reorder_insert c l'
      else c :: l
  end.

Definition canonical_reorder (s : str) : str := foldr reorder_insert [] s.

Definition normalize_NFD (text : str) : str :=
  canonical_reorder (text ≫= decomposition).

(** *** [decode_unicode] *)
Definition decode_unicode (text : str) : str :=
  if bool_decide (text = []) then text
  else
    let normalized := normalize_NFD text in
    filter (λ char, negb (category_Mn char)) normalized.
End strings.

(** ** Module state of [matching]: the soundex lengths *)

Record SoundexLengths := {
  title_soundex_length : Z;
  author_soundex_length : Z;
  publisher_soundex_length : Z;
  series_soundex_length : Z;
  tags_soundex_length : Z
}.

Definition initial_lengths : SoundexLengths :=
  {| title_soundex_length := 6;
     author_soundex_length := 8;
     publisher_soundex_length := 6;
     series_soundex_length := 6;
     tags_soundex_length := 4 |}.

Definition set_soundex_lengths (title_len author_len : Z) (g : SoundexLengths)
    : SoundexLengths :=
  {| title_soundex_length := title_len;
     author_soundex_length := author_len;
     publisher_soundex_length := publisher_soundex_length g;
     series_soundex_length := series_soundex_length g;
     tags_soundex_length := tags_soundex_length g |}.

Definition set_title_soundex_length (title_len : Z) (g : SoundexLengths)
    : SoundexLengths :=
  {| title_soundex_length := title_len;
     author_soundex_length := author_soundex_length g;
     publisher_soundex_length := publisher_soundex_length g;
     series_soundex_length := series_soundex_length g;
     tags_soundex_length := tags_soundex_length g |}.

Definition set_author_soundex_length (author_len : Z) (g : SoundexLengths)
    : SoundexLengths :=
  {| title_soundex_length := title_soundex_length g;
     author_soundex_length := author_len;
     publisher_soundex_length := publisher_soundex_length g;
     series_soundex_length := series_soundex_length g;
     tags_soundex_length := tags_soundex_length g |}.

Definition set_publisher_soundex_length (publisher_len : Z) (g : SoundexLengths)
    : SoundexLengths :=
  {| title_soundex_length := title_soundex_length g;
     author_soundex_length := author_soundex_length g;
     publisher_soundex_length := publisher_len;
     series_soundex_length := series_soundex_length g;
     tags_soundex_length := tags_soundex_length g |}.

Definition set_series_soundex_length (series_len : Z) (g : SoundexLengths)
    : SoundexLengths :=
  {| title_soundex_length := title_soundex_length g;
     author_soundex_length := author_soundex_length g;
     publisher_soundex_length := publisher_soundex_length g;
     series_soundex_length := series_len;
     tags_soundex_length := tags_soundex_length g |}.

Definition set_tags_soundex_length (tags_len : Z) (g : SoundexLengths)
    : SoundexLengths :=
  {| title_soundex_length := title_soundex_length g;
     author_soundex_length := author_soundex_length g;
     publisher_soundex_length := publisher_soundex_length g;
     series_soundex_length := series_soundex_length g;
     tags_soundex_length := tags_len |}.

(** ** [soundex] *)

Section soundex.
Context {U : Unicode}.

Definition soundex_digits : str := py "01230120022455012623010202".

(** [digits[ordc - orda]] *)
Definition soundex_digit (ordc : N) : N :=
  default 0%N (soundex_digits !! N.to_nat (ordc - ord "A")).

(** Body of [for c in name.upper()]; the state is [(sndx, fc)]. *)
Definition soundex_step (st : str * str) (c : N) : str * str :=
  let ordc := c in
  if (ord "A" <=? ordc)%N && (ordc <=? ord "Z")%N then
    let fc := if bool_decide (st.2 = []) then [c] else st.2 in
    let d := soundex_digit ordc in
    if bool_decide (st.1 = []) || negb (bool_decide (last st.1 = Some d))
    then (st.1 ++ [d], fc)
    else (st.1, fc)
  else st.

Definition soundex (name : str) (length : Z) : str :=
  let st := foldl soundex_step ([], []) (str_upper name) in
  let sndx := st.2 ++ drop 1 st.1 in
  let sndx := filter (λ c, c ≠ ord "0") sndx in
  slice_to (sndx ++ str_repeat length (ord "0")) length.

(** The procedure of the specification, stage by stage. It has its own
    table, read as the specification writes it: the digit of a letter is the
    character of the table at the index "char - 'A'". *)
Definition is_AZ (c : N) : bool := (ord "A" <=? c)%N && (c <=? ord "Z")%N.

Definition procedure_table : str := py "01230120022455012623010202".

Definition procedure_digit (c : N) : N :=
  nth (N.to_nat (c - ord "A")) procedure_table (ord "0").

Fixpoint collapse_runs (prev : option N) (l : str) : str :=
  match l with
  | [] => []
  | x :: l' =>
      if bool_decide (prev = Some x) then collapse_runs prev l'
      else x :: collapse_runs (Some x) l'
  end.

(** The digit a new digit is compared with: the last one kept, or [prev]
    when none was kept yet. *)
Definition effective_last (prev : option N) (r : str) : option N :=
  match last r with
  | Some x => Some x
  | None => prev
  end.

Definition soundex_procedure (name : str) (length : Z) : str :=
  let letters := filter (λ c, is_AZ c) (str_upper name) in
  let mapped := procedure_digit <$> letters in
  let collapsed := collapse_runs None mapped in
  let replaced := take 1 letters ++ drop 1 collapsed in
  let deleted := filter (λ c, c ≠ ord "0") replaced in
  take (Z.to_nat length) (deleted ++ replicate (Z.to_nat length) (ord "0")).
End soundex.

(** ** Title and author match keys *)

(** Python's truth value of an optional string. *)
Definition truthy (s : option str) : bool :=
  match s with
  | Some (_ :: _) => true
  | _ => false
  end.

(** The token pipeline of titles is a chain of backtracking regular
    expressions; it is kept abstract, and everything below holds whatever
    it computes. *)
Class TitleTokens := { get_title_tokens : str → list str }.

Section matching.
Context {U : Unicode} {TT : TitleTokens}.

Definition ignore_author_words : list str :=
  [py "von"; py "van"; py "jr"; py "sr"; py "i"; py "ii"; py "iii";
   py "second"; py "third"; py "md"; py "phd"].

(** [IGNORE_AUTHOR_WORDS_MAP]: only its keys are used. *)
Definition IGNORE_AUTHOR_WORDS_MAP : list str := ignore_author_words.

(** [s] starts with [pat], compared under [re.IGNORECASE]; the rest of [s]. *)
Fixpoint match_prefix (pat s : str) : option str :=
  match pat, s with
  | [], _ => Some s
  | _ :: _, [] => None
  | p :: pat', c :: s' => if ignorecase_eq p c then match_prefix pat' s' else None
  end.

(** [^(a|the|an)\s+] replaced by the empty string: the first alternative
    that is followed by white space is removed with that white space. *)
Fixpoint sub_title_sort_articles_from (alts : list str) (text : str) : str :=
  match alts with
  | [] => text
  | a :: alts' =>
      match match_prefix a text with
      | Some (c :: rest) =>
          if isspace c then str_lstrip rest
          else sub_title_sort_articles_from alts' text
      | _ => sub_title_sort_articles_from alts' text
      end
  end.

Definition sub_title_sort_articles (text : str) : str :=
  sub_title_sort_articles_from [py "a"; py "the"; py "an"] text.

(** [\s+] replaced by one space; [in_run] tells that the previous character
    was white space. *)
Fixpoint sub_whitespace_runs (in_run : bool) (text : str) : str :=
  match text with
  | [] => []
  | c :: text' =>
      if isspace c
      then if in_run then sub_whitespace_runs true text'
           else ord " " :: sub_whitespace_runs true text'
      else c :: sub_whitespace_runs false text'
  end.

(** The class of the first pattern of [fuzzy_it]; the last character of the
    list is the double quote. *)
Definition fuzzy_punctuation : str := py "[](){}<>';,:#" ++ [34%N].

(** [fuzzy_it] with its default patterns. *)
Definition fuzzy_it (text : str) : str :=
  let text := str_lower (str_strip text) in
  let text := re_sub_class (λ c, str_contains c fuzzy_punctuation) [] text in
  let text := sub_title_sort_articles text in
  let text := re_sub_class (λ c, str_contains c (py "-._")) (py " ") text in
  let text := sub_whitespace_runs false text in
  str_strip text.

Definition identical_title_match (title : str) (lang : option str) : str :=
  if truthy lang then default [] lang ++ str_lower title
  else str_lower title.

Definition similar_title_match (title : str) (lang : option str) : str :=
  let title := decode_unicode title in
  let result := fuzzy_it title in
  if truthy lang then default [] lang ++ result
  else result.

Definition soundex_title_match (g : SoundexLengths) (title : str) (lang : option str)
    : str :=
  let title := similar_title_match title None in
  let result := soundex title (title_soundex_length g) in
  if truthy lang then default [] lang ++ result
  else result.

(** The tokens up to the first of [&], [and], [or], [aka] that is not the
    first token; [i] is the index of the head of [toks]. *)
Fixpoint truncate_tokens (i : nat) (toks : list str) : list str :=
  match toks with
  | [] => []
  | tok :: toks' =>
      if bool_decide (tok ∈ [py "&"; py "and"; py "or"; py "aka"]) && bool_decide (0 < i)%nat
      then []
      else tok :: truncate_tokens (S i) toks'
  end.

Definition fuzzy_title_match (title : str) (lang : option str) : str :=
  let title_tokens := get_title_tokens title in
  let title_tokens := truncate_tokens 0 title_tokens in
  let result := str_join [] title_tokens in
  if truthy lang then default [] lang ++ result
  else result.

(** [,([^\s])] replaced by [, \1]: a match takes the comma and the
    character after it. *)
Fixpoint sub_comma_no_space (author : str) : str :=
  match author with
  | [] => []
  | c :: author' =>
      if (c =? ord ",")%N then
        match author' with
        | c' :: author'' =>
            if isspace c' then c :: sub_comma_no_space author'
            else c :: ord " " :: c' :: sub_comma_no_space author''
        | [] => [c]
        end
      else c :: sub_comma_no_space author'
  end.

(** The class of [remove_pat] for authors, without white space; the last
    character is the double quote. *)
Definition author_remove_chars : str := py ",!@#$%^&*(){}`~[]/" ++ [34%N].

Definition get_author_tokens (author : str) (decode_non_ascii strip_initials : bool)
    : list str :=
  if bool_decide (author = []) then []
  else
    let author := sub_comma_no_space author in
    let au := re_sub_class (λ c, str_contains c (py "-+.:;")) (py " ") author in
    let au := if decode_non_ascii then decode_unicode au else au in
    let parts := str_split au in
    let parts := if str_contains (ord ",") au then drop 1 parts ++ take 1 parts
                 else parts in
    let min_length := if strip_initials then 1%nat else 0%nat in
    parts ≫= λ tok,
      let tok := str_strip
                   (re_sub_class (λ c, str_contains c author_remove_chars || isspace c)
                      [] tok) in
      if bool_decide (min_length < length tok)%nat
         && negb (bool_decide (str_lower tok ∈ IGNORE_AUTHOR_WORDS_MAP))
      then [str_lower tok]
      else [].

Definition identical_authors_match (author : str) : str * option str :=
  (str_lower author, None).

Definition similar_authors_match (author : str) : str * option str :=
  let author_tokens := get_author_tokens author true true in
  let ahash := str_join (py " ") author_tokens in
  if bool_decide (1 < length author_tokens)%nat then
    let author_tokens := drop 1 author_tokens ++ take 1 author_tokens in
    (ahash, Some (str_join (py " ") author_tokens))
  else (ahash, None).

Definition soundex_authors_match (g : SoundexLengths) (author : str)
    : str * option str :=
  let author_tokens := get_author_tokens author true false in
  if bool_decide (length author_tokens ≤ 1)%nat then
    (soundex (str_join [] author_tokens) 4, None)
  else
    let new_author_tokens :=
      drop (length author_tokens - 1) author_tokens
        ++ take (length author_tokens - 1) author_tokens in
    let ahash := soundex (str_join [] new_author_tokens) (author_soundex_length g) in
    if bool_decide (1 < length author_tokens)%nat
    then (ahash, Some (soundex (str_join [] author_tokens) (author_soundex_length g)))
    else (ahash, None).

Definition fuzzy_authors_match (author : str) : str * option str :=
  let author_tokens := get_author_tokens author true false in
  match author_tokens with
  | [] => ([], None)
  | [tok] => (tok, None)
  | first :: _ =>
      let new_author_tokens := [take 1 first; default [] (last author_tokens)] in
      (str_join [] new_author_tokens, None)
  end.

(** ** Series, publisher and tag match keys *)

(** The class of [remove_pat] for series, publishers and tags, without white
    space; the last character is the double quote. *)
Definition variation_remove_chars : str := py ",!@#$%^&*(){}`~'[]/" ++ [34%N].

(** The three token pipelines differ in their stop words only. *)
Definition variation_tokens (ignore_words : list str) (text : str)
    (decode_non_ascii : bool) : list str :=
  if bool_decide (text = []) then []
  else
    let s := re_sub_class (λ c, str_contains c (py "-+.:;")) (py " ") text in
    let s := if decode_non_ascii then decode_unicode s else s in
    let parts := str_split s in
    parts ≫= λ tok,
      let tok := str_strip
                   (re_sub_class
                      (λ c, str_contains c variation_remove_chars || isspace c) [] tok) in
      if bool_decide (0 < length tok)%nat && negb (bool_decide (str_lower tok ∈ ignore_words))
      then [str_lower tok]
      else [].

Definition get_series_tokens (series : str) (decode_non_ascii : bool) : list str :=
  variation_tokens [py "the"; py "a"; py "and"] series decode_non_ascii.

Definition similar_series_match (series : str) : str :=
  let series_tokens := get_series_tokens series true in
  str_join (py " ") series_tokens.

Definition soundex_series_match (g : SoundexLengths) (series : str) : str :=
  let series_tokens := get_series_tokens series true in
  if bool_decide (length series_tokens ≤ 1)%nat then
    soundex (str_join [] series_tokens) 4
  else soundex (str_join [] series_tokens) (series_soundex_length g).

Definition fuzzy_series_match (series : str) : str :=
  let series_tokens := get_series_tokens series true in
  match series_tokens with
  | [] => []
  | tok :: _ => tok
  end.

Definition get_publisher_tokens (publisher : str) (decode_non_ascii : bool) : list str :=
  variation_tokens
    [py "the"; py "inc"; py "ltd"; py "limited"; py "llc"; py "co"; py "pty";
     py "usa"; py "uk"] publisher decode_non_ascii.

Definition similar_publisher_match (publisher : str) : str :=
  let publisher_tokens := get_publisher_tokens publisher true in
  str_join (py " ") publisher_tokens.

Definition soundex_publisher_match (g : SoundexLengths) (publisher : str) : str :=
  let publisher_tokens := get_publisher_tokens publisher true in
  if bool_decide (length publisher_tokens ≤ 1)%nat then
    soundex (str_join [] publisher_tokens) 4
  else soundex (str_join [] publisher_tokens) (publisher_soundex_length g).

Definition fuzzy_publisher_match (publisher : str) : str :=
  let publisher_tokens := get_publisher_tokens publisher true in
  match publisher_tokens with
  | [] => []
  | first :: _ =>
      if bool_decide (1 < length first)%nat || bool_decide (length publisher_tokens = 1%nat)
      then first
      else str_join (py " ") (take 2 publisher_tokens)
  end.

Definition get_tag_tokens (tag : str) (decode_non_ascii : bool) : list str :=
  variation_tokens [py "the"; py "and"; py "a"] tag decode_non_ascii.

Definition similar_tags_match (tag : str) : str :=
  let tag_tokens := get_tag_tokens tag true in
  str_join (py " ") tag_tokens.

Definition soundex_tags_match (g : SoundexLengths) (tag : str) : str :=
  let tag_tokens := get_tag_tokens tag true in
  if bool_decide (length tag_tokens ≤ 1)%nat then
    soundex (str_join [] tag_tokens) 4
  else soundex (str_join [] tag_tokens) (publisher_soundex_length g).

Definition fuzzy_tags_match (tag : str) : str :=
  let tag_tokens := get_tag_tokens tag true in
  match tag_tokens with
  | [] => []
  | tok :: _ => tok
  end.

(** ** Algorithm tables *)

Definition get_title_algorithm_fn (g : SoundexLengths) (title_match : str)
    : option (str → option str → str) :=
  if bool_decide (title_match = py "identical") then Some identical_title_match
  else if bool_decide (title_match = py "similar") then Some similar_title_match
  else if bool_decide (title_match = py "soundex") then Some (soundex_title_match g)
  else if bool_decide (title_match = py "fuzzy") then Some fuzzy_title_match
  else None.

Definition get_author_algorithm_fn (g : SoundexLengths) (author_match : str)
    : option (str → str * option str) :=
  if bool_decide (author_match = py "identical") then Some identical_authors_match
  else if bool_decide (author_match = py "similar") then Some similar_authors_match
  else if bool_decide (author_match = py "soundex") then Some (soundex_authors_match g)
  else if bool_decide (author_match = py "fuzzy") then Some fuzzy_authors_match
  else None.
End matching.

(** ** The library store *)

(** The read operations of [CalibreDB] that the engine calls, on a library
    that does not change during a run. [db_format_size] is the ['size'] entry
    of [format_metadata], absent when the dictionary is empty. *)
Record CalibreDB := {
  db_all_ids : list Z;
  db_title : Z → option str;
  db_authors : Z → option str;
  db_languages : Z → option str;
  db_get_identifiers : Z → gmap str str;
  db_formats : Z → option str;
  db_format_size : Z → str → option Z;
  db_format_hash : Z → str → option str
}.

Record DuplicateGroup := {
  group_id : Z;
  book_ids : list Z;
  match_key : str
}.

#[export] Instance DuplicateGroup_eq_dec : EqDecision DuplicateGroup.
Proof. solve_decision. Defined.

(** The finder; the progress callback and the debug log only observe. *)
Record DuplicateFinder := {
  db : CalibreDB;
  book_exemptions : ExemptionsMap Z;
  author_exemptions : ExemptionsMap str
}.

(** ** Candidate maps *)

Section candidates.
Context {HO : HashOrder} `{Countable K} {PK : PyOrd K} `{Countable V} {PV : PyOrd V}.

(** [candidates_map[key].add(value)] on a [defaultdict(set)] *)
Definition add_candidate (candidates_map : gmap K (gset V)) (key : K) (value : V)
    : gmap K (gset V) :=
  <[key := default ∅ (candidates_map !! key) ∪ {[value]}]> candidates_map.

Definition _shrink_candidates_map (candidates_map : gmap K (gset V))
    : gmap K (gset V) :=
  filter (λ kv, ¬ (size kv.2 < 2)%nat) candidates_map.

(** The result is the [OrderedDict], as the list of its items. *)
Definition _sort_candidate_groups (candidates_map : gmap K (gset V)) (by_title : bool)
    : list (K * gset V) :=
  let keys := (dict_iter candidates_map).*1 in
  let skeys :=
    if by_title then py_sorted py_lt keys
    else
      let key k := (Z.of_nat (size (default ∅ (candidates_map !! k))), k) in
      py_sorted (λ a b, py_lt (key b) (key a)) keys in
  (λ k, (k, default ∅ (candidates_map !! k))) <$> skeys.

(** The loop with [for ... else] of [_clean_dup_groups]: [a] is kept when no
    later set contains it. *)
Fixpoint prune_subsets (res : list (gset V)) : list (gset V) :=
  match res with
  | [] => []
  | a :: rest =>
      if bool_decide (Exists (λ b, a ⊆ b) rest) then prune_subsets rest
      else a :: prune_subsets rest
  end.

Definition _clean_dup_groups (candidates_map : list (K * gset V)) : list (gset V) :=
  let res := candidates_map.*2 in
  let res := py_sorted (λ x y : gset V, (size x <? size y)%nat) res in
  prune_subsets res.

(** Body of the two loops of [_convert_to_groups]; the state is
    [(groups, group_id)]. *)
Definition convert_partition (st : list DuplicateGroup * Z) (partition : list Z)
    : list DuplicateGroup * Z :=
  if bool_decide (1 < length partition)%nat then
    let group_id := st.2 + 1 in
    (st.1 ++ [{| group_id := group_id;
                 book_ids := py_sorted py_lt partition;
                 match_key := [] |}], group_id)
  else st.
End candidates.

(** The groups made of the partitions [subs], numbered from [start + 1]. *)
Fixpoint number_groups (start : Z) (subs : list (list Z)) : list DuplicateGroup :=
  match subs with
  | [] => []
  | sub :: subs' =>
      {| group_id := start + 1; book_ids := py_sorted py_lt sub; match_key := [] |}
        :: number_groups (start + 1) subs'
  end.

Section convert.
Context {HO : HashOrder} `{Countable K} {PK : PyOrd K}.

Definition _convert_to_groups (candidates_map : list (K * gset Z))
    (exemptions : ExemptionsMap Z) : list DuplicateGroup :=
  let candidates_list := _clean_dup_groups candidates_map in
  (foldl (λ st book_ids,
            let partition_groups :=
              _partition_using_exemptions (set_iter book_ids) exemptions in
            foldl convert_partition st partition_groups)
     ([], 0) candidates_list).1.
End convert.

(** ** [DuplicateFinder] *)

Section finder.
Context {U : Unicode} {TT : TitleTokens} {HO : HashOrder}.

Definition authors_to_list (db : CalibreDB) (book_id : Z) : list str :=
  let authors := db_authors db book_id in
  if truthy authors then
    (λ a, str_replace (ord "|") (ord ",") (str_strip a))
      <$> str_split_sep (ord ",") (default [] authors)
  else [].

(** Body of [for author in authors] of [_find_title_author_candidates]. *)
Definition title_author_insert (author_fn : str → str * option str)
    (title_hash : str) (book_id : Z) (candidates_map : gmap str (gset Z))
    (author : str) : gmap str (gset Z) :=
  let author_hash := (author_fn author).1 in
  let rev_author_hash := (author_fn author).2 in
  let candidates_map := add_candidate candidates_map (title_hash ++ author_hash) book_id in
  if truthy rev_author_hash && negb (bool_decide (rev_author_hash = Some author_hash))
  then add_candidate candidates_map (title_hash ++ default [] rev_author_hash) book_id
  else candidates_map.

(** Body of [for i, book_id in enumerate(book_ids)]; calling a [title_fn]
    that is [None] raises. *)
Definition title_author_step (db : CalibreDB)
    (title_fn : option (str → option str → str))
    (author_fn : option (str → str * option str)) (include_languages : bool)
    (candidates_map : gmap str (gset Z)) (book_id : Z)
    : option (gmap str (gset Z)) :=
  let title := db_title db book_id in
  if negb (truthy title) then Some candidates_map
  else
    let lang := if include_languages then db_languages db book_id else None in
    title_fn ← title_fn;
    let title_hash := title_fn (default [] title) lang in
    match author_fn with
    | Some author_fn =>
        let authors := authors_to_list db book_id in
        if bool_decide (authors ≠ []) then
          Some (foldl (title_author_insert author_fn title_hash book_id)
                  candidates_map authors)
        else Some (add_candidate candidates_map title_hash book_id)
    | None => Some (add_candidate candidates_map title_hash book_id)
    end.

(** A loop whose body may raise. *)
Definition foldl_raising {A B} (f : A → B → option A) (a : A) (l : list B) : option A :=
  foldl (λ acc x, a ← acc; f a x) (Some a) l.

Definition _find_title_author_candidates (g : SoundexLengths) (db : CalibreDB)
    (book_ids : list Z) (title_match author_match : str) (include_languages : bool)
    : option (gmap str (gset Z)) :=
  let title_fn := get_title_algorithm_fn g title_match in
  let author_fn :=
    if bool_decide (author_match ≠ py "ignore")
    then get_author_algorithm_fn g author_match else None in
  foldl_raising (title_author_step db title_fn author_fn include_languages) ∅ book_ids.

Definition _find_identifier_candidates (db : CalibreDB) (book_ids : list Z)
    (identifier_type : str) : gmap str (gset Z) :=
  foldl (λ candidates_map book_id,
           let identifiers := db_get_identifiers db book_id in
           let identifier := default [] (identifiers !! identifier_type) in
           if bool_decide (identifier ≠ [])
           then add_candidate candidates_map identifier book_id
           else candidates_map)
    ∅ book_ids.

(** First pass of [_find_binary_candidates]: the formats of one book. *)
Definition binary_size_step (db : CalibreDB) (size_map : gmap Z (gset (Z * str)))
    (book_id : Z) : gmap Z (gset (Z * str)) :=
  let formats := db_formats db book_id in
  if negb (truthy formats) then size_map
  else
    foldl (λ size_map fmt,
             match db_format_size db book_id fmt with
             | Some size => add_candidate size_map size (book_id, fmt)
             | None => size_map
             end)
      size_map (str_split_sep (ord ",") (default [] formats)).

(** Second pass: one file of a size collision. *)
Definition binary_hash_step (db : CalibreDB) (size : Z)
    (candidates_map : gmap (str * Z) (gset Z)) (file : Z * str)
    : gmap (str * Z) (gset Z) :=
  let file_hash := db_format_hash db file.1 file.2 in
  if truthy file_hash
  then add_candidate candidates_map (default [] file_hash, size) file.1
  else candidates_map.

Definition _find_binary_candidates (db : CalibreDB) (book_ids : list Z)
    : gmap (str * Z) (gset Z) :=
  let size_map := foldl (binary_size_step db) ∅ book_ids in
  let size_map := filter (λ kv : Z * gset (Z * str), (1 < size kv.2)%nat) size_map in
  foldl (λ candidates_map kv,
           foldl (binary_hash_step db kv.1) candidates_map (set_iter kv.2))
    ∅ (dict_iter size_map).

(** The second pass as a list of insertions [(key, book_id)]: the insertions
    of one file, and the insertion itself. *)
Definition hash_entries (db : CalibreDB) (size : Z) (file : Z * str)
    : list ((str * Z) * Z) :=
  let file_hash := db_format_hash db file.1 file.2 in
  if truthy file_hash then [((default [] file_hash, size), file.1)] else [].

Definition insert_entry (candidates_map : gmap (str * Z) (gset Z))
    (entry : (str * Z) * Z) : gmap (str * Z) (gset Z) :=
  add_candidate candidates_map entry.1 entry.2.

(** Body of [for author in authors] of [_find_author_only_duplicates]; the
    state is [(candidates_map, author_bookids_map)]. *)
Definition author_only_insert (author_fn : option (str → str * option str))
    (book_id : Z) (st : gmap str (gset str) * gmap str (gset Z)) (author : str)
    : option (gmap str (gset str) * gmap str (gset Z)) :=
  let author_bookids_map := add_candidate st.2 author book_id in
  author_fn ← author_fn;
  let author_hash := (author_fn author).1 in
  let rev_author_hash := (author_fn author).2 in
  let candidates_map := add_candidate st.1 author_hash author in
  if truthy rev_author_hash && negb (bool_decide (rev_author_hash = Some author_hash))
  then Some (add_candidate candidates_map (default [] rev_author_hash) author,
             author_bookids_map)
  else Some (candidates_map, author_bookids_map).

(** Body of [for partition in partition_groups], with the state
    [(groups, group_id)]. *)
Definition author_only_partition (author_bookids_map : gmap str (gset Z))
    (st : list DuplicateGroup * Z) (partition : list str) : list DuplicateGroup * Z :=
  if bool_decide (1 < length partition)%nat then
    let book_ids_in_group : gset Z :=
      foldl (λ acc author, acc ∪ default ∅ (author_bookids_map !! author)) ∅ partition in
    if bool_decide (1 < size book_ids_in_group)%nat then
      let group_id := st.2 + 1 in
      (st.1 ++ [{| group_id := group_id;
                   book_ids := py_sorted py_lt (set_iter book_ids_in_group);
                   match_key := str_of_list partition |}], group_id)
    else st
  else st.

Definition _find_author_only_duplicates (g : SoundexLengths) (self : DuplicateFinder)
    (book_ids : list Z) (author_match : str) (sort_by_title : bool)
    : option (list DuplicateGroup) :=
  let author_fn := get_author_algorithm_fn g author_match in
  st ← foldl_raising
         (λ st book_id,
            let authors := authors_to_list (db self) book_id in
            foldl_raising (author_only_insert author_fn book_id) st authors)
         (∅, ∅) book_ids;
  let candidates_map := _shrink_candidates_map st.1 in
  let author_bookids_map := st.2 in
  let candidates_map := _sort_candidate_groups candidates_map sort_by_title in
  let candidates_list := _clean_dup_groups candidates_map in
  Some (foldl (λ st author_group,
                 let partition_groups :=
                   _partition_using_exemptions (set_iter author_group)
                     (author_exemptions self) in
                 foldl (author_only_partition author_bookids_map) st partition_groups)
          ([], 0) candidates_list).1.

(** Shrink, sort and convert: the end of [find_duplicates], for the key type
    of the search at hand. *)
Definition finish_groups `{Countable K} {PK : PyOrd K} (self : DuplicateFinder)
    (candidates_map : gmap K (gset Z)) (sort_by_title : bool) : list DuplicateGroup :=
  let candidates_map := _shrink_candidates_map candidates_map in
  let candidates_map := _sort_candidate_groups candidates_map sort_by_title in
  _convert_to_groups candidates_map (book_exemptions self).

Definition find_duplicates (g : SoundexLengths) (self : DuplicateFinder)
    (search_type title_match author_match identifier_type : str)
    (include_languages sort_by_title : bool) (book_ids : option (list Z))
    : option (list DuplicateGroup) :=
  let book_ids :=
    match book_ids with
    | None => db_all_ids (db self)
    | Some book_ids => book_ids
    end in
  if bool_decide (search_type = py "identifier") then
    Some (finish_groups self
            (_find_identifier_candidates (db self) book_ids identifier_type)
            sort_by_title)
  else if bool_decide (search_type = py "binary") then
    Some (finish_groups self (_find_binary_candidates (db self) book_ids) sort_by_title)
  else if bool_decide (search_type = py "author_only") then
    _find_author_only_duplicates g self book_ids author_match sort_by_title
  else
    candidates_map ← _find_title_author_candidates g (db self) book_ids
                       title_match author_match include_languages;
    Some (finish_groups self candidates_map sort_by_title).

(** *** The stages of a book search *)

(** The candidate sets that are left after shrinking, sorting and pruning. *)
Definition pruned_candidates `{Countable K} {PK : PyOrd K}
    (candidates_map : gmap K (gset Z)) (sort_by_title : bool) : list (gset Z) :=
  _clean_dup_groups
    (_sort_candidate_groups (_shrink_candidates_map candidates_map) sort_by_title).

(** The candidate sets [find_duplicates] hands to the partitioner in a search
    for books; an author search groups author names instead. *)
Definition candidate_groups (g : SoundexLengths) (self : DuplicateFinder)
    (search_type title_match author_match identifier_type : str)
    (include_languages sort_by_title : bool) (book_ids : option (list Z))
    : option (list (gset Z)) :=
  let book_ids :=
    match book_ids with
    | None => db_all_ids (db self)
    | Some book_ids => book_ids
    end in
  if bool_decide (search_type = py "identifier") then
    Some (pruned_candidates
            (_find_identifier_candidates (db self) book_ids identifier_type)
            sort_by_title)
  else if bool_decide (search_type = py "binary") then
    Some (pruned_candidates (_find_binary_candidates (db self) book_ids) sort_by_title)
  else if bool_decide (search_type = py "author_only") then None
  else
    candidates_map ← _find_title_author_candidates g (db self) book_ids
                       title_match author_match include_languages;
    Some (pruned_candidates candidates_map sort_by_title).

(** The groups made from candidate sets: the partitions of each, numbered in
    the order of traversal. *)
Definition groups_of_candidates (E : ExemptionsMap Z) (candidates : list (gset Z))
    : list DuplicateGroup :=
  number_groups 0
    (filter (λ sub, 1 < length sub)%nat
       (candidates ≫= λ book_ids, _partition_using_exemptions (set_iter book_ids) E)).

(** "Every book appears in at most one group, except that the partitioner
    may repeat an id across the partitions of one candidate group": two
    groups that share an id are partitions of the same candidate set. *)
Definition one_group_or_split (E : ExemptionsMap Z) (candidates : list (gset Z))
    (groups : list DuplicateGroup) : Prop :=
  ∀ i j gi gj id,
    i ≠ j → groups !! i = Some gi → groups !! j = Some gj →
    id ∈ book_ids gi → id ∈ book_ids gj →
    ∃ c, c ∈ candidates
         ∧ book_ids gi ∈ _partition_using_exemptions (set_iter c) E
         ∧ book_ids gj ∈ _partition_using_exemptions (set_iter c) E.

Definition pairwise_disjoint (candidates : list (gset Z)) : Prop :=
  ∀ c c', c ∈ candidates → c' ∈ candidates → c ≠ c' → c ## c'.

(** "Every book appears in at most one group", without exception. *)
Definition groups_disjoint (groups : list DuplicateGroup) : Prop :=
  ∀ i j gi gj id,
    i ≠ j → groups !! i = Some gi → groups !! j = Some gj →
    id ∈ book_ids gi → id ∈ book_ids gj → False.
End finder.

(** ** A fragment of the character database *)

(** The interpreter's tables restricted to Basic Latin and to the characters
    listed here; on text made of those, the definitions below are CPython's. *)
Definition ascii_upper (c : N) : N :=
  if (ord "a" <=? c)%N && (c <=? ord "z")%N then (c - 32)%N else c.

Definition ascii_lower (c : N) : N :=
  if (ord "A" <=? c)%N && (c <=? ord "Z")%N then (c + 32)%N else c.

(** The white space characters of Unicode. *)
Definition unicode_isspace (c : N) : bool :=
  ((9 <=? c) && (c <=? 13) || (28 <=? c) && (c <=? 32) || (c =? 0x85) || (c =? 0xA0)
   || (c =? 0x1680) || (0x2000 <=? c) && (c <=? 0x200A) || (c =? 0x2028)
   || (c =? 0x2029) || (c =? 0x202F) || (c =? 0x205F) || (c =? 0x3000))%N.

(** U+00E9, U+00EB and U+00EF decompose into a letter and U+0301 or U+0308. *)
Definition fragment_decomposition (c : N) : str :=
  if (c =? 0xE9)%N then [0x65; 0x301]%N
  else if (c =? 0xEB)%N then [0x65; 0x308]%N
  else if (c =? 0xEF)%N then [0x69; 0x308]%N
  else [c].

(** U+0301 and U+0308 have class 230; the musical symbols U+1D165 (combining
    stem) and U+1D16D (combining augmentation dot) have classes 216 and 226. *)
Definition fragment_combining (c : N) : N :=
  if (c =? 0x301)%N || (c =? 0x308)%N then 230%N
  else if (c =? 0x1D165)%N then 216%N
  else if (c =? 0x1D16D)%N then 226%N
  else 0%N.

(** U+0301, U+0308 and U+034F (combining grapheme joiner) are of category
    Mn; the two musical symbols are of category Mc. *)
Definition fragment_category_Mn (c : N) : bool :=
  ((c =? 0x301) || (c =? 0x308) || (c =? 0x34F))%N.

(** [str] of a list of strings that need no escape. *)
Definition fragment_str_of_list (l : list str) : str :=
  py "[" ++ str_join (py ", ") ((λ s, py "'" ++ s ++ py "'") <$> l) ++ py "]".

#[export] Program Instance ucd_fragment : Unicode := {|
  str_upper := fmap ascii_upper;
  str_lower := fmap ascii_lower;
  isspace := unicode_isspace;
  ignorecase_eq := λ p c, (ascii_lower p =? ascii_lower c)%N;
  decomposition := fragment_decomposition;
  combining := fragment_combining;
  category_Mn := fragment_category_Mn;
  str_of_list := fragment_str_of_list
|}.
Next Obligation.
  intros c d. unfold fragment_decomposition.
  destruct (c =? 0xE9)%N eqn:H1; [|destruct (c =? 0xEB)%N eqn:H2;
    [|destruct (c =? 0xEF)%N eqn:H3]];
    intros Hd; apply list_elem_of_In in Hd; simpl in Hd;
    repeat (destruct Hd as [<-|Hd]; [try reflexivity|]); try done.
  by rewrite H1, H2, H3.
Qed.

(** Text of Basic Latin, and an interpreter that treats it as the fragment
    does. *)
Definition basic_text (s : str) : Prop := Forall (λ c, (c < 128)%N) s.

Definition basic_latin (U : Unicode) : Prop :=
  (∀ c, (c < 128)%N → isspace c = unicode_isspace c)
  ∧ (∀ c, (c < 128)%N → decomposition c = [c])
  ∧ (∀ c, (c < 128)%N → combining c = 0%N)
  ∧ (∀ c, (c < 128)%N → category_Mn c = false)
  ∧ (∀ s, basic_text s → str_lower s = ascii_lower <$> s).

(** ** Example libraries *)

(** A library given by rows [(id, (title, authors))], the authors as the
    store returns them: separated by commas, a comma inside a name written
    as a vertical bar. The books have no language, identifier or file. *)
Definition library (rows : list (Z * (string * string))) : CalibreDB :=
  {| db_all_ids := rows.*1;
     db_title := λ book_id, (λ r, py r.1) <$> (list_to_map rows : gmap Z _) !! book_id;
     db_authors := λ book_id, (λ r, py r.2) <$> (list_to_map rows : gmap Z _) !! book_id;
     db_languages := λ _, None;
     db_get_identifiers := λ _, ∅;
     db_formats := λ _, None;
     db_format_size := λ _ _, None;
     db_format_hash := λ _ _, None |}.

Definition finder (rows : list (Z * (string * string))) (E : ExemptionsMap Z)
    : DuplicateFinder :=
  {| db := library rows; book_exemptions := E; author_exemptions := ∅ |}.

(** The examples do not select the fuzzy title policy, so the title token
    pipeline is never consulted; this one yields no token. *)
Definition no_title_tokens : TitleTokens := {| get_title_tokens := λ _, [] |}.

(** [find_duplicates] on an example library, with the soundex lengths the
    module starts with, all books, and no language check. *)
Definition run_example (rows : list (Z * (string * string))) (E : ExemptionsMap Z)
    (search_type title_match author_match : string) (sort_by_title : bool)
    : option (list DuplicateGroup) :=
  @find_duplicates ucd_fragment no_title_tokens canonical_order initial_lengths
    (finder rows E) (py search_type) (py title_match) (py author_match) (py "isbn")
    false sort_by_title None.

(** Scenario S8: books without title or author; three carry one ISBN and
    the fourth another. *)
Definition library_S8 : CalibreDB :=
  {| db_all_ids := [1; 2; 3; 4];
     db_title := λ _, None;
     db_authors := λ _, None;
     db_languages := λ _, None;
     db_get_identifiers := λ book_id,
       if bool_decide (book_id ∈ [1; 2; 3]) then {[py "isbn" := py "9780000000001"]}
       else if bool_decide (book_id = 4) then {[py "isbn" := py "9780000000002"]}
       else ∅;
     db_formats := λ _, None;
     db_format_size := λ _ _, None;
     db_format_hash := λ _ _, None |}.

(** Scenario S5. *)
Definition library_S5 : list (Z * (string * string)) :=
  [(1, ("Dune", "Kevin J Anderson")); (2, ("Dune", "Anderson| Kevin J"))].

(** Book 1 has two authors and shares one with each of books 2 and 3. *)
Definition library_two_authors : list (Z * (string * string)) :=
  [(1, ("T", "A,B")); (2, ("T", "A")); (3, ("T", "B"))].

(** Books 1, 2, 3 share author A and books 2, 3, 4 share author C. *)
Definition library_overlap : list (Z * (string * string)) :=
  [(1, ("T", "A")); (2, ("T", "A,C")); (3, ("T", "A,C")); (4, ("T", "C"))].

(** Two books by the same author, written in two ways. *)
Definition library_one_author : list (Z * (string * string)) :=
  [(1, ("T", "Jane Roe")); (2, ("U", "jane roe"))].

(** Book 1 is by "Jane Roe" and "John Doe", book 2 by "jane roe" and "john
    doe", book 3 by "John Doe". *)
Definition library_author_pairs : list (Z * (string * string)) :=
  [(1, ("T", "Jane Roe,John Doe")); (2, ("U", "jane roe,john doe"));
   (3, ("V", "John Doe"))].

(** Three books with the same title and author. *)
Definition library_triple : list (Z * (string * string)) :=
  [(1, ("T", "A")); (2, ("T", "A")); (3, ("T", "A"))].

(** Three books with one file each: the files have the same size, and those
    of books 1 and 2 the same content. *)
Definition library_files : CalibreDB :=
  {| db_all_ids := [1; 2; 3];
     db_title := λ _, None;
     db_authors := λ _, None;
     db_languages := λ _, None;
     db_get_identifiers := λ _, ∅;
     db_formats := λ book_id,
       if bool_decide (book_id ∈ [1; 2; 3]) then Some (py "EPUB") else None;
     db_format_size := λ book_id fmt,
       if bool_decide (book_id ∈ [1; 2; 3]) && bool_decide (fmt = py "EPUB")
       then Some 1024 else None;
     db_format_hash := λ book_id fmt,
       if bool_decide (book_id ∈ [1; 2]) then Some (py "ab12")
       else if bool_decide (book_id = 3) then Some (py "cd34")
       else None |}.

(** * Properties *)

(** Decides a closed statement by evaluation. *)
Ltac by_evaluation :=
  first [ vm_compute; reflexivity
        | refine (bool_decide_unpack _ _); vm_compute; exact I ].

(** ** Sorting *)

Section sorting.
Context {A : Type} (lt : A → A → bool).

Lemma insert_sorted_perm x l : insert_sorted lt x l ≡ₚ x :: l.
Proof.
  induction l as [|y l IH]; simpl; [done|].
  destruct (lt x y); [done|]. by rewrite IH, Permutation_swap.
Qed.

Lemma py_sorted_snoc l x :
  py_sorted lt (l ++ [x]) = insert_sorted lt x (py_sorted lt l).
Proof. unfold py_sorted. by rewrite foldl_snoc. Qed.

Lemma py_sorted_perm l : py_sorted lt l ≡ₚ l.
Proof.
  induction l as [|x l IH] using rev_ind; [done|].
  rewrite py_sorted_snoc, insert_sorted_perm, IH.
  by rewrite Permutation_cons_append.
Qed.

Lemma elem_of_py_sorted x l : x ∈ py_sorted lt l ↔ x ∈ l.
Proof. by rewrite py_sorted_perm. Qed.

Local Abbreviation le_of := (le_of lt).

Hypothesis lt_asym : ∀ x y, lt x y = true → lt y x = false.
Hypothesis le_trans : ∀ x y z, le_of x y → le_of y z → le_of x z.

Lemma insert_sorted_sorted x l :
  StronglySorted le_of l → StronglySorted le_of (insert_sorted lt x l).
Proof.
  induction 1 as [|y l Hl IH Hy]; simpl.
  { repeat constructor. }
  destruct (lt x y) eqn:Hxy.
  - constructor; [by constructor|].
    assert (le_of x y) by (by apply lt_asym).
    constructor; [done|].
    eapply Forall_impl; [done|]. intros z ?. by apply (le_trans x y z).
  - constructor; [done|].
    rewrite insert_sorted_perm. by constructor.
Qed.

Lemma py_sorted_sorted l : StronglySorted le_of (py_sorted lt l).
Proof.
  induction l as [|x l IH] using rev_ind; [constructor|].
  rewrite py_sorted_snoc. by apply insert_sorted_sorted.
Qed.
End sorting.

Section sorting_unique.
Context {A : Type} (lt : A → A → bool).
Hypothesis lt_irrefl : ∀ x, lt x x = false.
Hypothesis lt_trans : ∀ x y z, lt x y = true → lt y z = true → lt x z = true.
Hypothesis lt_connex : ∀ x y, lt x y = false → lt y x = false → x = y.

Lemma strict_asym x y : lt x y = true → lt y x = false.
Proof.
  intros Hxy. destruct (lt y x) eqn:Hyx; [|done].
  by rewrite <-(lt_irrefl x), (lt_trans x y x).
Qed.

Lemma strict_le_trans x y z : le_of lt x y → le_of lt y z → le_of lt x z.
Proof.
  unfold le_of. intros Hyx Hzy.
  destruct (lt z x) eqn:Hzx; [|done].
  destruct (lt x y) eqn:Hxy.
  - by rewrite <-Hzy, (lt_trans z x y).
  - by rewrite <-Hzy, <-(lt_connex x y).
Qed.

Lemma strict_sorted l : StronglySorted (le_of lt) (py_sorted lt l).
Proof. apply py_sorted_sorted; [apply strict_asym|apply strict_le_trans]. Qed.

(** For a strict total order, the result of [sorted] depends only on the
    elements, not on the order in which they are handed over. *)
Lemma strict_sorted_unique l1 l2 :
  l1 ≡ₚ l2 → py_sorted lt l1 = py_sorted lt l2.
Proof.
  intros Hl.
  apply (StronglySorted_unique_strong (le_of lt)).
  - intros x y _ _ ??. by apply lt_connex.
  - apply strict_sorted.
  - apply strict_sorted.
  - by rewrite !py_sorted_perm.
Qed.
End sorting_unique.

Section sorting_total.
Context `{PyOrd A}.

Lemma py_lt_asym (x y : A) : py_lt x y = true → py_lt y x = false.
Proof. apply strict_asym; [apply py_lt_irrefl|apply py_lt_trans]. Qed.

Lemma py_sorted_unique (l1 l2 : list A) :
  l1 ≡ₚ l2 → py_sorted py_lt l1 = py_sorted py_lt l2.
Proof.
  apply strict_sorted_unique;
    [apply py_lt_irrefl|apply py_lt_trans|apply py_lt_connex].
Qed.

Lemma py_sorted_idemp (l : list A) :
  py_sorted py_lt (py_sorted py_lt l) = py_sorted py_lt l.
Proof. apply py_sorted_unique, py_sorted_perm. Qed.
End sorting_total.

(** ** The exemption partitioner *)

Section partition_scan.
Context {HO : HashOrder} `{Countable A} {PO : PyOrd A}.
Implicit Types (e : gset A * option A) (d : A) (ndm : gset A).

Lemma foldl_spawn_step d ndm res rs ps l :
  foldl (spawn_step d ndm res) (rs, ps) l =
  (rs ++ ((λ nd, (res ∖ ndm ∖ {[d]}) ∪ {[nd]}) <$>
           filter (λ nd, py_lt d nd && bool_decide (nd ∈ res)) l),
   ps ++ (Some <$> filter (λ nd, py_lt d nd && bool_decide (nd ∈ res)) l)).
Proof.
  revert rs ps. induction l as [|nd l IH]; intros rs ps; simpl.
  { by rewrite !app_nil_r. }
  unfold spawn_step at 2. simpl. rewrite filter_cons.
  destruct (py_lt d nd && bool_decide (nd ∈ res)) eqn:Hc; simpl.
  - rewrite IH. simpl. by rewrite <-!app_assoc.
  - apply IH.
Qed.

Lemma spawn_entries_fresh d ndm e e' :
  e' ∈ spawn_entries d ndm e → (d ∉ fst e') ∧ fst e' ⊆ fst e.
Proof.
  unfold spawn_entries. case_match; [|by intros ?%elem_of_nil].
  intros (nd & -> & Hnd)%list_elem_of_fmap.
  apply list_elem_of_filter in Hnd as [Hlt Hnd].
  apply andb_prop_elim in Hlt as [Hlt Hin]. apply bool_decide_unpack in Hin. simpl.
  assert (nd ≠ d).
  { intros ->. rewrite py_lt_irrefl in Hlt. done. }
  set_solver.
Qed.

Lemma scan_results_done fuel d ndm i (rs : list (gset A)) (ps : list (option A)) :
  rs !! i = None → scan_results fuel d ndm i rs ps = Some (rs, ps).
Proof. intros Hi. destruct fuel; simpl; by rewrite Hi. Qed.

Lemma scan_results_step fuel d ndm i (rs : list (gset A)) (ps : list (option A)) res :
  rs !! i = Some res →
  scan_results (S fuel) d ndm i rs ps =
  if bool_decide (d ∈ res) then
    if bool_decide (ps !! i = Some (Some d)) then
      scan_results fuel d ndm (S i) (<[i := (res ∖ ndm) ∪ {[d]}]> rs) ps
    else
      scan_results fuel d ndm (S i)
        (foldl (spawn_step d ndm res) (<[i := (res ∖ ndm) ∪ {[d]}]> rs, ps)
           (set_iter ndm)).1
        (foldl (spawn_step d ndm res) (<[i := (res ∖ ndm) ∪ {[d]}]> rs, ps)
           (set_iter ndm)).2
  else scan_results fuel d ndm (S i) rs ps.
Proof. intros Hi. simpl. by rewrite Hi. Qed.

Lemma lookup_middle_fst (done rest : list (gset A * option A)) e :
  (done ++ e :: rest).*1 !! length done = Some e.1.
Proof. by rewrite list_lookup_fmap, list_lookup_middle. Qed.

Lemma lookup_middle_snd (done rest : list (gset A * option A)) e :
  (done ++ e :: rest).*2 !! length done = Some e.2.
Proof. by rewrite list_lookup_fmap, list_lookup_middle. Qed.

Lemma insert_middle_fst (done rest : list (gset A * option A)) e s :
  <[length done := s]> ((done ++ e :: rest).*1) = ((done ++ [(s, e.2)]) ++ rest).*1.
Proof.
  rewrite <-(list_fmap_insert fst _ _ (s, e.2)).
  rewrite insert_app_r_alt, Nat.sub_diag by lia.
  by rewrite <-app_assoc.
Qed.

Lemma snd_middle (done rest : list (gset A * option A)) e s :
  (done ++ e :: rest).*2 = ((done ++ [(s, e.2)]) ++ rest).*2.
Proof. by rewrite <-app_assoc, !fmap_app. Qed.

(** The scan visits the entries [todo] that were there when it started, then
    the siblings; it stops because the iterator is exhausted. *)
Lemma scan_results_spec d ndm todo : ∀ done extra fuel,
  Forall (λ e, d ∉ e.1) extra →
  (length todo + length extra + length (todo ≫= spawn_entries d ndm) ≤ fuel)%nat →
  scan_results fuel d ndm (length done)
    ((done ++ todo ++ extra).*1) ((done ++ todo ++ extra).*2) =
  Some ((done ++ (upd_entry d ndm <$> todo) ++ extra
              ++ (todo ≫= spawn_entries d ndm)).*1,
        (done ++ (upd_entry d ndm <$> todo) ++ extra
              ++ (todo ≫= spawn_entries d ndm)).*2).
Proof.
  assert (Hlen : ∀ (done : list (gset A * option A)) x,
            S (length done) = length (done ++ [x]))
    by (intros; rewrite length_app; simpl; lia).
  induction todo as [|e todo IH]; intros done extra fuel Hex Hfuel.
  - change ([] ≫= spawn_entries d ndm) with (@nil (gset A * option A)).
    rewrite fmap_nil, app_nil_r, !app_nil_l. simpl in Hfuel.
    revert done fuel Hfuel. induction Hex as [|e extra He Hex IH]; intros done fuel Hfuel.
    + rewrite app_nil_r. apply scan_results_done.
      apply lookup_ge_None_2. by rewrite length_fmap.
    + simpl in Hfuel. destruct fuel as [|fuel]; [lia|].
      rewrite (scan_results_step _ _ _ _ _ _ _ (lookup_middle_fst _ _ _)).
      rewrite bool_decide_false by done.
      rewrite (Hlen done e), (cons_middle e done extra), !app_assoc.
      apply IH. lia.
  - rewrite bind_cons, length_app, length_cons in Hfuel.
    rewrite bind_cons, fmap_cons.
    destruct fuel as [|fuel]; [lia|].
    rewrite <-!app_comm_cons.
    rewrite (scan_results_step _ _ _ _ _ _ _ (lookup_middle_fst _ _ _)).
    rewrite lookup_middle_snd, insert_middle_fst.
    rewrite (snd_middle done _ e ((e.1 ∖ ndm) ∪ {[d]})).
    unfold spawn_entries at 1 3, upd_entry at 1 3.
    destruct (bool_decide (d ∈ e.1)) eqn:Hd; simpl andb; cbv iota.
    + destruct (bool_decide (e.2 = Some d)) eqn:Hp; simpl negb; cbv iota.
      * rewrite bool_decide_true by (apply bool_decide_eq_true in Hp; congruence).
        rewrite (Hlen done ((e.1 ∖ ndm) ∪ {[d]}, e.2)).
        rewrite IH; [|done|].
        -- by rewrite <-!app_assoc.
        -- lia.
      * rewrite bool_decide_false by (apply bool_decide_eq_false in Hp; congruence).
        rewrite foldl_spawn_step. cbn [fst snd].
        set (new := filter (λ nd, py_lt d nd && bool_decide (nd ∈ e.1)) (set_iter ndm)).
        set (sib := (λ nd, ((e.1 ∖ ndm ∖ {[d]}) ∪ {[nd]}, Some nd)) <$> new).
        assert (Hsib : sib = spawn_entries d ndm e).
        { unfold spawn_entries. by rewrite Hd, Hp. }
        replace ((λ nd, (e.1 ∖ ndm ∖ {[d]}) ∪ {[nd]}) <$> new) with (sib.*1)
          by (unfold sib; by rewrite <-list_fmap_compose).
        replace (Some <$> new) with (sib.*2)
          by (unfold sib; by rewrite <-list_fmap_compose).
        rewrite <-!fmap_app, <-!app_assoc.
        rewrite (app_assoc done [_]), (app_assoc extra sib).
        rewrite (Hlen done ((e.1 ∖ ndm) ∪ {[d]}, e.2)).
        rewrite IH.
        -- by rewrite <-!app_assoc.
        -- apply Forall_app; split; [done|].
           apply Forall_forall. intros e' He'. rewrite Hsib in He'.
           by apply spawn_entries_fresh in He' as [? _].
        -- rewrite length_app, Hsib. lia.
    + rewrite <-snd_middle.
      replace (done ++ e :: todo ++ extra) with ((done ++ [e]) ++ todo ++ extra)
        by (by rewrite <-app_assoc).
      rewrite (Hlen done e), IH by (done || lia).
      by rewrite <-!app_assoc.
Qed.


Lemma length_spawn_entries d ndm (entries : list (gset A * option A)) :
  (length (entries ≫= spawn_entries d ndm) ≤ length entries * length (set_iter ndm))%nat.
Proof.
  induction entries as [|e entries IH]; [done|].
  rewrite bind_cons, length_app. simpl.
  assert (length (spawn_entries d ndm e) ≤ length (set_iter ndm))%nat; [|lia].
  unfold spawn_entries. case_match; simpl; [|lia].
  rewrite length_fmap. apply length_filter.
Qed.

(** The fuel handed to the scan is enough: one step of the outer loop is
    [step_entries]. *)
Lemma partition_step_spec (E : ExemptionsMap A) (entries : list (gset A * option A)) d :
  partition_step E (entries.*1, entries.*2) d =
  ((step_entries E entries d).*1, (step_entries E entries d).*2).
Proof.
  unfold partition_step, step_entries. case_match; [|done]. cbn [fst snd].
  pose proof (scan_results_spec d (merge_sets E d) entries [] [] 
                (scan_fuel (merge_sets E d) (entries.*1))) as Hs.
  rewrite !app_nil_l, !app_nil_r in Hs. simpl length in Hs.
  rewrite Hs; [done|constructor|].
  unfold scan_fuel. rewrite length_fmap.
  pose proof (length_spawn_entries d (merge_sets E d) entries). lia.
Qed.

(** The scan of the partitioner always ends by exhausting the list. *)
Lemma scan_fuel_enough d ndm (entries : list (gset A * option A)) :
  is_Some (scan_results (scan_fuel ndm (entries.*1)) d ndm 0 (entries.*1) (entries.*2)).
Proof.
  pose proof (scan_results_spec d ndm entries [] []
                (scan_fuel ndm (entries.*1))) as Hs.
  rewrite !app_nil_l, !app_nil_r in Hs. simpl length in Hs.
  rewrite Hs; [done|constructor|].
  unfold scan_fuel. rewrite length_fmap.
  pose proof (length_spawn_entries d ndm entries). lia.
Qed.

Lemma foldl_partition_step_spec (E : ExemptionsMap A) l :
  ∀ entries : list (gset A * option A),
  foldl (partition_step E) (entries.*1, entries.*2) l =
  ((foldl (step_entries E) entries l).*1, (foldl (step_entries E) entries l).*2).
Proof.
  induction l as [|d l IH]; intros entries; [done|].
  simpl. by rewrite partition_step_spec, IH.
Qed.

Lemma partition_using_exemptions_spec (data_items : list A) (E : ExemptionsMap A) :
  _partition_using_exemptions data_items E =
  py_sorted list_lt
    ((λ r, py_sorted py_lt (set_iter r))
       <$> filter (λ r : gset A, (1 < size r)%nat) ((final_entries data_items E).*1)).
Proof.
  unfold _partition_using_exemptions, final_entries.
  pose proof (foldl_partition_step_spec E (py_sorted py_lt data_items)
                [(list_to_set (py_sorted py_lt data_items), None)]) as Hf.
  simpl in Hf. by rewrite Hf.
Qed.
End partition_scan.

Section partition_invariants.
Context {HO : HashOrder} `{Countable A} {PO : PyOrd A}.
Implicit Types (e : gset A * option A) (d : A) (E : ExemptionsMap A).

(** An entry of the next state is an entry of the current state, updated, or
    a sibling spawned from one. *)
Lemma elem_of_step_entries E entries d e' :
  e' ∈ step_entries E entries d →
  ∃ e, e ∈ entries ∧ fst e' ⊆ fst e ∧
       ∀ y, d ∈ fst e' → y ∈ merge_sets E d → y ∈ fst e' → y = d.
Proof.
  unfold step_entries. destruct (exemptions_contains E d) eqn:Hc.
  - rewrite elem_of_app, list_elem_of_fmap, list_elem_of_bind.
    intros [(e & -> & He)|(e & He' & He)]; exists e; split; try done.
    + unfold upd_entry. case_bool_decide; simpl; set_solver.
    + apply spawn_entries_fresh in He' as [? ?]. set_solver.
  - intros He'. exists e'. split_and!; [done..|].
    intros y _. unfold merge_sets, exemptions_contains in *.
    apply bool_decide_eq_false in Hc. rewrite <-eq_None_not_Some in Hc.
    rewrite Hc. simpl. set_solver.
Qed.

Lemma bounded_safe_step E U P entries d :
  bounded_safe E U P entries →
  bounded_safe E U (P ++ [d]) (step_entries E entries d).
Proof.
  intros Hinv e' (e & He & Hsub & Hd)%elem_of_step_entries.
  destruct (Hinv e He) as [HU HP]. split; [set_solver|].
  intros x y [Hx| ->%list_elem_of_singleton]%elem_of_app ? ? ?; [|by apply Hd].
  apply (HP x y); set_solver.
Qed.

Lemma bounded_safe_foldl E U l : ∀ P entries,
  bounded_safe E U P entries →
  bounded_safe E U (P ++ l) (foldl (step_entries E) entries l).
Proof.
  induction l as [|d l IH]; intros P entries Hinv; simpl.
  { by rewrite app_nil_r. }
  rewrite (cons_middle d P l), app_assoc. by apply IH, bounded_safe_step.
Qed.

Lemma final_entries_safe (data_items : list A) E :
  bounded_safe E (list_to_set data_items) data_items (final_entries data_items E).
Proof.
  pose proof (bounded_safe_foldl E (list_to_set data_items)
    (py_sorted py_lt data_items) []
    [(list_to_set (py_sorted py_lt data_items), None)]) as Hf.
  assert (Hset : list_to_set (py_sorted py_lt data_items) = list_to_set (C:=gset A) data_items).
  { apply set_eq. intros x. by rewrite !elem_of_list_to_set, elem_of_py_sorted. }
  intros e He. destruct (Hf) with (e := e) as [HU HP]; [|done|].
  - intros e0 ->%list_elem_of_singleton. simpl. split; [by rewrite Hset|].
    by intros x y ?%elem_of_nil.
  - split; [done|]. intros x y Hx. apply HP. simpl.
    by apply elem_of_py_sorted.
Qed.

(** A returned sub-list lists the elements of one of the final partitions. *)
Lemma elem_of_partition_using_exemptions (data_items : list A) E sub :
  sub ∈ _partition_using_exemptions data_items E →
  ∃ e, e ∈ final_entries data_items E ∧ (1 < size (fst e))%nat ∧
       sub = py_sorted py_lt (set_iter (fst e)).
Proof.
  rewrite partition_using_exemptions_spec, elem_of_py_sorted, list_elem_of_fmap.
  intros (r & -> & Hr). apply list_elem_of_filter in Hr as [Hsz Hr].
  apply list_elem_of_fmap in Hr as (e & -> & He). by exists e.
Qed.

Lemma elem_of_sorted_set_iter (r : gset A) x :
  x ∈ py_sorted py_lt (set_iter r) ↔ x ∈ r.
Proof. by rewrite elem_of_py_sorted, set_iter_perm, elem_of_elements. Qed.

Lemma partition_exemption_safe (data_items : list A) E sub x y :
  sub ∈ _partition_using_exemptions data_items E →
  x ∈ sub → y ∈ sub → x ≠ y → y ∉ merge_sets E x.
Proof.
  intros (e & He & _ & ->)%elem_of_partition_using_exemptions.
  rewrite !elem_of_sorted_set_iter. intros Hx Hy Hne Hex.
  destruct (final_entries_safe data_items E e He) as [HU HP].
  apply Hne. symmetry. apply (HP x y); try done.
  apply HU in Hx. by apply elem_of_list_to_set in Hx.
Qed.

Lemma partition_elements_from_input (data_items : list A) E sub x :
  sub ∈ _partition_using_exemptions data_items E → x ∈ sub → x ∈ data_items.
Proof.
  intros (e & He & _ & ->)%elem_of_partition_using_exemptions.
  rewrite elem_of_sorted_set_iter. intros Hx.
  destruct (final_entries_safe data_items E e He) as [HU _].
  apply HU in Hx. by apply elem_of_list_to_set in Hx.
Qed.
End partition_invariants.

(** The partitioner does not depend on the iteration order of sets, nor on
    the order in which the ids are handed over. *)
Section partition_order.
Context (HO1 HO2 : HashOrder) `{Countable A} {PO : PyOrd A}.
Implicit Types (e : gset A * option A) (d : A) (E : ExemptionsMap A).

Lemma set_iter_order (s : gset A) : @set_iter HO1 _ _ _ s ≡ₚ @set_iter HO2 _ _ _ s.
Proof. by rewrite !set_iter_perm. Qed.

Lemma spawn_entries_order d ndm e :
  @spawn_entries HO1 _ _ _ _ d ndm e ≡ₚ @spawn_entries HO2 _ _ _ _ d ndm e.
Proof.
  unfold spawn_entries. case_match; [|done].
  by rewrite (set_iter_order ndm).
Qed.

Lemma bind_spawn_entries_order d ndm (entries : list (gset A * option A)) :
  entries ≫= @spawn_entries HO1 _ _ _ _ d ndm ≡ₚ
  entries ≫= @spawn_entries HO2 _ _ _ _ d ndm.
Proof.
  induction entries as [|e entries IH]; [done|].
  by rewrite !bind_cons, IH, spawn_entries_order.
Qed.

Lemma step_entries_order E entries1 entries2 d :
  entries1 ≡ₚ entries2 →
  @step_entries HO1 _ _ _ _ E entries1 d ≡ₚ @step_entries HO2 _ _ _ _ E entries2 d.
Proof.
  intros Hp. unfold step_entries. case_match; [|done].
  rewrite bind_spawn_entries_order. by rewrite Hp.
Qed.

Lemma foldl_step_entries_order E l : ∀ entries1 entries2,
  entries1 ≡ₚ entries2 →
  foldl (@step_entries HO1 _ _ _ _ E) entries1 l ≡ₚ
  foldl (@step_entries HO2 _ _ _ _ E) entries2 l.
Proof.
  induction l as [|d l IH]; intros entries1 entries2 Hp; [done|].
  simpl. by apply IH, step_entries_order.
Qed.

Lemma partition_order_irrelevant (data1 data2 : list A) E :
  data1 ≡ₚ data2 →
  @_partition_using_exemptions HO1 _ _ _ _ data1 E =
  @_partition_using_exemptions HO2 _ _ _ _ data2 E.
Proof.
  intros Hd. rewrite !partition_using_exemptions_spec.
  apply (@py_sorted_unique (list A) list_PyOrd).
  assert (Hfe : @final_entries HO1 _ _ _ _ data1 E ≡ₚ @final_entries HO2 _ _ _ _ data2 E).
  { unfold final_entries. rewrite (py_sorted_unique data1 data2 Hd).
    by apply foldl_step_entries_order. }
  rewrite Hfe.
  erewrite list_fmap_ext; [done|]. intros _ r _.
  apply py_sorted_unique, set_iter_order.
Qed.
End partition_order.

(** ** The soundex encoder *)

Section soundex_correct.
Context {U : Unicode}.

Lemma collapse_runs_snoc m : ∀ prev d,
  collapse_runs prev (m ++ [d]) =
  if bool_decide (effective_last prev (collapse_runs prev m) = Some d)
  then collapse_runs prev m
  else collapse_runs prev m ++ [d].
Proof.
  induction m as [|x m IH]; intros prev d; simpl.
  { unfold effective_last. simpl. by case_bool_decide. }
  case_bool_decide as Hx; [apply IH|].
  rewrite IH. unfold effective_last.
  destruct (collapse_runs (Some x) m) as [|y r] eqn:Hr; simpl.
  - by case_bool_decide.
  - destruct (last (y :: r)) eqn:Hl; [by case_bool_decide|].
    by apply last_None in Hl.
Qed.

(** The loop computes the collapsed digits and the first letter. *)
Lemma foldl_soundex_step (l : str) :
  foldl soundex_step ([], []) l =
  (collapse_runs None (soundex_digit <$> filter (λ c, is_AZ c) l),
   take 1 (filter (λ c, is_AZ c) l)).
Proof.
  induction l as [|c l IH] using rev_ind; [done|].
  rewrite foldl_snoc, IH, filter_app, fmap_app. clear IH.
  unfold soundex_step at 1. cbn [fst snd]. fold (is_AZ c).
  assert (Hf : filter (λ c, is_AZ c) [c] = if is_AZ c then [c] else [])
    by (rewrite filter_cons, filter_nil; by destruct (is_AZ c)).
  rewrite Hf. clear Hf.
  destruct (is_AZ c) eqn:Hc; cbn [andb fmap list_fmap].
  2:{ by rewrite !app_nil_r. }
  set (letters := filter (λ c, is_AZ c) l).
  rewrite collapse_runs_snoc. unfold effective_last.
  assert (Hfc : (if bool_decide (take 1 letters = []) then [c] else take 1 letters)
                = take 1 (letters ++ [c])).
  { by destruct letters. }
  rewrite Hfc.
  destruct (collapse_runs None (soundex_digit <$> letters)) as [|y r] eqn:Hr.
  - cbn [last orb]. rewrite bool_decide_true by done. cbn [orb app].
    by rewrite bool_decide_false.
  - rewrite (bool_decide_false (_ :: _ = [])) by done. cbn [orb].
    destruct (last (y :: r)) as [z|] eqn:Hl.
    + by destruct (bool_decide (Some z = Some (soundex_digit c))).
    + by apply last_None in Hl.
Qed.

(** On the letters A-Z the lookup of the code in its string [digits] gives
    the digit of the table of the specification. *)
Lemma soundex_digit_table (c : N) :
  is_AZ c = true → soundex_digit c = procedure_digit c.
Proof.
  unfold is_AZ. rewrite andb_true_iff, !N.leb_le. intros [Hlo Hhi].
  unfold soundex_digit, procedure_digit.
  assert (Hn : (N.to_nat (c - ord "A") < 26)%nat).
  { change (ord "A") with 65%N in *. change (ord "Z") with 90%N in *. lia. }
  revert Hn. generalize (N.to_nat (c - ord "A")). intros n Hn.
  do 26 (destruct n as [|n]; [vm_compute; reflexivity|]). lia.
Qed.

Lemma soundex_digit_letters (l : str) :
  soundex_digit <$> filter (λ c, is_AZ c) l
  = procedure_digit <$> filter (λ c, is_AZ c) l.
Proof.
  induction l as [|c l IH]; [done|].
  destruct (is_AZ c) eqn:Hc.
  - rewrite filter_cons_True by (by apply Is_true_true).
    by rewrite !fmap_cons, IH, soundex_digit_table.
  - rewrite filter_cons_False by (by apply Is_true_false). exact IH.
Qed.

Lemma soundex_eq_procedure (name : str) (length : Z) :
  0 ≤ length → soundex name length = soundex_procedure name length.
Proof.
  intros Hl. unfold soundex, soundex_procedure.
  rewrite foldl_soundex_step, soundex_digit_letters. cbn [fst snd].
  unfold slice_to, str_repeat. by rewrite (proj2 (Z.leb_le 0 length) Hl).
Qed.

Lemma soundex_procedure_length (name : str) (length : Z) :
  0 ≤ length → Z.of_nat (List.length (soundex_procedure name length)) = length.
Proof.
  intros Hl. unfold soundex_procedure.
  rewrite length_take, length_app, length_replicate. lia.
Qed.
End soundex_correct.

(** ** The unicode folder *)

Section fold.
Context {U : Unicode}.

Lemma reorder_insert_perm c l : reorder_insert c l ≡ₚ c :: l.
Proof.
  induction l as [|y l IH]; simpl; [done|].
  case_match; [|done]. by rewrite IH, Permutation_swap.
Qed.

Lemma canonical_reorder_perm s : canonical_reorder s ≡ₚ s.
Proof.
  induction s as [|c s IH]; simpl; [done|].
  by rewrite reorder_insert_perm, IH.
Qed.

(** Characters of class 0 are left where they are. *)
Lemma canonical_reorder_starters s :
  Forall (λ c, combining c = 0%N) s → canonical_reorder s = s.
Proof.
  induction 1 as [|c s Hc Hs IH]; simpl; [done|].
  rewrite IH. destruct s as [|y s']; simpl; [done|].
  rewrite Hc. by rewrite (proj2 (N.ltb_ge _ _) (N.le_0_l _)), andb_false_r.
Qed.

Lemma bind_decomposition_fixed s :
  Forall (λ d, decomposition d = [d]) s → s ≫= decomposition = s.
Proof.
  induction 1 as [|c s Hc Hs IH]; [done|].
  by rewrite bind_cons, Hc, IH.
Qed.

Lemma filter_fixed {A} (P : A → Prop) `{∀ x, Decision (P x)} (l : list A) :
  Forall P l → filter P l = l.
Proof.
  induction 1 as [|x l Hx Hl IH]; [done|].
  by rewrite filter_cons, decide_True, IH.
Qed.

(** A folded string of characters of class 0 is in normal form. *)
Lemma normalize_NFD_folded (s : str) :
  (∀ c, c ∈ decode_unicode s → combining c = 0%N) →
  normalize_NFD (decode_unicode s) = decode_unicode s.
Proof.
  intros Hccc. unfold normalize_NFD. rewrite bind_decomposition_fixed.
  - apply canonical_reorder_starters, Forall_forall, Hccc.
  - apply Forall_forall. intros d Hd. unfold decode_unicode in Hd.
    case_bool_decide as Hs; [subst; by apply elem_of_nil in Hd|].
    apply list_elem_of_filter in Hd as [_ Hd].
    unfold normalize_NFD in Hd. rewrite canonical_reorder_perm in Hd.
    apply list_elem_of_bind in Hd as (c & Hd & _).
    by apply (decomposition_full c).
Qed.
End fold.

(** ** Conversion to groups *)

Section convert_spec.
Context {HO : HashOrder}.

Lemma foldl_convert_partition (l : list (list Z)) : ∀ groups n,
  foldl convert_partition (groups, n) l =
  (groups ++ number_groups n (filter (λ sub, 1 < length sub)%nat l),
   n + Z.of_nat (length (filter (λ sub, 1 < length sub)%nat l))).
Proof.
  induction l as [|sub l IH]; intros groups n; simpl.
  { rewrite app_nil_r. f_equal. lia. }
  unfold convert_partition at 2. cbn [fst snd]. rewrite filter_cons.
  case_bool_decide as Hlen.
  - rewrite decide_True by done. rewrite IH. simpl.
    rewrite <-app_assoc. f_equal. lia.
  - rewrite decide_False by done. apply IH.
Qed.

Lemma number_groups_app (l1 l2 : list (list Z)) : ∀ n,
  number_groups n (l1 ++ l2) =
  number_groups n l1 ++ number_groups (n + Z.of_nat (length l1)) l2.
Proof.
  induction l1 as [|x l1 IH]; intros n; simpl.
  - f_equal; lia.
  - f_equal. rewrite IH. f_equal. f_equal. lia.
Qed.

Lemma foldl_convert_candidates (f : gset Z → list (list Z)) (cl : list (gset Z)) :
  ∀ groups n,
  foldl (λ st book_ids, foldl convert_partition st (f book_ids)) (groups, n) cl =
  (groups ++ number_groups n (filter (λ sub, 1 < length sub)%nat (cl ≫= f)),
   n + Z.of_nat (length (filter (λ sub, 1 < length sub)%nat (cl ≫= f)))).
Proof.
  induction cl as [|c cl IH]; intros groups n.
  { simpl. rewrite app_nil_r. f_equal. lia. }
  rewrite bind_cons. cbn [foldl].
  rewrite foldl_convert_partition, IH, filter_app, length_app.
  rewrite <-app_assoc, number_groups_app. f_equal. lia.
Qed.

Lemma convert_to_groups_spec `{Countable K} (candidates_map : list (K * gset Z))
    (E : ExemptionsMap Z) :
  _convert_to_groups candidates_map E =
  number_groups 0
    (filter (λ sub, 1 < length sub)%nat
       (_clean_dup_groups candidates_map ≫=
          λ book_ids, _partition_using_exemptions (set_iter book_ids) E)).
Proof.
  unfold _convert_to_groups.
  by rewrite (foldl_convert_candidates
    (λ book_ids, _partition_using_exemptions (set_iter book_ids) E)).
Qed.

Lemma elem_of_number_groups grp subs : ∀ n,
  grp ∈ number_groups n subs → ∃ sub, sub ∈ subs ∧ book_ids grp = py_sorted py_lt sub.
Proof.
  induction subs as [|sub subs IH]; intros n; simpl.
  { by intros ?%elem_of_nil. }
  intros [->|Hg]%elem_of_cons.
  - exists sub. split; [left|done].
  - destruct (IH _ Hg) as (sub' & ? & ?). exists sub'. split; [by right|done].
Qed.

End convert_spec.

(** ** The orchestrator, for book searches *)

Section find_duplicates_spec.
Context {U : Unicode} {TT : TitleTokens} {HO : HashOrder}.

Lemma finish_groups_spec `{Countable K} {PK : PyOrd K} (self : DuplicateFinder)
    (candidates_map : gmap K (gset Z)) (sort_by_title : bool) :
  finish_groups self candidates_map sort_by_title =
  groups_of_candidates (book_exemptions self)
    (pruned_candidates candidates_map sort_by_title).
Proof. unfold finish_groups. by rewrite convert_to_groups_spec. Qed.

(** A book search returns the groups of its candidate sets. *)
Lemma find_duplicates_spec g self search_type title_match author_match
    identifier_type include_languages sort_by_title book_ids groups :
  search_type ≠ py "author_only" →
  find_duplicates g self search_type title_match author_match identifier_type
    include_languages sort_by_title book_ids = Some groups →
  ∃ candidates,
    candidate_groups g self search_type title_match author_match identifier_type
      include_languages sort_by_title book_ids = Some candidates ∧
    groups = groups_of_candidates (book_exemptions self) candidates.
Proof.
  intros Hst. unfold find_duplicates, candidate_groups.
  repeat case_bool_decide; try done.
  - intros [= <-]. eexists. split; [done|]. apply finish_groups_spec.
  - intros [= <-]. eexists. split; [done|]. apply finish_groups_spec.
  - destruct (_find_title_author_candidates _ _ _ _ _ _) as [cm|]; [|done].
    simpl. intros [= <-]. eexists. split; [done|]. apply finish_groups_spec.
Qed.

Lemma elem_of_groups_of_candidates (E : ExemptionsMap Z) candidates grp :
  grp ∈ groups_of_candidates E candidates →
  ∃ c, c ∈ candidates ∧ book_ids grp ∈ _partition_using_exemptions (set_iter c) E.
Proof.
  intros (sub & Hsub & Hb)%elem_of_number_groups.
  apply list_elem_of_filter in Hsub as [_ Hsub].
  apply list_elem_of_bind in Hsub as (c & Hsub & Hc).
  exists c. split; [done|]. rewrite Hb.
  destruct (elem_of_partition_using_exemptions _ _ _ Hsub) as (e & _ & _ & ->).
  by rewrite py_sorted_idemp.
Qed.
End find_duplicates_spec.

(** ** Exemption maps *)

Section exemption_maps.
Context `{Countable A}.

Lemma merge_sets_empty (x : A) : merge_sets (∅ : ExemptionsMap A) x = ∅.
Proof. unfold merge_sets. by rewrite lookup_empty. Qed.

Lemma symmetric_exemptions_empty : symmetric_exemptions (∅ : ExemptionsMap A).
Proof. intros x y. rewrite merge_sets_empty. set_solver. Qed.

Lemma merge_sets_add_exemption (a b : A) (E : ExemptionsMap A) x :
  merge_sets (add_exemption a b E) x =
  merge_sets E x ∪ (if decide (x = a) then {[b]} else ∅)
                 ∪ (if decide (x = b) then {[a]} else ∅).
Proof.
  unfold add_exemption, merge_sets, exemptions_contains.
  repeat (case_bool_decide || case_decide || simplify_map_eq ||
          match goal with
          | H : ¬ is_Some _ |- _ => rewrite <-eq_None_not_Some in H
          | H : is_Some _ |- _ => destruct H
          | |- context [<[?i := _]> _ !! ?j] =>
              destruct (decide (i = j)); simplify_map_eq
          end); set_solver.
Qed.

(** [add_exemption] keeps the relation symmetric. *)
Lemma add_exemption_symmetric (a b : A) (E : ExemptionsMap A) :
  symmetric_exemptions E → symmetric_exemptions (add_exemption a b E).
Proof.
  intros HE x y. rewrite !merge_sets_add_exemption.
  specialize (HE x y). repeat case_decide; set_solver.
Qed.
End exemption_maps.

(** ** Statements on the partitioner *)

(** C6 (scenario S6): on the ids [1, 2, 3] with the exemption [1 ↔ 3], the
    partitioner returns exactly [[1, 2]] then [[2, 3]], whatever the
    iteration order of sets; id 2 is in both. *)
Theorem partition_scenario_S6 (HO : HashOrder) :
  @_partition_using_exemptions HO Z _ _ _ [1; 2; 3] (add_exemption 1 3 ∅)
    = [[1; 2]; [2; 3]]
  ∧ add_exemption 1 3 (∅ : ExemptionsMap Z) = {[1 := {[3]}; 3 := {[1]}]}
  ∧ symmetric_exemptions (add_exemption 1 3 (∅ : ExemptionsMap Z))
  ∧ Forall (λ sub, 2 ∈ sub)
      (@_partition_using_exemptions HO Z _ _ _ [1; 2; 3] (add_exemption 1 3 ∅)).
Proof.
  assert (Hp : @_partition_using_exemptions HO Z _ _ _ [1; 2; 3] (add_exemption 1 3 ∅)
               = [[1; 2]; [2; 3]]).
  { rewrite (partition_order_irrelevant HO canonical_order [1; 2; 3] [1; 2; 3]) by done.
    by vm_compute. }
  split_and!.
  - done.
  - by vm_compute.
  - apply add_exemption_symmetric, symmetric_exemptions_empty.
  - rewrite Hp. repeat constructor.
Qed.

(** C10: every element of every sub-list returned by the partitioner is an
    element of the input list; an id that occurs only in exemption sets is
    never returned. *)
Theorem partition_output_from_input {HO : HashOrder} `{Countable A} {PO : PyOrd A}
    (data_items : list A) (exemptions : ExemptionsMap A) (sub : list A) (x : A) :
  sub ∈ _partition_using_exemptions data_items exemptions →
  x ∈ sub →
  x ∈ data_items.
Proof.
  intros (e & He & _ & ->)%elem_of_partition_using_exemptions.
  rewrite elem_of_sorted_set_iter. intros Hx.
  destruct (final_entries_safe data_items exemptions e He) as [Hsub _].
  apply Hsub in Hx. by apply elem_of_list_to_set in Hx.
Qed.

Lemma partition_output_from_input_witness :
  [2; 3] ∈ @_partition_using_exemptions canonical_order Z _ _ _ [1; 2; 3]
             (add_exemption 1 3 ∅)
  ∧ 2 ∈ [2; 3]
  ∧ 2 ∈ [1; 2; 3].
Proof.
  assert (H1 : [2; 3] ∈ @_partition_using_exemptions canonical_order Z _ _ _ [1; 2; 3]
                          (add_exemption 1 3 ∅))
    by by_evaluation.
  assert (H2 : 2 ∈ [2; 3]) by by_evaluation.
  split_and!; [done..|].
  exact (partition_output_from_input (HO:=canonical_order) [1; 2; 3]
           (add_exemption 1 3 ∅) [2; 3] 2 H1 H2).
Defined.

(** ** Statement on the soundex encoder *)

(** C7: for a requested length that is not negative, [soundex] returns what
    the procedure of the specification returns: upper-case, map the letters
    A-Z through the table of the specification, collapse runs of one digit,
    put the first letter in the place of the first digit, delete the zeros,
    pad with zeros and cut; and the result has exactly the requested
    length. *)
Theorem soundex_follows_procedure {U : Unicode} (name : str) (length : Z) :
  0 ≤ length →
  soundex name length = soundex_procedure name length
  ∧ Z.of_nat (List.length (soundex name length)) = length.
Proof.
  intros Hl. rewrite soundex_eq_procedure by done.
  split; [done|by apply soundex_procedure_length].
Qed.

Lemma soundex_follows_procedure_witness :
  0 ≤ 4
  ∧ procedure_digit <$> py "ABCDEFGHIJKLMNOPQRSTUVWXYZ" = py "01230120022455012623010202"
  ∧ @soundex_procedure ucd_fragment (py "Robert") 4 = py "R163"
  ∧ @soundex ucd_fragment (py "Robert") 4 = py "R163"
  ∧ Z.of_nat (List.length (@soundex ucd_fragment (py "Robert") 4)) = 4.
Proof.
  assert (H : 0 ≤ 4) by lia.
  assert (Htable : procedure_digit <$> py "ABCDEFGHIJKLMNOPQRSTUVWXYZ"
                   = py "01230120022455012623010202") by (vm_compute; reflexivity).
  assert (Hproc : @soundex_procedure ucd_fragment (py "Robert") 4 = py "R163")
    by (vm_compute; reflexivity).
  split; [exact H|]. split; [exact Htable|]. split; [exact Hproc|].
  split.
  - exact (eq_trans
             (proj1 (soundex_follows_procedure (U:=ucd_fragment) (py "Robert") 4 H))
             Hproc).
  - exact (proj2 (soundex_follows_procedure (U:=ucd_fragment) (py "Robert") 4 H)).
Defined.

(** ** Statements on the soundex keys of series, publishers and tags *)

(** C8, as stated, fails: a series of one token is encoded with the default
    length 4 of [soundex], not with the length 6 configured for series. *)
Lemma soundex_series_single_token_counterexample :
  @get_series_tokens ucd_fragment (py "Angel") true = [py "angel"]
  ∧ @soundex_series_match ucd_fragment initial_lengths (py "Angel") = py "A524"
  ∧ @soundex ucd_fragment (str_join [] (@get_series_tokens ucd_fragment (py "Angel") true))
      (series_soundex_length initial_lengths) = py "A52400"
  ∧ @soundex_series_match ucd_fragment initial_lengths (py "Angel")
    ≠ @soundex ucd_fragment
        (str_join [] (@get_series_tokens ucd_fragment (py "Angel") true))
        (series_soundex_length initial_lengths).
Proof. split_and!; by_evaluation. Qed.

(** With two tokens or more, the key of a tag is encoded with the length
    configured for publishers. *)
Lemma soundex_tags_uses_publisher_length :
  @get_tag_tokens ucd_fragment (py "science fiction") true = [py "science"; py "fiction"]
  ∧ tags_soundex_length initial_lengths = 4
  ∧ @soundex_tags_match ucd_fragment initial_lengths (py "science fiction") = py "S52123"
  ∧ @soundex ucd_fragment (py "sciencefiction") (tags_soundex_length initial_lengths)
    = py "S521"
  ∧ @soundex_tags_match ucd_fragment
      (set_publisher_soundex_length 3 (set_tags_soundex_length 5 initial_lengths))
      (py "science fiction") = py "S52".
Proof. split_and!; by_evaluation. Qed.

(** C8, amended: the soundex key of a series or of a publisher is [soundex]
    of the concatenated tokens, with the length configured for the field
    when there are two tokens or more and with the default length 4 when
    there is at most one; the key of a tag of at most one token is encoded
    with length 4 too. *)
Theorem soundex_variation_lengths {U : Unicode} (g : SoundexLengths)
    (series publisher tag : str) :
  soundex_series_match g series =
    soundex (str_join [] (get_series_tokens series true))
      (if bool_decide (length (get_series_tokens series true) ≤ 1)%nat
       then 4 else series_soundex_length g)
  ∧ soundex_publisher_match g publisher =
      soundex (str_join [] (get_publisher_tokens publisher true))
        (if bool_decide (length (get_publisher_tokens publisher true) ≤ 1)%nat
         then 4 else publisher_soundex_length g)
  ∧ ((length (get_tag_tokens tag true) ≤ 1)%nat →
     soundex_tags_match g tag = soundex (str_join [] (get_tag_tokens tag true)) 4).
Proof.
  unfold soundex_series_match, soundex_publisher_match, soundex_tags_match.
  split_and!.
  - by case_bool_decide.
  - by case_bool_decide.
  - intros Hlen. by rewrite bool_decide_true.
Qed.

Lemma soundex_variation_lengths_witness :
  (length (@get_tag_tokens ucd_fragment (py "fiction") true) ≤ 1)%nat
  ∧ @soundex_tags_match ucd_fragment initial_lengths (py "fiction") =
      @soundex ucd_fragment (str_join [] (@get_tag_tokens ucd_fragment (py "fiction") true)) 4.
Proof.
  assert (H : (length (@get_tag_tokens ucd_fragment (py "fiction") true) ≤ 1)%nat)
    by by_evaluation.
  split; [exact H|].
  exact (proj2 (proj2 (soundex_variation_lengths (U:=ucd_fragment) initial_lengths
                         [] [] (py "fiction"))) H).
Defined.

(** ** Statements on the unicode folder *)

(** C9, as stated, fails: U+1D16D and U+1D165 are spacing marks of classes
    226 and 216, kept apart by the joiner U+034F, which is of category Mn.
    The fold removes the joiner; a second fold then puts the two marks in
    canonical order. *)
Lemma decode_unicode_not_idempotent_counterexample :
  @decode_unicode ucd_fragment [0x1D16D; 0x34F; 0x1D165]%N = [0x1D16D; 0x1D165]%N
  ∧ @decode_unicode ucd_fragment
      (@decode_unicode ucd_fragment [0x1D16D; 0x34F; 0x1D165]%N) = [0x1D165; 0x1D16D]%N
  ∧ @decode_unicode ucd_fragment
      (@decode_unicode ucd_fragment [0x1D16D; 0x34F; 0x1D165]%N)
    ≠ @decode_unicode ucd_fragment [0x1D16D; 0x34F; 0x1D165]%N.
Proof. split_and!; by_evaluation. Qed.

(** C9, amended: the fold of the empty string is the empty string, and a
    second fold changes nothing when every character that the first fold
    keeps has canonical combining class 0. *)
Theorem decode_unicode_idempotent {U : Unicode} (s : str) :
  decode_unicode [] = []
  ∧ ((∀ c, c ∈ decode_unicode s → combining c = 0%N) →
     decode_unicode (decode_unicode s) = decode_unicode s).
Proof.
  split; [done|]. intros Hccc.
  unfold decode_unicode at 1. case_bool_decide as Ht; [done|].
  rewrite normalize_NFD_folded by done.
  apply filter_fixed, Forall_forall. intros c Hc.
  unfold decode_unicode in Hc. case_bool_decide; [by subst|].
  by apply list_elem_of_filter in Hc as [? _].
Qed.

Lemma decode_unicode_idempotent_witness :
  (∀ c, c ∈ @decode_unicode ucd_fragment (py "Mi" ++ [0xE9%N] ++ py "ville") →
        @combining ucd_fragment c = 0%N)
  ∧ @decode_unicode ucd_fragment (py "Mi" ++ [0xE9%N] ++ py "ville") = py "Mieville"
  ∧ @decode_unicode ucd_fragment
      (@decode_unicode ucd_fragment (py "Mi" ++ [0xE9%N] ++ py "ville"))
    = @decode_unicode ucd_fragment (py "Mi" ++ [0xE9%N] ++ py "ville").
Proof.
  assert (H : ∀ c, c ∈ @decode_unicode ucd_fragment (py "Mi" ++ [0xE9%N] ++ py "ville") →
                   @combining ucd_fragment c = 0%N).
  { apply Forall_forall. by_evaluation. }
  split_and!; [exact H|by vm_compute|].
  exact (proj2 (decode_unicode_idempotent (U:=ucd_fragment)
                  (py "Mi" ++ [0xE9%N] ++ py "ville")) H).
Defined.

(** ** Statements on the groups of a search *)

(** C1, as stated, fails for an author search: it partitions author names
    with the author exemptions and never reads the book exemptions, so two
    books marked as not being duplicates come back in one group. *)
Lemma exemption_safety_author_search_counterexample :
  symmetric_exemptions (add_exemption 1 2 (∅ : ExemptionsMap Z))
  ∧ 2 ∈ merge_sets (add_exemption 1 2 (∅ : ExemptionsMap Z)) 1
  ∧ ∃ grp,
      run_example library_one_author (add_exemption 1 2 ∅)
        "author_only" "identical" "identical" true = Some [grp]
      ∧ book_ids grp = [1; 2].
Proof.
  split_and!.
  - apply add_exemption_symmetric, symmetric_exemptions_empty.
  - by_evaluation.
  - eexists. split; vm_compute; reflexivity.
Qed.

(** An id that is exempted from itself stays in its partition, so the
    statement below is about two different ids. *)
Lemma partition_keeps_self_exempted :
  @_partition_using_exemptions canonical_order Z _ _ _ [1; 2] (add_exemption 1 1 ∅)
  = [[1; 2]]
  ∧ 1 ∈ merge_sets (add_exemption 1 1 (∅ : ExemptionsMap Z)) 1.
Proof. split; by_evaluation. Qed.

(** C1, amended: a sub-list returned by the partitioner holds no two
    different ids of which one is exempted from the other; and so does every
    group returned by a search of type title_author, identifier or binary,
    for the book exemptions of the finder. No symmetry is needed. *)
Theorem exemption_safety :
  (∀ (HO : HashOrder) (data_items : list Z) (E : ExemptionsMap Z) sub x y,
     sub ∈ _partition_using_exemptions data_items E →
     x ∈ sub → y ∈ sub → x ≠ y → y ∉ merge_sets E x)
  ∧ (∀ (U : Unicode) (TT : TitleTokens) (HO : HashOrder) g self search_type
       title_match author_match identifier_type include_languages sort_by_title
       selection groups grp x y,
     search_type ≠ py "author_only" →
     find_duplicates g self search_type title_match author_match identifier_type
       include_languages sort_by_title selection = Some groups →
     grp ∈ groups →
     x ∈ book_ids grp → y ∈ book_ids grp → x ≠ y →
     y ∉ merge_sets (book_exemptions self) x).
Proof.
  split.
  - intros HO data_items E sub x y. apply partition_exemption_safe.
  - intros U TT HO g self st tm am it il sbt bids groups grp x y Hst Hfd Hgrp.
    apply find_duplicates_spec in Hfd as (cands & _ & ->); [|done].
    apply elem_of_groups_of_candidates in Hgrp as (c & _ & Hsub).
    by apply (partition_exemption_safe (set_iter c) _ (book_ids grp)).
Qed.

Lemma exemption_safety_witness :
  ([1; 2] ∈ @_partition_using_exemptions canonical_order Z _ _ _ [1; 2; 3]
              (add_exemption 1 3 ∅)
   ∧ 2 ∉ merge_sets (add_exemption 1 3 (∅ : ExemptionsMap Z)) 1)
  ∧ (run_example library_triple (add_exemption 1 3 ∅)
       "title_author" "identical" "identical" true
     = Some [ {| group_id := 1; book_ids := [1; 2]; match_key := [] |};
              {| group_id := 2; book_ids := [2; 3]; match_key := [] |} ]
     ∧ 2 ∉ merge_sets (book_exemptions (finder library_triple (add_exemption 1 3 ∅))) 1).
Proof.
  assert (H1 : [1; 2] ∈ @_partition_using_exemptions canonical_order Z _ _ _ [1; 2; 3]
                          (add_exemption 1 3 ∅)) by by_evaluation.
  assert (H2 : (1:Z) ∈ [1; 2]) by by_evaluation.
  assert (H3 : (2:Z) ∈ [1; 2]) by by_evaluation.
  assert (H4 : (1:Z) ≠ 2) by lia.
  assert (H5 : py "title_author" ≠ py "author_only") by by_evaluation.
  assert (H6 : run_example library_triple (add_exemption 1 3 ∅)
                 "title_author" "identical" "identical" true
               = Some [ {| group_id := 1; book_ids := [1; 2]; match_key := [] |};
                        {| group_id := 2; book_ids := [2; 3]; match_key := [] |} ])
    by by_evaluation.
  assert (H7 : {| group_id := 1; book_ids := [1; 2]; match_key := [] |}
               ∈ [ {| group_id := 1; book_ids := [1; 2]; match_key := [] |};
                   {| group_id := 2; book_ids := [2; 3]; match_key := [] |} ])
    by apply list_elem_of_here.
  split; (split; [assumption|]).
  - exact (proj1 exemption_safety canonical_order [1; 2; 3] (add_exemption 1 3 ∅)
             [1; 2] 1 2 H1 H2 H3 H4).
  - exact (proj2 exemption_safety ucd_fragment no_title_tokens canonical_order
             initial_lengths (finder library_triple (add_exemption 1 3 ∅))
             (py "title_author") (py "identical") (py "identical") (py "isbn")
             false true None _ _ 1 2 H5 H6 H7 H2 H3 H4).
Defined.

(** ** The subset pruner *)

Section prune.
Context `{Countable V}.

Lemma elem_of_prune_subsets (res : list (gset V)) a :
  a ∈ prune_subsets res → a ∈ res.
Proof.
  induction res as [|x res IH]; simpl; [done|].
  case_bool_decide; [|intros [->|?]%elem_of_cons]; set_solver.
Qed.

(** Among sets sorted by size, the pruner keeps no set that is contained in
    another set it keeps. *)
Lemma prune_subsets_antichain (res : list (gset V)) :
  StronglySorted (le_of (λ x y : gset V, (size x <? size y)%nat)) res →
  ∀ a b, a ∈ prune_subsets res → b ∈ prune_subsets res → ¬ (a ⊂ b).
Proof.
  induction 1 as [|x res Hres IH Hx]; simpl; [by intros a b ?%elem_of_nil|].
  intros a b. case_bool_decide as Hex; [apply IH|].
  intros [->|Ha]%elem_of_cons [->|Hb]%elem_of_cons Hab.
  - by destruct Hab as [_ []].
  - apply Hex, Exists_exists. exists b. split; [by apply elem_of_prune_subsets|].
    by destruct Hab.
  - apply elem_of_prune_subsets in Ha.
    rewrite Forall_forall in Hx. specialize (Hx a Ha).
    unfold le_of in Hx. apply Nat.ltb_ge in Hx.
    apply subset_size in Hab. lia.
  - by apply (IH a b).
Qed.

Lemma sorted_by_size (l : list (gset V)) :
  StronglySorted (le_of (λ x y : gset V, (size x <? size y)%nat))
    (py_sorted (λ x y : gset V, (size x <? size y)%nat) l).
Proof.
  apply py_sorted_sorted.
  - intros x y. rewrite Nat.ltb_lt, Nat.ltb_ge. lia.
  - unfold le_of. intros x y z. rewrite !Nat.ltb_ge. lia.
Qed.

Lemma clean_dup_groups_antichain `{Countable K} (od : list (K * gset V)) a b :
  a ∈ _clean_dup_groups od → b ∈ _clean_dup_groups od → ¬ (a ⊂ b).
Proof. apply prune_subsets_antichain, sorted_by_size. Qed.
End prune.

(** ** Searches on which no exemption applies *)

Section no_exemption.
Context {HO : HashOrder} `{Countable A} {PO : PyOrd A}.

Lemma foldl_step_entries_no_exemption (E : ExemptionsMap A) l entries :
  Forall (λ d, exemptions_contains E d = false) l →
  foldl (step_entries E) entries l = entries.
Proof.
  induction 1 as [|d l Hd Hl IH]; simpl; [done|].
  unfold step_entries at 2. by rewrite Hd.
Qed.

Lemma list_to_set_py_sorted (l : list A) :
  list_to_set (py_sorted py_lt l) = (list_to_set l : gset A).
Proof. apply set_eq. intros x. by rewrite !elem_of_list_to_set, elem_of_py_sorted. Qed.

Lemma list_to_set_set_iter (c : gset A) : list_to_set (set_iter c) = c.
Proof.
  apply set_eq. intros x.
  by rewrite elem_of_list_to_set, set_iter_perm, elem_of_elements.
Qed.

(** Without an applicable exemption the partitioner returns the ids as one
    sorted list, or nothing when there are fewer than two. *)
Lemma partition_no_exemption (data_items : list A) (E : ExemptionsMap A) :
  (∀ d, d ∈ data_items → exemptions_contains E d = false) →
  _partition_using_exemptions data_items E =
  if bool_decide (1 < size (list_to_set data_items : gset A))%nat
  then [py_sorted py_lt (set_iter (list_to_set data_items : gset A))]
  else [].
Proof.
  intros HE. rewrite partition_using_exemptions_spec. unfold final_entries.
  rewrite foldl_step_entries_no_exemption.
  2:{ apply Forall_forall. intros d Hd. apply HE. by apply elem_of_py_sorted in Hd. }
  rewrite list_to_set_py_sorted. cbn [fmap list_fmap fst].
  rewrite filter_cons, filter_nil.
  case_bool_decide.
  - by rewrite decide_True.
  - by rewrite decide_False.
Qed.

Lemma partition_empty_exemptions (c : gset A) :
  _partition_using_exemptions (set_iter c) (∅ : ExemptionsMap A) =
  if bool_decide (1 < size c)%nat then [py_sorted py_lt (set_iter c)] else [].
Proof.
  rewrite partition_no_exemption, list_to_set_set_iter; [done|].
  intros d _. unfold exemptions_contains. rewrite lookup_empty.
  apply bool_decide_eq_false. by intros [? ?].
Qed.
End no_exemption.

Section antichain.
Context {U : Unicode} {TT : TitleTokens} {HO : HashOrder}.

Lemma candidate_groups_antichain g self search_type title_match author_match
    identifier_type include_languages sort_by_title selection candidates a b :
  candidate_groups g self search_type title_match author_match identifier_type
    include_languages sort_by_title selection = Some candidates →
  a ∈ candidates → b ∈ candidates → ¬ (a ⊂ b).
Proof.
  unfold candidate_groups, pruned_candidates.
  repeat case_bool_decide; try done.
  - intros [= <-]. apply clean_dup_groups_antichain.
  - intros [= <-]. apply clean_dup_groups_antichain.
  - destruct (_find_title_author_candidates _ _ _ _ _ _) as [cm|]; [|done].
    simpl. intros [= <-]. apply clean_dup_groups_antichain.
Qed.

(** With no exemption every group lists one of the candidate sets. *)
Lemma groups_of_candidates_empty candidates grp :
  grp ∈ groups_of_candidates ∅ candidates →
  (list_to_set (book_ids grp) : gset Z) ∈ candidates.
Proof.
  intros (c & Hc & Hsub)%elem_of_groups_of_candidates.
  rewrite partition_empty_exemptions in Hsub.
  case_bool_decide; [|by apply elem_of_nil in Hsub].
  apply list_elem_of_singleton in Hsub. rewrite Hsub.
  by rewrite list_to_set_py_sorted, list_to_set_set_iter.
Qed.
End antichain.

(** C3, as stated, fails: books 1, 2, 3 and books 2, 3, 4 form two candidate
    sets, neither inside the other; the exemption [1 ↔ 3] splits the first
    into [[1, 2]] and [[2, 3]], and [[2, 3]] is inside [[2, 3, 4]]. The
    pruner runs before the partitioner and is not run again. *)
Lemma subset_pruning_exemption_counterexample :
  run_example library_overlap (add_exemption 1 3 ∅)
    "title_author" "identical" "identical" true
  = Some [ {| group_id := 1; book_ids := [1; 2]; match_key := [] |};
           {| group_id := 2; book_ids := [2; 3]; match_key := [] |};
           {| group_id := 3; book_ids := [2; 3; 4]; match_key := [] |} ]
  ∧ (list_to_set [2; 3] : gset Z) ⊂ list_to_set [2; 3; 4].
Proof.
  split; [vm_compute; reflexivity|].
  apply (bool_decide_unpack _). vm_compute. exact I.
Qed.

(** An author search is left out of the amended statements below: its groups
    are unions of the books of matching authors, which can be nested and can
    share books without any exemption. *)
Lemma author_search_nested_groups :
  ∃ key1 key2,
    run_example library_author_pairs ∅ "author_only" "identical" "identical" true
    = Some [ {| group_id := 1; book_ids := [1; 2]; match_key := key1 |};
             {| group_id := 2; book_ids := [1; 2; 3]; match_key := key2 |} ].
Proof. do 2 eexists. vm_compute. reflexivity. Qed.

(** C3, amended: with an empty exemption map, no group returned by a search
    of type title_author, identifier or binary has a set of book ids that is
    a proper subset of that of another returned group. *)
Theorem subset_pruning_soundness {U : Unicode} {TT : TitleTokens} {HO : HashOrder}
    g self search_type title_match author_match identifier_type include_languages
    sort_by_title selection groups grp1 grp2 :
  search_type ≠ py "author_only" →
  book_exemptions self = ∅ →
  find_duplicates g self search_type title_match author_match identifier_type
    include_languages sort_by_title selection = Some groups →
  grp1 ∈ groups → grp2 ∈ groups →
  ¬ ((list_to_set (book_ids grp1) : gset Z) ⊂ list_to_set (book_ids grp2)).
Proof.
  intros Hst HE Hfd H1 H2.
  apply find_duplicates_spec in Hfd as (cands & Hc & ->); [|done].
  rewrite HE in H1, H2.
  apply groups_of_candidates_empty in H1, H2.
  by apply (candidate_groups_antichain _ _ _ _ _ _ _ _ _ _ _ _ Hc).
Qed.

Lemma subset_pruning_soundness_witness :
  py "title_author" ≠ py "author_only"
  ∧ book_exemptions (finder library_two_authors ∅) = ∅
  ∧ run_example library_two_authors ∅ "title_author" "identical" "identical" true
    = Some [ {| group_id := 1; book_ids := [1; 2]; match_key := [] |};
             {| group_id := 2; book_ids := [1; 3]; match_key := [] |} ]
  ∧ ¬ ((list_to_set [1; 2] : gset Z) ⊂ list_to_set [1; 3]).
Proof.
  assert (H1 : py "title_author" ≠ py "author_only") by by_evaluation.
  assert (H2 : book_exemptions (finder library_two_authors ∅) = ∅) by reflexivity.
  assert (H3 : run_example library_two_authors ∅ "title_author" "identical" "identical" true
               = Some [ {| group_id := 1; book_ids := [1; 2]; match_key := [] |};
                        {| group_id := 2; book_ids := [1; 3]; match_key := [] |} ])
    by (vm_compute; reflexivity).
  split_and!; [exact H1|exact H2|exact H3|].
  exact (subset_pruning_soundness (U:=ucd_fragment) (TT:=no_title_tokens)
           (HO:=canonical_order) initial_lengths (finder library_two_authors ∅)
           (py "title_author") (py "identical") (py "identical") (py "isbn")
           false true None _
           {| group_id := 1; book_ids := [1; 2]; match_key := [] |}
           {| group_id := 2; book_ids := [1; 3]; match_key := [] |}
           H1 H2 H3 (list_elem_of_here _ _)
           (list_elem_of_further _ _ _ (list_elem_of_here _ _))).
Defined.

(** ** Candidate maps *)

Section candidate_maps.
Context {HO : HashOrder} `{Countable K} {PK : PyOrd K} `{Countable V}.

Lemma lookup_add_candidate (m : gmap K (gset V)) k v k' :
  default ∅ (add_candidate m k v !! k') =
  if decide (k = k') then default ∅ (m !! k) ∪ {[v]} else default ∅ (m !! k').
Proof.
  unfold add_candidate. case_decide as Hk.
  - subst. by rewrite lookup_insert_eq.
  - by rewrite lookup_insert_ne.
Qed.

Lemma lookup_shrink_candidates_map (m : gmap K (gset V)) k c :
  _shrink_candidates_map m !! k = Some c ↔ m !! k = Some c ∧ (2 ≤ size c)%nat.
Proof.
  unfold _shrink_candidates_map. rewrite map_lookup_filter_Some. simpl.
  split; intros [? ?]; (split; [done|lia]).
Qed.

(** The keys in the order of the sort. *)
Lemma sort_candidate_groups_keys (m : gmap K (gset V)) by_title :
  (_sort_candidate_groups m by_title).*1 ≡ₚ (map_to_list m).*1.
Proof.
  unfold _sort_candidate_groups. rewrite <-list_fmap_compose.
  erewrite (list_fmap_ext _ id); [|by intros].
  rewrite list_fmap_id.
  destruct by_title; by rewrite py_sorted_perm, dict_iter_perm.
Qed.

Lemma elem_of_sort_candidate_groups (m : gmap K (gset V)) by_title k c :
  (k, c) ∈ _sort_candidate_groups m by_title ↔ m !! k = Some c.
Proof.
  split.
  - intros Hkc.
    assert (Hk : k ∈ (_sort_candidate_groups m by_title).*1).
    { apply list_elem_of_fmap. by exists (k, c). }
    rewrite sort_candidate_groups_keys in Hk.
    apply list_elem_of_fmap in Hk as ([k' c'] & -> & Hm). simpl in *.
    apply elem_of_map_to_list in Hm.
    unfold _sort_candidate_groups in Hkc.
    apply list_elem_of_fmap in Hkc as (k'' & [= -> ->] & _).
    by rewrite Hm.
  - intros Hm.
    assert (Hk : k ∈ (_sort_candidate_groups m by_title).*1).
    { rewrite sort_candidate_groups_keys. apply list_elem_of_fmap.
      exists (k, c). split; [done|]. by apply elem_of_map_to_list. }
    apply list_elem_of_fmap in Hk as ([k' c'] & -> & Hkc). simpl in *.
    unfold _sort_candidate_groups in Hkc.
    pose proof Hkc as Hkc'.
    apply list_elem_of_fmap in Hkc' as (k'' & [= -> ->] & _).
    by rewrite Hm in Hkc.
Qed.

Lemma elem_of_clean_dup_groups (od : list (K * gset V)) c :
  c ∈ _clean_dup_groups od → c ∈ od.*2.
Proof.
  intros Hc%elem_of_prune_subsets. by rewrite py_sorted_perm in Hc.
Qed.
End candidate_maps.

Section pruned.
Context {HO : HashOrder} `{Countable K} {PK : PyOrd K}.

(** A candidate set that survives is the value of a key, and has two
    elements at least. *)
Lemma elem_of_pruned_candidates (cm : gmap K (gset Z)) sort_by_title c :
  c ∈ pruned_candidates cm sort_by_title →
  ∃ k, cm !! k = Some c ∧ (2 ≤ size c)%nat.
Proof.
  intros Hc%elem_of_clean_dup_groups.
  apply list_elem_of_fmap in Hc as ([k c'] & -> & Hkc). simpl.
  apply elem_of_sort_candidate_groups, lookup_shrink_candidates_map in Hkc.
  by exists k.
Qed.
End pruned.

(** ** Books in several groups *)

Section one_group.
Context {U : Unicode} {TT : TitleTokens} {HO : HashOrder}.

(** An identifier search files a book under one key: its identifier. *)
Lemma foldl_identifier_key (db : CalibreDB) (identifier_type : str) (ids : list Z) :
  ∀ acc : gmap str (gset Z),
  (∀ k b, b ∈ default ∅ (acc !! k) →
          k = default [] (db_get_identifiers db b !! identifier_type)) →
  ∀ k b,
    b ∈ default ∅
          (foldl (λ candidates_map book_id,
                    let identifiers := db_get_identifiers db book_id in
                    let identifier := default [] (identifiers !! identifier_type) in
                    if bool_decide (identifier ≠ [])
                    then add_candidate candidates_map identifier book_id
                    else candidates_map) acc ids !! k) →
    k = default [] (db_get_identifiers db b !! identifier_type).
Proof.
  induction ids as [|b0 ids IH]; intros acc Hacc k b; simpl; [apply Hacc|].
  apply IH. intros k' b'. case_bool_decide; [|apply Hacc].
  rewrite lookup_add_candidate. case_decide as Hk; [|apply Hacc].
  intros [Hb| ->%elem_of_singleton]%elem_of_union; [|done].
  rewrite <-Hk. by apply Hacc.
Qed.

Lemma identifier_candidates_key (db : CalibreDB) (ids : list Z) (identifier_type : str)
    k b :
  b ∈ default ∅ (_find_identifier_candidates db ids identifier_type !! k) →
  k = default [] (db_get_identifiers db b !! identifier_type).
Proof.
  apply foldl_identifier_key. intros k' b'. rewrite lookup_empty. set_solver.
Qed.

Lemma identifier_candidates_disjoint (db : CalibreDB) (ids : list Z)
    (identifier_type : str) sort_by_title :
  pairwise_disjoint
    (pruned_candidates (_find_identifier_candidates db ids identifier_type)
       sort_by_title).
Proof.
  intros c c' (k & Hk & _)%elem_of_pruned_candidates
    (k' & Hk' & _)%elem_of_pruned_candidates Hne.
  apply elem_of_disjoint. intros b Hb Hb'. apply Hne.
  assert (k = k') as ->; [|congruence].
  rewrite (identifier_candidates_key db ids identifier_type k b) by (by rewrite Hk).
  by rewrite (identifier_candidates_key db ids identifier_type k' b) by (by rewrite Hk').
Qed.

Lemma groups_share_candidate (E : ExemptionsMap Z) candidates :
  pairwise_disjoint candidates →
  one_group_or_split E candidates (groups_of_candidates E candidates).
Proof.
  intros Hdis i j gi gj id _ Hi Hj Hidi Hidj.
  apply list_elem_of_lookup_2, elem_of_groups_of_candidates in Hi as (c & Hc & Hsi).
  apply list_elem_of_lookup_2, elem_of_groups_of_candidates in Hj as (c' & Hc' & Hsj).
  assert (Hin : id ∈ c).
  { apply (partition_elements_from_input _ _ _ id) in Hsi; [|done].
    by rewrite set_iter_perm, elem_of_elements in Hsi. }
  assert (Hin' : id ∈ c').
  { apply (partition_elements_from_input _ _ _ id) in Hsj; [|done].
    by rewrite set_iter_perm, elem_of_elements in Hsj. }
  destruct (decide (c = c')) as [->|Hne].
  - by exists c'.
  - specialize (Hdis c c' Hc Hc' Hne). set_solver.
Qed.
End one_group.

(** C2, as stated, fails: with no exemption at all, book 1 is filed under
    the key of each of its two authors and comes back in two groups, made
    from two different candidate sets. *)
Lemma one_group_two_authors_counterexample :
  run_example library_two_authors ∅ "title_author" "identical" "identical" true
  = Some [ {| group_id := 1; book_ids := [1; 2]; match_key := [] |};
           {| group_id := 2; book_ids := [1; 3]; match_key := [] |} ]
  ∧ @candidate_groups ucd_fragment no_title_tokens canonical_order initial_lengths
      (finder library_two_authors ∅) (py "title_author") (py "identical")
      (py "identical") (py "isbn") false true None
    = Some [ {[1; 2]}; {[1; 3]} ]
  ∧ ¬ @one_group_or_split canonical_order ∅ [ {[1; 2]}; {[1; 3]} ]
        [ {| group_id := 1; book_ids := [1; 2]; match_key := [] |};
          {| group_id := 2; book_ids := [1; 3]; match_key := [] |} ].
Proof.
  split_and!; [vm_compute; reflexivity..|].
  intros Hone.
  destruct (Hone 0%nat 1%nat
              {| group_id := 1; book_ids := [1; 2]; match_key := [] |}
              {| group_id := 2; book_ids := [1; 3]; match_key := [] |} 1)
    as (c & Hc & H12 & H13); [done|done|done|by left|by left|].
  assert (Hn1 : [1; 3] ∉ @_partition_using_exemptions canonical_order Z _ _ _
                          (@set_iter canonical_order _ _ _ ({[1; 2]} : gset Z)) ∅)
    by by_evaluation.
  assert (Hn2 : [1; 2] ∉ @_partition_using_exemptions canonical_order Z _ _ _
                          (@set_iter canonical_order _ _ _ ({[1; 3]} : gset Z)) ∅)
    by by_evaluation.
  apply elem_of_cons in Hc as [->|Hc]; [by apply Hn1|].
  apply list_elem_of_singleton in Hc as ->. by apply Hn2.
Qed.

(** ** Basic Latin text *)

Lemma ucd_fragment_basic_latin : basic_latin ucd_fragment.
Proof.
  split_and!; try done.
  - intros c Hc. simpl. unfold fragment_decomposition.
    rewrite !(proj2 (N.eqb_neq _ _)) by lia. done.
  - intros c Hc. simpl. unfold fragment_combining.
    rewrite !(proj2 (N.eqb_neq _ _)) by lia. done.
  - intros c Hc. simpl. unfold fragment_category_Mn.
    rewrite !(proj2 (N.eqb_neq _ _)) by lia. done.
Qed.

Section basic_latin.
Context {U : Unicode} (HU : basic_latin U).

Lemma basic_isspace c : (c < 128)%N → @isspace U c = unicode_isspace c.
Proof. apply HU. Qed.

Lemma str_lstrip_basic s :
  basic_text s → @str_lstrip U s = @str_lstrip ucd_fragment s ∧ basic_text (@str_lstrip U s).
Proof.
  induction 1 as [|c s Hc Hs IH]; simpl; [by split; [|constructor]|].
  rewrite basic_isspace by done.
  destruct (unicode_isspace c); [done|]. split; [done|by constructor].
Qed.

Lemma basic_text_reverse s : basic_text s → basic_text (reverse s).
Proof. unfold basic_text. by rewrite Forall_reverse. Qed.

Lemma str_strip_basic s :
  basic_text s → @str_strip U s = @str_strip ucd_fragment s ∧ basic_text (@str_strip U s).
Proof.
  intros Hs. unfold str_strip.
  destruct (str_lstrip_basic s Hs) as [-> H1].
  destruct (str_lstrip_basic (reverse (@str_lstrip ucd_fragment s))
              (basic_text_reverse _ H1)) as [-> H2].
  split; [done|]. by apply basic_text_reverse.
Qed.

Lemma str_split_from_basic s : ∀ cur,
  basic_text s → basic_text cur →
  @str_split_from U cur s = @str_split_from ucd_fragment cur s
  ∧ Forall basic_text (@str_split_from U cur s).
Proof.
  induction s as [|c s IH]; intros cur Hs Hcur; simpl.
  { case_bool_decide; (split; [done|]); repeat constructor.
    by apply basic_text_reverse. }
  inversion Hs as [|? ? Hc Hs']; subst.
  rewrite basic_isspace by done.
  destruct (unicode_isspace c).
  - destruct (IH [] Hs' (Forall_nil_2 _)) as [-> Htok].
    case_bool_decide; (split; [done|]); [done|].
    constructor; [by apply basic_text_reverse|done].
  - apply IH; [done|by constructor].
Qed.

Lemma str_split_basic s :
  basic_text s →
  @str_split U s = @str_split ucd_fragment s ∧ Forall basic_text (@str_split U s).
Proof. intros Hs. apply str_split_from_basic; [done|constructor]. Qed.

Lemma sub_comma_no_space_cons2 {U' : Unicode} c c' s :
  @sub_comma_no_space U' (c :: c' :: s) =
  if (c =? ord ",")%N then
    if @isspace U' c' then c :: @sub_comma_no_space U' (c' :: s)
    else c :: ord " " :: c' :: @sub_comma_no_space U' s
  else c :: @sub_comma_no_space U' (c' :: s).
Proof. done. Qed.

Lemma sub_comma_no_space_basic_n n : ∀ s,
  (length s ≤ n)%nat → basic_text s →
  @sub_comma_no_space U s = @sub_comma_no_space ucd_fragment s
  ∧ basic_text (@sub_comma_no_space U s).
Proof.
  induction n as [n IH] using lt_wf_ind. intros [|c [|c' s]] Hn Hs.
  - by split; [|constructor].
  - cbn [sub_comma_no_space]. destruct (c =? ord ",")%N; (split; [done|exact Hs]).
  - inversion Hs as [|? ? Hc Hs']; subst.
    inversion Hs' as [|? ? Hc' Hs'']; subst.
    simpl in Hn.
    destruct (IH (length (c' :: s)) ltac:(simpl; lia) (c' :: s) ltac:(done) Hs')
      as [E1 B1].
    destruct (IH (length s) ltac:(simpl; lia) s ltac:(done) Hs'') as [E2 B2].
    rewrite !sub_comma_no_space_cons2, basic_isspace by done.
    change (@isspace ucd_fragment c') with (unicode_isspace c').
    destruct (c =? ord ",")%N; [destruct (unicode_isspace c')|].
    + rewrite E1. split; [done|]. constructor; [done|]. by rewrite <-E1.
    + rewrite E2. split; [done|].
      constructor; [done|]. constructor; [by_evaluation|].
      constructor; [done|]. by rewrite <-E2.
    + rewrite E1. split; [done|]. constructor; [done|]. by rewrite <-E1.
Qed.

Lemma sub_comma_no_space_basic s :
  basic_text s →
  @sub_comma_no_space U s = @sub_comma_no_space ucd_fragment s
  ∧ basic_text (@sub_comma_no_space U s).
Proof. by apply (sub_comma_no_space_basic_n (length s)). Qed.

Lemma re_sub_class_basic (cls : N → bool) (repl s : str) :
  basic_text repl → basic_text s → basic_text (re_sub_class cls repl s).
Proof.
  intros Hr. induction 1 as [|c s Hc Hs IH]; [constructor|].
  unfold re_sub_class. rewrite bind_cons. apply Forall_app. split; [|done].
  case_match; [done|by constructor].
Qed.

Lemma re_sub_class_ext (cls1 cls2 : N → bool) (repl s : str) :
  Forall (λ c, cls1 c = cls2 c) s →
  re_sub_class cls1 repl s = re_sub_class cls2 repl s.
Proof.
  induction 1 as [|c s Hc Hs IH]; [done|].
  unfold re_sub_class in *. by rewrite !bind_cons, Hc, IH.
Qed.

(** Basic Latin text is its own fold. *)
Lemma decode_unicode_basic s : basic_text s → @decode_unicode U s = s.
Proof.
  intros Hs. unfold decode_unicode. case_bool_decide; [done|].
  unfold normalize_NFD.
  rewrite bind_decomposition_fixed.
  2:{ eapply Forall_impl; [done|]. intros c Hc. by apply HU. }
  rewrite canonical_reorder_starters.
  2:{ eapply Forall_impl; [done|]. intros c Hc. by apply HU. }
  apply filter_fixed. eapply Forall_impl; [done|].
  intros c Hc. simpl. destruct HU as (_ & _ & _ & HMn & _). by rewrite HMn.
Qed.
End basic_latin.

Section basic_latin_authors.
Context {U : Unicode} (HU : basic_latin U).

Lemma bind_ext_Forall {A B} (f g : A → list B) (l : list A) :
  Forall (λ x, f x = g x) l → l ≫= f = l ≫= g.
Proof.
  induction 1 as [|x l Hx Hl IH]; [done|]. by rewrite !bind_cons, Hx, IH.
Qed.

Lemma str_lower_basic s : basic_text s → @str_lower U s = @str_lower ucd_fragment s.
Proof. intros Hs. destruct HU as (_ & _ & _ & _ & Hlow). by rewrite Hlow. Qed.

Lemma get_author_tokens_basic (author : str) (decode_non_ascii strip_initials : bool) :
  basic_text author →
  @get_author_tokens U author decode_non_ascii strip_initials =
  @get_author_tokens ucd_fragment author decode_non_ascii strip_initials.
Proof.
  intros Ha. unfold get_author_tokens. case_bool_decide; [done|].
  destruct (sub_comma_no_space_basic HU author Ha) as [-> Hb].
  set (au0 := re_sub_class (λ c, str_contains c (py "-+.:;")) (py " ")
                (@sub_comma_no_space ucd_fragment author)).
  assert (Hau0 : basic_text au0).
  { apply re_sub_class_basic; [by_evaluation|].
    by destruct (sub_comma_no_space_basic HU author Ha) as [<- ?]. }
  assert (Hau : (if decode_non_ascii then @decode_unicode U au0 else au0)
                = (if decode_non_ascii then @decode_unicode ucd_fragment au0 else au0)
                ∧ basic_text (if decode_non_ascii then @decode_unicode U au0 else au0)).
  { destruct decode_non_ascii; [|done].
    rewrite (decode_unicode_basic HU) by done.
    by rewrite (decode_unicode_basic ucd_fragment_basic_latin). }
  destruct Hau as [-> Hau]. clearbody au0.
  set (au := if decode_non_ascii then @decode_unicode ucd_fragment au0 else au0) in *.
  clearbody au.
  destruct (str_split_basic HU au Hau) as [Hsp Hparts].
  rewrite Hsp in Hparts |- *. clear Hsp.
  set (parts := if str_contains (ord ",") au
                then drop 1 (@str_split ucd_fragment au) ++ take 1 (@str_split ucd_fragment au)
                else @str_split ucd_fragment au).
  assert (Hp : Forall basic_text parts).
  { unfold parts. case_match; [|done]. apply Forall_app. split.
    - by apply Forall_drop.
    - by apply Forall_take. }
  apply bind_ext_Forall. eapply Forall_impl; [exact Hp|].
  intros tok Htok. simpl.
  assert (Hcls : re_sub_class (λ c, str_contains c author_remove_chars || @isspace U c) [] tok
                 = re_sub_class (λ c, str_contains c author_remove_chars
                                      || @isspace ucd_fragment c) [] tok).
  { apply re_sub_class_ext. eapply Forall_impl; [exact Htok|].
    intros c Hc. simpl. by rewrite (basic_isspace HU). }
  rewrite Hcls.
  assert (Hb1 : basic_text (re_sub_class (λ c, str_contains c author_remove_chars
                                               || @isspace ucd_fragment c) [] tok)).
  { apply re_sub_class_basic; [constructor|done]. }
  destruct (str_strip_basic HU _ Hb1) as [-> Hb2].
  rewrite (str_lower_basic _ Hb2). done.
Qed.

Lemma similar_authors_match_basic (author : str) :
  basic_text author →
  @similar_authors_match U author = @similar_authors_match ucd_fragment author.
Proof.
  intros Ha. unfold similar_authors_match. by rewrite get_author_tokens_basic.
Qed.
End basic_latin_authors.

(** ** Name-order inversion *)

Section name_order.
Context {TT : TitleTokens} {HO : HashOrder}.

Lemma similar_authors_match_first_last {U : Unicode} :
  basic_latin U →
  similar_authors_match (py "Kevin J Anderson")
  = (py "kevin anderson", Some (py "anderson kevin")).
Proof.
  intros HU. rewrite (similar_authors_match_basic HU) by by_evaluation.
  vm_compute. reflexivity.
Qed.

Lemma similar_authors_match_last_first {U : Unicode} :
  basic_latin U →
  similar_authors_match (py "Anderson, Kevin J")
  = (py "kevin anderson", Some (py "anderson kevin")).
Proof.
  intros HU. rewrite (similar_authors_match_basic HU) by by_evaluation.
  vm_compute. reflexivity.
Qed.

(** A book with a title and one author is filed under the keys of that
    author. *)
Lemma title_author_step_single {U : Unicode} (db : CalibreDB)
    (title_fn : str → option str → str) (author_fn : str → str * option str)
    (cm : gmap str (gset Z)) (book_id : Z) (t a : str) :
  db_title db book_id = Some t → t ≠ [] →
  authors_to_list db book_id = [a] →
  title_author_step db (Some title_fn) (Some author_fn) false cm book_id =
  Some (title_author_insert author_fn (title_fn t None) book_id cm a).
Proof.
  intros Ht Hne Ha. unfold title_author_step. rewrite Ht, Ha.
  destruct t as [|c t]; [done|]. cbn [truthy negb default mbind option_bind].
  by rewrite bool_decide_true.
Qed.

Lemma title_author_insert_both {U : Unicode} (author_fn : str → str * option str)
    (th : str) (book_id : Z) (cm : gmap str (gset Z)) (a k r : str) :
  author_fn a = (k, Some r) → r ≠ [] → r ≠ k →
  title_author_insert author_fn th book_id cm a =
  add_candidate (add_candidate cm (th ++ k) book_id) (th ++ r) book_id.
Proof.
  intros Ha Hr Hrk. unfold title_author_insert. rewrite Ha. cbn [fst snd default].
  destruct r as [|c r]; [done|]. cbn [truthy andb].
  rewrite bool_decide_false by congruence. done.
Qed.

(** When every candidate set is the same set, the pruner keeps it once. *)
Lemma prune_subsets_constant `{Countable V} (S : gset V) (res : list (gset V)) :
  res ≠ [] → Forall (λ c, c = S) res → prune_subsets res = [S].
Proof.
  intros Hne Hall. induction Hall as [|c res -> Hall IH]; [done|]. simpl.
  destruct res as [|c' res].
  - rewrite bool_decide_false; [done|]. by intros ?%Exists_nil.
  - rewrite bool_decide_true; [by apply IH|].
    apply Exists_cons_hd. by inversion Hall; subst.
Qed.

Lemma clean_dup_groups_constant `{Countable K} `{Countable V} (S : gset V)
    (od : list (K * gset V)) :
  od ≠ [] → Forall (λ kv, kv.2 = S) od → _clean_dup_groups od = [S].
Proof.
  intros Hne Hall. unfold _clean_dup_groups. apply prune_subsets_constant.
  - intros Hnil. apply Hne.
    apply (f_equal length) in Hnil.
    rewrite (Permutation_length (py_sorted_perm _ _)), length_fmap in Hnil.
    by destruct od.
  - apply Forall_forall. intros c Hc. rewrite py_sorted_perm in Hc.
    apply list_elem_of_fmap in Hc as (kv & -> & Hkv).
    by apply (proj1 (Forall_forall _ _) Hall).
Qed.

(** Two keys that both hold books 1 and 2 give the single group of the
    two. *)
Lemma groups_of_two_keys (a b : str) (sort_by_title : bool)
    (self : DuplicateFinder) :
  book_exemptions self = ∅ → a ≠ b →
  finish_groups self
    (add_candidate (add_candidate (add_candidate (add_candidate ∅ a 1) b 1) a 2) b 2)
    sort_by_title
  = [ {| group_id := 1; book_ids := [1; 2]; match_key := [] |} ].
Proof.
  intros HE Hab. rewrite finish_groups_spec, HE.
  set (S := ({[1; 2]} : gset Z)).
  assert (Hcm : add_candidate
                  (add_candidate (add_candidate (add_candidate ∅ a 1) b 1) a 2) b 2
                = <[b := S]> (<[a := S]> (∅ : gmap str (gset Z)))).
  { unfold add_candidate. simplify_map_eq.
    assert (HS : ∅ ∪ {[1]} ∪ {[2]} = S) by (unfold S; set_solver).
    rewrite HS. apply map_eq. intros k.
    destruct (decide (k = b)) as [->|?]; [by simplify_map_eq|].
    destruct (decide (k = a)) as [->|?]; by simplify_map_eq. }
  rewrite Hcm. clear Hcm.
  assert (Hsize : size S = 2%nat) by (vm_compute; reflexivity).
  assert (Hpr : pruned_candidates (<[b := S]> (<[a := S]> (∅ : gmap str (gset Z))))
                  sort_by_title = [S]).
  { unfold pruned_candidates. apply clean_dup_groups_constant.
    - intros Hnil.
      assert (Hin : (a, S) ∈ _sort_candidate_groups
                (_shrink_candidates_map (<[b := S]> (<[a := S]> (∅ : gmap str (gset Z)))))
                sort_by_title).
      { apply elem_of_sort_candidate_groups, lookup_shrink_candidates_map.
        split; [by simplify_map_eq|lia]. }
      rewrite Hnil in Hin. by apply elem_of_nil in Hin.
    - apply Forall_forall. intros [k c] Hkc. simpl.
      apply elem_of_sort_candidate_groups, lookup_shrink_candidates_map in Hkc
        as [Hkc _].
      destruct (decide (k = b)) as [->|?]; [by simplify_map_eq|].
      destruct (decide (k = a)) as [->|?]; by simplify_map_eq. }
  rewrite Hpr. unfold groups_of_candidates.
  rewrite bind_cons. change ([] ≫= _) with (@nil (list Z)). rewrite app_nil_r.
  rewrite partition_empty_exemptions, Hsize.
  rewrite (py_sorted_unique (set_iter S) (elements S)) by apply set_iter_perm.
  vm_compute. reflexivity.
Qed.
End name_order.

(** C5 (scenario S5): two books with the same title, one by "Kevin J
    Anderson" and one by "Anderson, Kevin J", form exactly one group under
    the similar title and author policies with no exemption; both names
    yield the key "kevin anderson" and the reversed key "anderson kevin", so
    both books are filed under the title key followed by either. This holds
    for every interpreter that treats Basic Latin text as CPython does. *)
Theorem name_order_inversion {U : Unicode} {TT : TitleTokens} {HO : HashOrder}
    (g : SoundexLengths) (self : DuplicateFinder) (t identifier_type : str)
    (sort_by_title : bool) :
  basic_latin U →
  t ≠ [] →
  db_all_ids (db self) = [1; 2] →
  db_title (db self) 1 = Some t →
  db_title (db self) 2 = Some t →
  authors_to_list (db self) 1 = [py "Kevin J Anderson"] →
  authors_to_list (db self) 2 = [py "Anderson, Kevin J"] →
  book_exemptions self = ∅ →
  find_duplicates g self (py "title_author") (py "similar") (py "similar")
    identifier_type false sort_by_title None
  = Some [ {| group_id := 1; book_ids := [1; 2]; match_key := [] |} ]
  ∧ similar_authors_match (py "Kevin J Anderson")
    = (py "kevin anderson", Some (py "anderson kevin"))
  ∧ similar_authors_match (py "Anderson, Kevin J")
    = (py "kevin anderson", Some (py "anderson kevin"))
  ∧ _find_title_author_candidates g (db self) [1; 2] (py "similar") (py "similar") false
    = Some (<[similar_title_match t None ++ py "anderson kevin" := {[1; 2]}]>
             (<[similar_title_match t None ++ py "kevin anderson" := {[1; 2]}]> ∅)).
Proof.
  intros HU Ht Hids Ht1 Ht2 Ha1 Ha2 HE.
  assert (Hcm : _find_title_author_candidates g (db self) [1; 2] (py "similar")
                  (py "similar") false
                = Some (add_candidate (add_candidate (add_candidate (add_candidate ∅
                          (similar_title_match t None ++ py "kevin anderson") 1)
                          (similar_title_match t None ++ py "anderson kevin") 1)
                          (similar_title_match t None ++ py "kevin anderson") 2)
                          (similar_title_match t None ++ py "anderson kevin") 2)).
  { unfold _find_title_author_candidates.
    rewrite bool_decide_true by by_evaluation.
    change (get_title_algorithm_fn g (py "similar")) with (Some similar_title_match).
    change (get_author_algorithm_fn g (py "similar")) with (Some similar_authors_match).
    unfold foldl_raising. cbn [foldl mbind option_bind].
    rewrite (title_author_step_single _ _ _ _ 1 t (py "Kevin J Anderson")) by done.
    cbn [mbind option_bind].
    rewrite (title_author_step_single _ _ _ _ 2 t (py "Anderson, Kevin J")) by done.
    set (th := similar_title_match t None). cbn [mbind option_bind].
    rewrite (title_author_insert_both similar_authors_match th 1 ∅
               (py "Kevin J Anderson") (py "kevin anderson") (py "anderson kevin"));
      [|by apply similar_authors_match_first_last|by_evaluation|by_evaluation].
    rewrite (title_author_insert_both similar_authors_match th 2 _
               (py "Anderson, Kevin J") (py "kevin anderson") (py "anderson kevin"));
      [|by apply similar_authors_match_last_first|by_evaluation|by_evaluation].
    reflexivity. }
  assert (Hne : similar_title_match t None ++ py "kevin anderson"
                ≠ similar_title_match t None ++ py "anderson kevin").
  { intros Heq%app_inv_head. revert Heq. by_evaluation. }
  split_and!.
  - unfold find_duplicates. rewrite Hids.
    rewrite !bool_decide_false by by_evaluation.
    rewrite Hcm. cbn [mbind option_bind]. f_equal.
    by apply groups_of_two_keys.
  - by apply similar_authors_match_first_last.
  - by apply similar_authors_match_last_first.
  - rewrite Hcm. f_equal. unfold add_candidate. simplify_map_eq.
    assert (HS : ∅ ∪ {[1]} ∪ {[2]} = ({[1; 2]} : gset Z)) by set_solver.
    rewrite HS. apply map_eq. intros k.
    destruct (decide (k = similar_title_match t None ++ py "anderson kevin"))
      as [->|?]; [by simplify_map_eq|].
    destruct (decide (k = similar_title_match t None ++ py "kevin anderson"))
      as [->|?]; by simplify_map_eq.
Qed.

Lemma name_order_inversion_witness :
  basic_latin ucd_fragment
  ∧ py "Dune" ≠ []
  ∧ db_all_ids (db (finder library_S5 ∅)) = [1; 2]
  ∧ db_title (db (finder library_S5 ∅)) 1 = Some (py "Dune")
  ∧ db_title (db (finder library_S5 ∅)) 2 = Some (py "Dune")
  ∧ @authors_to_list ucd_fragment (db (finder library_S5 ∅)) 1 = [py "Kevin J Anderson"]
  ∧ @authors_to_list ucd_fragment (db (finder library_S5 ∅)) 2 = [py "Anderson, Kevin J"]
  ∧ book_exemptions (finder library_S5 ∅) = ∅
  ∧ run_example library_S5 ∅ "title_author" "similar" "similar" true
    = Some [ {| group_id := 1; book_ids := [1; 2]; match_key := [] |} ].
Proof.
  assert (H0 : py "Dune" ≠ []) by by_evaluation.
  assert (H1 : db_all_ids (db (finder library_S5 ∅)) = [1; 2]) by reflexivity.
  assert (H2 : db_title (db (finder library_S5 ∅)) 1 = Some (py "Dune"))
    by (vm_compute; reflexivity).
  assert (H3 : db_title (db (finder library_S5 ∅)) 2 = Some (py "Dune"))
    by (vm_compute; reflexivity).
  assert (H4 : @authors_to_list ucd_fragment (db (finder library_S5 ∅)) 1
               = [py "Kevin J Anderson"]) by (vm_compute; reflexivity).
  assert (H5 : @authors_to_list ucd_fragment (db (finder library_S5 ∅)) 2
               = [py "Anderson, Kevin J"]) by (vm_compute; reflexivity).
  assert (H6 : book_exemptions (finder library_S5 ∅) = ∅) by reflexivity.
  split_and!; [exact ucd_fragment_basic_latin|exact H0|exact H1|exact H2|exact H3
              |exact H4|exact H5|exact H6|].
  exact (proj1 (name_order_inversion (U:=ucd_fragment) (TT:=no_title_tokens)
                  (HO:=canonical_order) initial_lengths (finder library_S5 ∅)
                  (py "Dune") (py "isbn") true
                  ucd_fragment_basic_latin H0 H1 H2 H3 H4 H5 H6)).
Defined.

(** ** Determinism *)

(** The result of a search does not depend on the order in which sets and
    dictionaries are iterated. *)
Section determinism.
Context {U : Unicode} {TT : TitleTokens} (HO1 HO2 : HashOrder).

Lemma dict_iter_order `{Countable K} {V} (m : gmap K V) :
  @dict_iter HO1 _ _ _ _ m ≡ₚ @dict_iter HO2 _ _ _ _ m.
Proof. by rewrite !dict_iter_perm. Qed.

Lemma foldl_pointwise {A B} (f g : A → B → A) (l : list B) :
  (∀ a x, f a x = g a x) → ∀ a, foldl f a l = foldl g a l.
Proof.
  intros Hfg. induction l as [|x l IH]; intros a; simpl; [done|].
  by rewrite Hfg, IH.
Qed.

Lemma bind_pointwise_perm {A B} (f g : A → list B) (l1 l2 : list A) :
  (∀ x, f x ≡ₚ g x) → l1 ≡ₚ l2 → l1 ≫= f ≡ₚ l2 ≫= g.
Proof.
  intros Hfg Hl. rewrite Hl. clear Hl l1.
  induction l2 as [|x l IH]; [done|].
  by rewrite !bind_cons, Hfg, IH.
Qed.

Lemma sort_candidate_groups_order `{Countable K} {PK : PyOrd K} `{Countable V}
    (m : gmap K (gset V)) by_title :
  @_sort_candidate_groups HO1 _ _ _ _ _ _ _ m by_title =
  @_sort_candidate_groups HO2 _ _ _ _ _ _ _ m by_title.
Proof.
  unfold _sort_candidate_groups. f_equal.
  assert (Hk : (@dict_iter HO1 _ _ _ _ m).*1 ≡ₚ (@dict_iter HO2 _ _ _ _ m).*1)
    by (by rewrite dict_iter_order).
  destruct by_title; [by apply py_sorted_unique|].
  apply strict_sorted_unique; [| | |done].
  - intros x. apply py_lt_irrefl.
  - intros x y z Hxy Hyz. by apply (py_lt_trans _ _ _ Hyz).
  - intros x y Hxy Hyx.
    by injection (py_lt_connex _ _ Hyx Hxy).
Qed.

Lemma groups_of_candidates_order (E : ExemptionsMap Z) (candidates : list (gset Z)) :
  @groups_of_candidates HO1 E candidates = @groups_of_candidates HO2 E candidates.
Proof.
  unfold groups_of_candidates. do 2 f_equal.
  induction candidates as [|c candidates IH]; [done|].
  rewrite !bind_cons, IH. f_equal.
  apply partition_order_irrelevant, set_iter_order.
Qed.

Lemma finish_groups_order `{Countable K} {PK : PyOrd K} (self : DuplicateFinder)
    (cm : gmap K (gset Z)) sort_by_title :
  @finish_groups HO1 _ _ _ _ self cm sort_by_title =
  @finish_groups HO2 _ _ _ _ self cm sort_by_title.
Proof.
  rewrite !finish_groups_spec. unfold pruned_candidates.
  rewrite sort_candidate_groups_order. apply groups_of_candidates_order.
Qed.
End determinism.

Section determinism_binary.
Context (HO1 HO2 : HashOrder).

Lemma add_candidate_comm `{Countable K} `{Countable V}
    (m : gmap K (gset V)) k1 v1 k2 v2 :
  add_candidate (add_candidate m k1 v1) k2 v2 =
  add_candidate (add_candidate m k2 v2) k1 v1.
Proof.
  unfold add_candidate. apply map_eq. intros k.
  destruct (decide (k1 = k2)) as [->|Hne].
  - rewrite !lookup_insert_eq. simpl.
    destruct (decide (k = k2)) as [->|?].
    + rewrite !lookup_insert_eq. f_equal. set_solver.
    + by rewrite !lookup_insert_ne.
  - rewrite (lookup_insert_ne _ k1 k2), (lookup_insert_ne _ k2 k1) by done.
    destruct (decide (k = k1)) as [->|?]; [by simplify_map_eq|].
    destruct (decide (k = k2)) as [->|?]; by simplify_map_eq.
Qed.

Lemma foldl_insert_entry_perm (l1 l2 : list ((str * Z) * Z)) :
  l1 ≡ₚ l2 → ∀ cm, foldl insert_entry cm l1 = foldl insert_entry cm l2.
Proof.
  induction 1 as [|x l1 l2 _ IH|x y l|l1 l2 l3 _ IH1 _ IH2]; intros cm; simpl.
  - done.
  - apply IH.
  - unfold insert_entry at 2 3 5 6. by rewrite add_candidate_comm.
  - by rewrite IH1, IH2.
Qed.

Lemma foldl_binary_hash_step (db : CalibreDB) (size : Z) (files : list (Z * str)) :
  ∀ cm, foldl (binary_hash_step db size) cm files =
        foldl insert_entry cm (files ≫= hash_entries db size).
Proof.
  induction files as [|file files IH]; intros cm; [done|].
  rewrite bind_cons, foldl_app. cbn [foldl]. rewrite IH. f_equal.
  unfold binary_hash_step, hash_entries. by case_match.
Qed.

Lemma foldl_binary_groups {HO : HashOrder} (db : CalibreDB)
    (items : list (Z * gset (Z * str))) :
  ∀ cm,
  foldl (λ candidates_map kv,
           foldl (binary_hash_step db kv.1) candidates_map (set_iter kv.2)) cm items =
  foldl insert_entry cm (items ≫= λ kv, set_iter kv.2 ≫= hash_entries db kv.1).
Proof.
  induction items as [|kv items IH]; intros cm; [done|].
  rewrite bind_cons, foldl_app. cbn [foldl].
  by rewrite IH, foldl_binary_hash_step.
Qed.

Lemma find_binary_candidates_order (db : CalibreDB) (ids : list Z) :
  @_find_binary_candidates HO1 db ids = @_find_binary_candidates HO2 db ids.
Proof.
  unfold _find_binary_candidates. rewrite !foldl_binary_groups.
  apply foldl_insert_entry_perm, bind_pointwise_perm.
  - intros kv. apply bind_pointwise_perm; [done|apply set_iter_order].
  - apply dict_iter_order.
Qed.
End determinism_binary.

Section determinism_search.
Context {U : Unicode} {TT : TitleTokens} (HO1 HO2 : HashOrder).

Lemma author_only_partition_order (author_bookids_map : gmap str (gset Z))
    (st : list DuplicateGroup * Z) (partition : list str) :
  @author_only_partition U HO1 author_bookids_map st partition =
  @author_only_partition U HO2 author_bookids_map st partition.
Proof.
  unfold author_only_partition. repeat case_bool_decide; try done.
  do 4 f_equal. apply py_sorted_unique, set_iter_order.
Qed.

Lemma find_author_only_duplicates_order g self ids author_match sort_by_title :
  @_find_author_only_duplicates U HO1 g self ids author_match sort_by_title =
  @_find_author_only_duplicates U HO2 g self ids author_match sort_by_title.
Proof.
  unfold _find_author_only_duplicates.
  destruct (foldl_raising _ _ _) as [st|]; [|done]. cbn [mbind option_bind].
  rewrite (sort_candidate_groups_order HO1 HO2). do 2 f_equal.
  apply foldl_pointwise. intros st' author_group.
  rewrite (partition_order_irrelevant HO1 HO2 _ (@set_iter HO2 _ _ _ author_group))
    by apply set_iter_order.
  apply foldl_pointwise. intros. apply author_only_partition_order.
Qed.
End determinism_search.

(** C4: two runs of [find_duplicates] on the same library, with the same
    finder, module state and arguments, return the same list of groups, with
    the same ids, books and match keys: the result is a function of those
    inputs and does not depend on the order in which the interpreter
    iterates sets and dictionaries in either run. *)
Theorem find_duplicates_deterministic {U : Unicode} {TT : TitleTokens}
    (HO1 HO2 : HashOrder) (g : SoundexLengths) (self : DuplicateFinder)
    (search_type title_match author_match identifier_type : str)
    (include_languages sort_by_title : bool) (selection : option (list Z)) :
  @find_duplicates U TT HO1 g self search_type title_match author_match
    identifier_type include_languages sort_by_title selection =
  @find_duplicates U TT HO2 g self search_type title_match author_match
    identifier_type include_languages sort_by_title selection.
Proof.
  unfold find_duplicates. repeat case_bool_decide.
  - f_equal. apply finish_groups_order.
  - f_equal. rewrite (find_binary_candidates_order HO1 HO2).
    apply finish_groups_order.
  - apply find_author_only_duplicates_order.
  - destruct (_find_title_author_candidates _ _ _ _ _ _) as [cm|]; [|done].
    cbn [mbind option_bind]. f_equal. apply finish_groups_order.
Qed.

(** * Further properties *)

(** ** Exemption maps *)

(** X1: [add_exemption] adds each id to the set of the other and nothing
    else; both ids are keys afterwards, and no key is lost. *)
Theorem add_exemption_records_pair `{Countable A} (a b x : A) (E : ExemptionsMap A) :
  merge_sets (add_exemption a b E) x =
    merge_sets E x ∪ (if decide (x = a) then {[b]} else ∅)
                   ∪ (if decide (x = b) then {[a]} else ∅)
  ∧ exemptions_contains (add_exemption a b E) a = true
  ∧ exemptions_contains (add_exemption a b E) b = true
  ∧ (exemptions_contains E x = true →
     exemptions_contains (add_exemption a b E) x = true).
Proof.
  split; [apply merge_sets_add_exemption|].
  unfold add_exemption, exemptions_contains.
  split_and!.
  - apply bool_decide_eq_true.
    destruct (decide (a = b)) as [->|?]; by simplify_map_eq.
  - apply bool_decide_eq_true. by simplify_map_eq.
  - rewrite !bool_decide_eq_true. intros [s Hs].
    destruct (decide (x = b)) as [->|?]; [by simplify_map_eq|].
    destruct (decide (x = a)) as [->|?]; [by simplify_map_eq|].
    rewrite !lookup_insert_ne by done.
    repeat case_bool_decide; simplify_map_eq; eauto.
Qed.

Lemma add_exemption_records_pair_witness :
  exemptions_contains (add_exemption 1 3 (∅ : ExemptionsMap Z)) 1 = true
  ∧ exemptions_contains (add_exemption 2 4 (add_exemption 1 3 (∅ : ExemptionsMap Z))) 1 = true.
Proof.
  assert (H1 : exemptions_contains (add_exemption 1 3 (∅ : ExemptionsMap Z)) 1 = true)
    by by_evaluation.
  split; [exact H1|].
  exact (proj2 (proj2 (proj2 (add_exemption_records_pair 2 4 1
                                (add_exemption 1 3 (∅ : ExemptionsMap Z))))) H1).
Defined.

(** X2: [add_exemption] keeps a symmetric relation symmetric. *)
Theorem add_exemption_keeps_symmetry `{Countable A} (a b : A) (E : ExemptionsMap A) :
  symmetric_exemptions E → symmetric_exemptions (add_exemption a b E).
Proof.
  intros HE x y. rewrite !merge_sets_add_exemption.
  specialize (HE x y). repeat case_decide; set_solver.
Qed.

Lemma add_exemption_keeps_symmetry_witness :
  symmetric_exemptions (∅ : ExemptionsMap Z)
  ∧ symmetric_exemptions (add_exemption 1 3 (∅ : ExemptionsMap Z)).
Proof.
  split; [exact symmetric_exemptions_empty|].
  exact (add_exemption_keeps_symmetry 1 3 ∅ symmetric_exemptions_empty).
Defined.

(** ** Pruning of candidate sets *)

Section prune_cover.
Context `{Countable V}.

Lemma prune_subsets_cover (res : list (gset V)) a :
  a ∈ res → ∃ b, b ∈ prune_subsets res ∧ a ⊆ b.
Proof.
  revert a. induction res as [|a0 rest IH]; intros a; [by intros ?%elem_of_nil|].
  assert (Hrest : ∀ b, b ∈ prune_subsets rest → b ∈ prune_subsets (a0 :: rest)).
  { intros b Hb. simpl. case_bool_decide; [done|by right]. }
  intros [->|Ha]%elem_of_cons.
  - simpl. case_bool_decide as Hex.
    + apply Exists_exists in Hex as (b & Hb & Hab).
      destruct (IH _ Hb) as (b' & Hb' & Hbb'). exists b'. split; [done|set_solver].
    + exists a0. split; [by left|done].
  - destruct (IH _ Ha) as (b & Hb & Hab). exists b. auto.
Qed.

Lemma prune_subsets_NoDup (res : list (gset V)) : NoDup (prune_subsets res).
Proof.
  induction res as [|a0 rest IH]; [constructor|].
  simpl. case_bool_decide as Hex; [done|].
  constructor; [|done]. intros Ha. apply Hex, Exists_exists.
  exists a0. split; [by apply elem_of_prune_subsets|done].
Qed.
End prune_cover.

(** X3: [_clean_dup_groups] keeps sets of its input only, keeps each at most
    once, keeps no set that lies within another kept set, and loses nothing:
    every set of the input lies within a kept one. *)
Theorem clean_dup_groups_keeps_maximal `{Countable K} `{Countable V}
    (candidates_map : list (K * gset V)) :
  (∀ c, c ∈ _clean_dup_groups candidates_map → c ∈ candidates_map.*2)
  ∧ NoDup (_clean_dup_groups candidates_map)
  ∧ (∀ a b, a ∈ _clean_dup_groups candidates_map →
            b ∈ _clean_dup_groups candidates_map → a ⊆ b → a = b)
  ∧ (∀ c, c ∈ candidates_map.*2 →
          ∃ b, b ∈ _clean_dup_groups candidates_map ∧ c ⊆ b).
Proof.
  split_and!.
  - apply elem_of_clean_dup_groups.
  - apply prune_subsets_NoDup.
  - intros a b Ha Hb Hab.
    destruct (decide (a = b)) as [|Hne]; [done|].
    destruct (clean_dup_groups_antichain candidates_map a b Ha Hb).
    split; [done|]. intros Hba. apply Hne. set_solver.
  - intros c Hc. apply prune_subsets_cover. by apply elem_of_py_sorted.
Qed.

(** ** Soundex codes *)

Section soundex_shape.
Context {U : Unicode}.

Lemma soundex_digit_range (c : N) :
  is_AZ c = true → soundex_digit c ∈ py "0123456".
Proof.
  unfold is_AZ. rewrite andb_true_iff, !N.leb_le. intros [Hlo Hhi].
  unfold soundex_digit.
  assert (Hn : (N.to_nat (c - ord "A") < 26)%nat).
  { change (ord "A") with 65%N in *. change (ord "Z") with 90%N in *. lia. }
  revert Hn. generalize (N.to_nat (c - ord "A")). intros n Hn.
  do 26 (destruct n as [|n]; [vm_compute; set_solver|]). lia.
Qed.

Lemma elem_of_collapse_runs (l : str) : ∀ prev x,
  x ∈ collapse_runs prev l → x ∈ l.
Proof.
  induction l as [|y l IH]; intros prev x; simpl; [done|].
  case_bool_decide.
  - intros ?%IH. by right.
  - intros [->|?%IH]%elem_of_cons; [by left|by right].
Qed.

Lemma take_pad_zeros (d : str) (n m : nat) :
  (n ≤ m)%nat →
  take n (d ++ replicate m (ord "0")) = take n (d ++ replicate n (ord "0")).
Proof.
  intros Hnm. rewrite !take_app, !take_replicate. do 2 f_equal. lia.
Qed.
End soundex_shape.

(** X4: for a name without a letter A-Z after upper-casing, the empty name
    included, [soundex] is made of zeros only. *)
Theorem soundex_without_letters {U : Unicode} (name : str) (length : Z) :
  0 ≤ length →
  Forall (λ c, is_AZ c = false) (str_upper name) →
  soundex name length = replicate (Z.to_nat length) (ord "0").
Proof.
  intros Hlen Hname. rewrite soundex_eq_procedure by done.
  unfold soundex_procedure.
  assert (Hf : filter (λ c, is_AZ c) (str_upper name) = []).
  { induction Hname as [|c l Hc _ IH]; [done|].
    rewrite filter_cons. rewrite Hc. simpl. exact IH. }
  rewrite Hf. simpl. apply take_ge. by rewrite length_replicate.
Qed.

Lemma soundex_without_letters_witness :
  0 ≤ 4
  ∧ Forall (λ c, is_AZ c = false) (@str_upper ucd_fragment (py "2001"))
  ∧ @soundex ucd_fragment (py "2001") 4 = py "0000".
Proof.
  assert (H1 : 0 ≤ 4) by lia.
  assert (H2 : Forall (λ c, is_AZ c = false) (@str_upper ucd_fragment (py "2001")))
    by (repeat constructor).
  split; [exact H1|]. split; [exact H2|].
  exact (@soundex_without_letters ucd_fragment (py "2001") 4 H1 H2).
Defined.

(** X5: when the upper-cased name has a letter A-Z and the length is at
    least 1, [soundex] starts with the first such letter and goes on with
    digits from 0 to 6. *)
Theorem soundex_letter_then_digits {U : Unicode} (name : str) (length : Z)
    (c : N) (letters : str) :
  1 ≤ length →
  filter (λ c, is_AZ c) (str_upper name) = c :: letters →
  head (soundex name length) = Some c
  ∧ Forall (λ d, d ∈ py "0123456") (drop 1 (soundex name length)).
Proof.
  intros Hlen Hname. rewrite soundex_eq_procedure by lia.
  unfold soundex_procedure. rewrite Hname.
  assert (Hc : is_AZ c = true).
  { assert (Hin : c ∈ filter (λ c, is_AZ c) (str_upper name))
      by (rewrite Hname; by left).
    apply list_elem_of_filter in Hin as [Hc _]. by apply Is_true_true. }
  assert (Hc0 : c ≠ ord "0").
  { unfold is_AZ in Hc. apply andb_true_iff in Hc as [Hc _].
    apply N.leb_le in Hc. change (ord "A") with 65%N in Hc.
    change (ord "0") with 48%N. lia. }
  cbn [take app]. rewrite filter_cons_True by done.
  destruct (Z.to_nat length) as [|n] eqn:Hn; [lia|].
  cbn [app take head drop]. split; [done|].
  apply Forall_take, Forall_app. split.
  - assert (HF : Forall (λ d, d ∈ py "0123456")
                  (collapse_runs None (procedure_digit <$> c :: letters))).
    { rewrite <-Hname, <-soundex_digit_letters, Hname.
      apply Forall_forall. intros d Hd.
      apply elem_of_collapse_runs in Hd.
      apply list_elem_of_fmap in Hd as (l & -> & Hl).
      apply soundex_digit_range.
      assert (Hin : l ∈ filter (λ c, is_AZ c) (str_upper name))
        by (rewrite Hname; done).
      apply list_elem_of_filter in Hin as [Hl' _]. by apply Is_true_true. }
    apply (Forall_drop _ 1) in HF. rewrite Forall_forall in HF.
    apply Forall_forall. intros d [_ Hd]%list_elem_of_filter. by apply HF.
  - apply Forall_replicate. vm_compute. set_solver.
Qed.

Lemma soundex_letter_then_digits_witness :
  1 ≤ 4
  ∧ filter (λ c, is_AZ c) (@str_upper ucd_fragment (py "o'Hara")) = py "OHARA"
  ∧ head (@soundex ucd_fragment (py "o'Hara") 4) = Some (ord "O")
  ∧ Forall (λ d, d ∈ py "0123456") (drop 1 (@soundex ucd_fragment (py "o'Hara") 4)).
Proof.
  assert (H1 : 1 ≤ 4) by lia.
  assert (H2 : filter (λ c, is_AZ c) (@str_upper ucd_fragment (py "o'Hara"))
               = ord "O" :: py "HARA") by by_evaluation.
  split; [exact H1|]. split; [exact H2|].
  exact (@soundex_letter_then_digits ucd_fragment (py "o'Hara") 4 _ _ H1 H2).
Defined.

(** X6: a shorter code is the beginning of a longer one: the code of length
    [length1] is the first [length1] characters of the code of any greater
    length. *)
Theorem soundex_shorter_is_prefix {U : Unicode} (name : str) (length1 length2 : Z) :
  0 ≤ length1 → length1 ≤ length2 →
  soundex name length1 = take (Z.to_nat length1) (soundex name length2).
Proof.
  intros H1 H2. rewrite !soundex_eq_procedure by lia.
  unfold soundex_procedure. rewrite take_take.
  replace (Z.to_nat length1 `min` Z.to_nat length2)%nat with (Z.to_nat length1) by lia.
  symmetry. apply take_pad_zeros. lia.
Qed.

Lemma soundex_shorter_is_prefix_witness :
  0 ≤ 4 ∧ 4 ≤ 8
  ∧ @soundex ucd_fragment (py "Asimov") 4
    = take (Z.to_nat 4) (@soundex ucd_fragment (py "Asimov") 8).
Proof.
  assert (H1 : 0 ≤ 4) by lia.
  assert (H2 : 4 ≤ 8) by lia.
  split; [exact H1|]. split; [exact H2|].
  exact (@soundex_shorter_is_prefix ucd_fragment (py "Asimov") 4 8 H1 H2).
Defined.

(** ** Text normalisation and tokens *)

(** X7: [decode_unicode] never returns a character of category Mn, and it
    leaves text of Basic Latin as it is. *)
Theorem decode_unicode_strips_marks {U : Unicode} (text : str) :
  (text ≠ [] → ∀ c, c ∈ decode_unicode text → category_Mn c = false)
  ∧ (basic_latin U → basic_text text → decode_unicode text = text).
Proof.
  split.
  - intros Htext c. unfold decode_unicode. rewrite bool_decide_eq_false_2 by done.
    intros [Hc _]%list_elem_of_filter. by destruct (category_Mn c).
  - intros HU Htext. by apply decode_unicode_basic.
Qed.

Lemma decode_unicode_strips_marks_witness :
  (py "Dune" ≠ [] → ∀ c, c ∈ @decode_unicode ucd_fragment (py "Dune") →
     @category_Mn ucd_fragment c = false)
  ∧ basic_latin ucd_fragment ∧ basic_text (py "Dune")
  ∧ @decode_unicode ucd_fragment (py "Dune") = py "Dune".
Proof.
  assert (H1 : basic_latin ucd_fragment) by exact ucd_fragment_basic_latin.
  assert (H2 : basic_text (py "Dune")) by (repeat constructor).
  split; [exact (proj1 (@decode_unicode_strips_marks ucd_fragment (py "Dune")))|].
  split; [exact H1|]. split; [exact H2|].
  exact (proj2 (@decode_unicode_strips_marks ucd_fragment (py "Dune")) H1 H2).
Defined.

Section tokens.
Context {U : Unicode}.

Lemma variation_tokens_stop_words (ignore_words : list str) (text : str)
    (decode_non_ascii : bool) (tok : str) :
  tok ∈ variation_tokens ignore_words text decode_non_ascii → tok ∉ ignore_words.
Proof.
  unfold variation_tokens. case_bool_decide; [by intros ?%elem_of_nil|].
  intros (part & Htok & _)%list_elem_of_bind.
  destruct (bool_decide (0 < length _)%nat); simpl in Htok;
    [|by apply elem_of_nil in Htok].
  case_bool_decide as Hw; simpl in Htok; [by apply elem_of_nil in Htok|].
  by apply list_elem_of_singleton in Htok as ->.
Qed.
End tokens.

(** X8: the token functions never return a stop word: no author token is
    among [IGNORE_AUTHOR_WORDS], and no series, publisher or tag token is
    among the words those functions ignore; an empty text has no tokens. *)
Theorem tokens_never_stop_words {U : Unicode} (text tok : str)
    (decode_non_ascii strip_initials : bool) :
  (tok ∈ get_author_tokens text decode_non_ascii strip_initials →
   tok ∉ ignore_author_words)
  ∧ (tok ∈ get_series_tokens text decode_non_ascii →
     tok ∉ [py "the"; py "a"; py "and"])
  ∧ (tok ∈ get_publisher_tokens text decode_non_ascii →
     tok ∉ [py "the"; py "inc"; py "ltd"; py "limited"; py "llc"; py "co"; py "pty";
            py "usa"; py "uk"])
  ∧ (tok ∈ get_tag_tokens text decode_non_ascii →
     tok ∉ [py "the"; py "and"; py "a"])
  ∧ get_author_tokens [] decode_non_ascii strip_initials = []
  ∧ get_series_tokens [] decode_non_ascii = []
  ∧ get_publisher_tokens [] decode_non_ascii = []
  ∧ get_tag_tokens [] decode_non_ascii = [].
Proof.
  split_and!; try reflexivity; try apply variation_tokens_stop_words.
  unfold get_author_tokens. case_bool_decide; [by intros ?%elem_of_nil|].
  intros (part & Htok & _)%list_elem_of_bind.
  destruct (bool_decide (_ < length _)%nat); simpl in Htok;
    [|by apply elem_of_nil in Htok].
  case_bool_decide as Hw; simpl in Htok; [by apply elem_of_nil in Htok|].
  by apply list_elem_of_singleton in Htok as ->.
Qed.

Lemma tokens_never_stop_words_witness :
  py "asimov" ∈ @get_author_tokens ucd_fragment (py "Isaac Asimov Jr") true true
  ∧ (py "asimov" ∉ ignore_author_words)
  ∧ @get_author_tokens ucd_fragment (py "Isaac Asimov Jr") true true
    = [py "isaac"; py "asimov"].
Proof.
  assert (H1 : py "asimov" ∈ @get_author_tokens ucd_fragment (py "Isaac Asimov Jr") true true)
    by by_evaluation.
  split; [exact H1|].
  split; [|by_evaluation].
  exact (proj1 (@tokens_never_stop_words ucd_fragment (py "Isaac Asimov Jr")
                  (py "asimov") true true) H1).
Defined.

(** ** Author names of a book *)

Section authors_list.
Context {U : Unicode}.

Lemma length_str_split_sep_from (sep : N) (s : str) : ∀ cur,
  length (str_split_sep_from sep cur s) = S (length (filter (λ c, c = sep) s)).
Proof.
  induction s as [|c s IH]; intros cur; simpl; [done|].
  rewrite filter_cons. destruct (N.eqb_spec c sep) as [->|Hne].
  - rewrite decide_True by done. simpl. by rewrite IH.
  - rewrite decide_False by done. apply IH.
Qed.

Lemma str_split_sep_from_app (sep : N) (x : str) : ∀ cur rest,
  sep ∉ x →
  str_split_sep_from sep cur (x ++ rest) = str_split_sep_from sep (reverse x ++ cur) rest.
Proof.
  induction x as [|c x IH]; intros cur rest Hx; simpl; [done|].
  apply not_elem_of_cons in Hx as [Hc Hx].
  destruct (N.eqb_spec c sep) as [->|_]; [done|].
  rewrite IH by done. by rewrite reverse_cons, <-app_assoc.
Qed.

Lemma str_split_sep_join (sep : N) (names : list str) :
  names ≠ [] → Forall (λ n, sep ∉ n) names →
  str_split_sep sep (str_join [sep] names) = names.
Proof.
  unfold str_split_sep. intros Hne Hnames.
  induction Hnames as [|n names Hn Hnames IH]; [done|].
  destruct names as [|n' names].
  - simpl. rewrite <-(app_nil_r n) at 1. rewrite str_split_sep_from_app by done.
    simpl. by rewrite app_nil_r, reverse_involutive.
  - change (str_join [sep] (n :: n' :: names))
      with (n ++ sep :: str_join [sep] (n' :: names)).
    rewrite str_split_sep_from_app by done. cbn [str_split_sep_from].
    rewrite N.eqb_refl, app_nil_r, reverse_involutive. f_equal. by apply IH.
Qed.
End authors_list.

(** X9: [authors_to_list] returns no name for a book without authors, and
    otherwise one name per piece of the stored string: one more than it has
    commas; no returned name contains a vertical bar. *)
Theorem authors_to_list_pieces {U : Unicode} (db : CalibreDB) (book_id : Z) :
  (truthy (db_authors db book_id) = false → authors_to_list db book_id = [])
  ∧ (∀ authors, db_authors db book_id = Some authors → authors ≠ [] →
       length (authors_to_list db book_id)
       = S (length (filter (λ c, c = ord ",") authors)))
  ∧ (∀ a, a ∈ authors_to_list db book_id → ord "|" ∉ a).
Proof.
  unfold authors_to_list. split_and!.
  - by intros ->.
  - intros authors -> Hne. destruct authors as [|c authors]; [done|]. cbn [truthy default].
    rewrite length_fmap. apply length_str_split_sep_from.
  - intros a. destruct (truthy _); [|by intros ?%elem_of_nil].
    intros (piece & -> & _)%list_elem_of_fmap.
    unfold str_replace. intros (c & Hc & _)%list_elem_of_fmap.
    destruct (c =? ord "|")%N eqn:Hbar; [done|].
    apply N.eqb_neq in Hbar. congruence.
Qed.

Lemma authors_to_list_pieces_witness :
  db_authors (library library_S5) 2 = Some (py "Anderson| Kevin J")
  ∧ py "Anderson| Kevin J" ≠ []
  ∧ length (@authors_to_list ucd_fragment (library library_S5) 2) = 1%nat
  ∧ truthy (db_authors (library library_S5) 7) = false
  ∧ @authors_to_list ucd_fragment (library library_S5) 7 = [].
Proof.
  assert (H1 : db_authors (library library_S5) 2 = Some (py "Anderson| Kevin J"))
    by by_evaluation.
  assert (H2 : py "Anderson| Kevin J" ≠ []) by discriminate.
  assert (H3 : truthy (db_authors (library library_S5) 7) = false) by by_evaluation.
  split; [exact H1|]. split; [exact H2|].
  split; [exact (proj1 (proj2 (@authors_to_list_pieces ucd_fragment
                                  (library library_S5) 2)) _ H1 H2)|].
  split; [exact H3|].
  exact (proj1 (@authors_to_list_pieces ucd_fragment (library library_S5) 7) H3).
Defined.

(** X10: when the store holds the names of a book joined by commas, no name
    containing a comma, [authors_to_list] returns the names in order, each
    one stripped and with its vertical bars turned into commas. *)
Theorem authors_to_list_of_joined_names {U : Unicode} (db : CalibreDB) (book_id : Z)
    (names : list str) :
  db_authors db book_id = Some (str_join [ord ","] names) →
  str_join [ord ","] names ≠ [] →
  Forall (λ n, ord "," ∉ n) names →
  authors_to_list db book_id
  = (λ a, str_replace (ord "|") (ord ",") (str_strip a)) <$> names.
Proof.
  intros Hdb Hne Hnames. unfold authors_to_list. rewrite Hdb.
  destruct (str_join [ord ","] names) as [|c s] eqn:Hj; [done|].
  cbn [truthy default]. rewrite <-Hj. f_equal.
  apply str_split_sep_join; [|done]. by intros ->.
Qed.

Lemma authors_to_list_of_joined_names_witness :
  db_authors (library library_author_pairs) 1
    = Some (str_join [ord ","] [py "Jane Roe"; py "John Doe"])
  ∧ str_join [ord ","] [py "Jane Roe"; py "John Doe"] ≠ []
  ∧ Forall (λ n, ord "," ∉ n) [py "Jane Roe"; py "John Doe"]
  ∧ @authors_to_list ucd_fragment (library library_author_pairs) 1
    = (λ a, str_replace (ord "|") (ord ",") (@str_strip ucd_fragment a))
        <$> [py "Jane Roe"; py "John Doe"].
Proof.
  assert (H1 : db_authors (library library_author_pairs) 1
               = Some (str_join [ord ","] [py "Jane Roe"; py "John Doe"]))
    by by_evaluation.
  assert (H2 : str_join [ord ","] [py "Jane Roe"; py "John Doe"] ≠ []) by discriminate.
  assert (H3 : Forall (λ n, ord "," ∉ n) [py "Jane Roe"; py "John Doe"]).
  { repeat constructor; refine (bool_decide_unpack _ _); vm_compute; exact I. }
  split; [exact H1|]. split; [exact H2|]. split; [exact H3|].
  exact (@authors_to_list_of_joined_names ucd_fragment _ 1 _ H1 H2 H3).
Defined.

(** ** The fuzzy title key *)

Lemma truncate_tokens_take (toks : list str) : ∀ i,
  ∃ n, truncate_tokens i toks = take n toks
       ∧ (n ≤ length toks)%nat
       ∧ (∀ j tok, (j < n)%nat → (0 < i + j)%nat → toks !! j = Some tok →
                   tok ∉ [py "&"; py "and"; py "or"; py "aka"])
       ∧ ((n < length toks)%nat →
          (0 < i + n)%nat ∧ ∃ tok, toks !! n = Some tok
                                   ∧ tok ∈ [py "&"; py "and"; py "or"; py "aka"]).
Proof.
  induction toks as [|tok toks IH]; intros i.
  { exists 0%nat. simpl. split_and!; [done|lia|intros; lia|lia]. }
  simpl. case_bool_decide as Hstop; simpl.
  - case_bool_decide as Hi; simpl.
    + exists 0%nat. split_and!; [done|lia|intros; lia|].
      intros _. split; [lia|]. by exists tok.
    + destruct (IH (S i)) as (n & Heq & Hlen & Hbefore & Hat).
      exists (S n). split_and!; [by rewrite Heq|simpl; lia| |].
      * intros [|j] tok' Hj Hpos Htok'; [lia|]. apply (Hbefore j); [lia|lia|done].
      * intros Hn. destruct Hat as [? Htok]; [simpl in Hn; lia|]. split; [lia|done].
  - destruct (IH (S i)) as (n & Heq & Hlen & Hbefore & Hat).
    exists (S n). split_and!; [by rewrite Heq|simpl; lia| |].
    + intros [|j] tok' Hj Hpos Htok'; [by simplify_eq/=|].
      apply (Hbefore j); [lia|lia|done].
    + intros Hn. destruct Hat as [? Htok]; [simpl in Hn; lia|]. split; [lia|done].
Qed.

(** X11: without a language, the fuzzy title key is the concatenation of the
    title tokens that come before the first of [&], [and], [or], [aka] that
    is not the first token: the tokens kept after the first are none of
    these words, and the token at which the key stops is one of them. *)
Theorem fuzzy_title_match_truncates {U : Unicode} {TT : TitleTokens} (title : str) :
  ∃ n, fuzzy_title_match title None = str_join [] (take n (get_title_tokens title))
       ∧ (n ≤ length (get_title_tokens title))%nat
       ∧ (∀ j tok, (0 < j < n)%nat → get_title_tokens title !! j = Some tok →
                   tok ∉ [py "&"; py "and"; py "or"; py "aka"])
       ∧ ((n < length (get_title_tokens title))%nat →
          (0 < n)%nat ∧ ∃ tok, get_title_tokens title !! n = Some tok
                               ∧ tok ∈ [py "&"; py "and"; py "or"; py "aka"]).
Proof.
  destruct (truncate_tokens_take (get_title_tokens title) 0)
    as (n & Heq & Hlen & Hbefore & Hat).
  exists n. unfold fuzzy_title_match. cbn [truthy]. rewrite Heq.
  split_and!; [done|done| |done].
  intros j tok [Hj Hjn] Htok. apply (Hbefore j); [done|lia|done].
Qed.

(** ** Sorted results *)

Section strictly_sorted.
Context {A : Type} (lt : A → A → bool).
Hypothesis lt_connex : ∀ x y, lt x y = false → lt y x = false → x = y.

Lemma sorted_NoDup_strict (l : list A) :
  StronglySorted (le_of lt) l → NoDup l → StronglySorted (λ a b, lt a b = true) l.
Proof.
  induction 1 as [|x l Hl IH Hx]; intros Hnd; [constructor|].
  apply NoDup_cons in Hnd as [Hxl Hnd].
  constructor; [by apply IH|].
  apply Forall_forall. intros y Hy. rewrite Forall_forall in Hx.
  destruct (lt x y) eqn:Hxy; [done|].
  destruct Hxl. by rewrite (lt_connex x y Hxy (Hx y Hy)).
Qed.
End strictly_sorted.

Section sorted_sets.
Context {HO : HashOrder} `{Countable A} {PO : PyOrd A}.

Lemma sorted_set_iter_strict (c : gset A) :
  StronglySorted (λ a b, py_lt a b = true) (py_sorted py_lt (set_iter c)).
Proof.
  apply sorted_NoDup_strict.
  - apply py_lt_connex.
  - apply strict_sorted; [apply py_lt_irrefl|apply py_lt_trans|apply py_lt_connex].
  - rewrite py_sorted_perm, set_iter_perm. apply NoDup_elements.
Qed.

Lemma length_sorted_set_iter (c : gset A) :
  length (py_sorted py_lt (set_iter c)) = size c.
Proof. by rewrite py_sorted_perm, set_iter_perm. Qed.

Lemma step_entries_keeps (E : ExemptionsMap A) entries d x :
  exemptions_contains E x = false → x ∉ merge_sets E d →
  (∀ e, e ∈ entries → x ∈ fst e) →
  ∀ e, e ∈ step_entries E entries d → x ∈ fst e.
Proof.
  intros Hx Hxd Hin e. unfold step_entries.
  destruct (exemptions_contains E d) eqn:Hd; [|by apply Hin].
  assert (x ≠ d) by (intros ->; congruence).
  intros [He|He]%elem_of_app.
  - apply list_elem_of_fmap in He as (e0 & -> & He0). specialize (Hin _ He0).
    unfold upd_entry. case_bool_decide; simpl; [set_solver|done].
  - apply list_elem_of_bind in He as (e0 & He & He0). specialize (Hin _ He0).
    unfold spawn_entries in He.
    destruct (_ && _); [|by apply elem_of_nil in He].
    apply list_elem_of_fmap in He as (nd & -> & _). simpl. set_solver.
Qed.

Lemma foldl_step_entries_keeps (E : ExemptionsMap A) x l : ∀ entries,
  exemptions_contains E x = false → (∀ d, d ∈ l → x ∉ merge_sets E d) →
  (∀ e, e ∈ entries → x ∈ fst e) →
  ∀ e, e ∈ foldl (step_entries E) entries l → x ∈ fst e.
Proof.
  induction l as [|d l IH]; intros entries Hx Hl Hin; [done|].
  simpl. apply IH; [done|intros; apply Hl; by right|].
  apply step_entries_keeps; [done|apply Hl; by left|done].
Qed.
End sorted_sets.

(** X12: every list [_partition_using_exemptions] returns has at least two
    ids, in strictly ascending order, and the lists themselves come in
    ascending order. *)
Theorem partition_lists_sorted {HO : HashOrder} `{Countable A} {PO : PyOrd A}
    (data_items : list A) (exemptions : ExemptionsMap A) :
  StronglySorted (le_of list_lt) (_partition_using_exemptions data_items exemptions)
  ∧ ∀ sub, sub ∈ _partition_using_exemptions data_items exemptions →
      (2 ≤ length sub)%nat ∧ StronglySorted (λ a b, py_lt a b = true) sub.
Proof.
  split.
  - unfold _partition_using_exemptions.
    apply (strict_sorted (@py_lt _ list_PyOrd));
      [apply py_lt_irrefl|apply py_lt_trans|apply py_lt_connex].
  - intros sub (e & _ & Hsize & ->)%elem_of_partition_using_exemptions.
    split; [rewrite length_sorted_set_iter; lia|apply sorted_set_iter_strict].
Qed.

(** X13: when no id of the input is a key of the exemption map, the
    partitioner returns the distinct ids of the input as one ascending list,
    or nothing when there are fewer than two. *)
Theorem partition_without_exempted_ids {HO : HashOrder} `{Countable A} {PO : PyOrd A}
    (data_items : list A) (exemptions : ExemptionsMap A) :
  (∀ d, d ∈ data_items → exemptions_contains exemptions d = false) →
  _partition_using_exemptions data_items exemptions =
  if bool_decide (1 < size (list_to_set data_items : gset A))%nat
  then [py_sorted py_lt (set_iter (list_to_set data_items : gset A))]
  else [].
Proof. apply partition_no_exemption. Qed.

Lemma partition_without_exempted_ids_witness :
  (∀ d, d ∈ [3; 1; 2] → exemptions_contains (add_exemption 7 8 (∅ : ExemptionsMap Z)) d = false)
  ∧ @_partition_using_exemptions canonical_order Z _ _ _ [3; 1; 2] (add_exemption 7 8 ∅)
    = [[1; 2; 3]].
Proof.
  assert (H1 : ∀ d, d ∈ [3; 1; 2] →
                 exemptions_contains (add_exemption 7 8 (∅ : ExemptionsMap Z)) d = false).
  { intros d Hd. apply list_elem_of_In in Hd. simpl in Hd.
    destruct Hd as [<-|[<-|[<-|[]]]]; vm_compute; reflexivity. }
  split; [exact H1|].
  rewrite (@partition_without_exempted_ids canonical_order Z _ _ _ [3; 1; 2] _ H1).
  vm_compute. reflexivity.
Defined.

(** X14: the partitioner's result does not depend on the order in which the
    ids are handed over. *)
Theorem partition_input_order_irrelevant {HO : HashOrder} `{Countable A} {PO : PyOrd A}
    (data1 data2 : list A) (exemptions : ExemptionsMap A) :
  data1 ≡ₚ data2 →
  _partition_using_exemptions data1 exemptions
  = _partition_using_exemptions data2 exemptions.
Proof. apply partition_order_irrelevant. Qed.

Lemma partition_input_order_irrelevant_witness :
  [3; 1; 2] ≡ₚ [1; 2; 3]
  ∧ @_partition_using_exemptions canonical_order Z _ _ _ [3; 1; 2] (add_exemption 1 3 ∅)
    = @_partition_using_exemptions canonical_order Z _ _ _ [1; 2; 3] (add_exemption 1 3 ∅).
Proof.
  assert (H1 : [3; 1; 2] ≡ₚ [1; 2; 3]).
  { apply (Permutation_cons_append [1; 2] 3). }
  split; [exact H1|].
  exact (@partition_input_order_irrelevant canonical_order Z _ _ _ _ _
           (add_exemption 1 3 ∅) H1).
Defined.

(** X15: an id that has no exemptions of its own and is exempted from no id
    of the input is in every list the partitioner returns. *)
Theorem partition_keeps_unexempted_id {HO : HashOrder} `{Countable A} {PO : PyOrd A}
    (data_items : list A) (exemptions : ExemptionsMap A) (x : A) (sub : list A) :
  x ∈ data_items →
  exemptions_contains exemptions x = false →
  (∀ d, d ∈ data_items → x ∉ merge_sets exemptions d) →
  sub ∈ _partition_using_exemptions data_items exemptions →
  x ∈ sub.
Proof.
  intros Hx Hkey Hfree (e & He & _ & ->)%elem_of_partition_using_exemptions.
  apply elem_of_sorted_set_iter. revert e He. unfold final_entries.
  apply foldl_step_entries_keeps; [done| |].
  - intros d Hd. apply Hfree. by apply elem_of_py_sorted in Hd.
  - intros e ->%list_elem_of_singleton. simpl.
    by apply elem_of_list_to_set, elem_of_py_sorted.
Qed.

Lemma partition_keeps_unexempted_id_witness :
  2 ∈ [1; 2; 3]
  ∧ exemptions_contains (add_exemption 1 3 (∅ : ExemptionsMap Z)) 2 = false
  ∧ (∀ d, d ∈ [1; 2; 3] → 2 ∉ merge_sets (add_exemption 1 3 (∅ : ExemptionsMap Z)) d)
  ∧ [2; 3] ∈ @_partition_using_exemptions canonical_order Z _ _ _ [1; 2; 3]
               (add_exemption 1 3 ∅)
  ∧ 2 ∈ [2; 3].
Proof.
  assert (H1 : 2 ∈ [1; 2; 3]) by by_evaluation.
  assert (H2 : exemptions_contains (add_exemption 1 3 (∅ : ExemptionsMap Z)) 2 = false)
    by by_evaluation.
  assert (H3 : ∀ d, d ∈ [1; 2; 3] →
                 2 ∉ merge_sets (add_exemption 1 3 (∅ : ExemptionsMap Z)) d).
  { intros d Hd. apply list_elem_of_In in Hd. simpl in Hd.
    destruct Hd as [<-|[<-|[<-|[]]]]; by_evaluation. }
  assert (H4 : [2; 3] ∈ @_partition_using_exemptions canonical_order Z _ _ _ [1; 2; 3]
                          (add_exemption 1 3 ∅)) by by_evaluation.
  split; [exact H1|]. split; [exact H2|]. split; [exact H3|]. split; [exact H4|].
  exact (@partition_keeps_unexempted_id canonical_order Z _ _ _ _ _ 2 _ H1 H2 H3 H4).
Defined.

(** ** Candidate maps, sorted *)

Section sorted_candidates.
Context {HO : HashOrder} `{Countable K} {PK : PyOrd K} `{Countable V}.

Lemma sort_candidate_groups_NoDup (m : gmap K (gset V)) by_title :
  NoDup (_sort_candidate_groups m by_title).*1.
Proof.
  rewrite sort_candidate_groups_keys. apply NoDup_fst_map_to_list.
Qed.
End sorted_candidates.

(** X16: [_sort_candidate_groups] returns the entries of the map, each key
    once; sorted by title the keys are strictly ascending, and sorted by size
    the pairs (size of the set, key) are strictly descending. *)
Theorem sort_candidate_groups_sorted {HO : HashOrder} `{Countable K} {PK : PyOrd K}
    `{Countable V} (candidates_map : gmap K (gset V)) (by_title : bool) :
  (∀ k c, (k, c) ∈ _sort_candidate_groups candidates_map by_title
          ↔ candidates_map !! k = Some c)
  ∧ NoDup (_sort_candidate_groups candidates_map by_title).*1
  ∧ StronglySorted
      (λ a b, if by_title then py_lt a.1 b.1 = true
              else py_lt (Z.of_nat (size b.2), b.1) (Z.of_nat (size a.2), a.1) = true)
      (_sort_candidate_groups candidates_map by_title).
Proof.
  split; [intros k c; apply elem_of_sort_candidate_groups|].
  split; [apply sort_candidate_groups_NoDup|].
  pose proof (sort_candidate_groups_NoDup candidates_map by_title) as Hnd.
  unfold _sort_candidate_groups in *.
  rewrite <-list_fmap_compose in Hnd.
  erewrite (list_fmap_ext _ id) in Hnd; [|by intros].
  rewrite list_fmap_id in Hnd.
  destruct by_title.
  - eapply StronglySorted_fmap; [|apply sorted_NoDup_strict; [| |exact Hnd]].
    + intros x y Hxy. exact Hxy.
    + apply py_lt_connex.
    + apply strict_sorted; [apply py_lt_irrefl|apply py_lt_trans|apply py_lt_connex].
  - eapply StronglySorted_fmap; [|apply sorted_NoDup_strict; [| |exact Hnd]].
    + intros x y Hxy. exact Hxy.
    + intros x y Hxy Hyx. by injection (py_lt_connex _ _ Hyx Hxy).
    + apply strict_sorted.
      * intros x. apply py_lt_irrefl.
      * intros x y z Hxy Hyz. by apply (py_lt_trans _ _ _ Hyz).
      * intros x y Hxy Hyx. by injection (py_lt_connex _ _ Hyx Hxy).
Qed.

(** ** Loops *)

Section loops.
Context {A B : Type}.

Lemma foldl_invariant (f : A → B → A) (I : A → Prop) (l : list B) : ∀ a,
  I a → (∀ a x, x ∈ l → I a → I (f a x)) → I (foldl f a l).
Proof.
  induction l as [|x l IH]; intros a Ha Hstep; [done|].
  simpl. apply IH.
  - apply Hstep; [by left|done].
  - intros a' y Hy. apply Hstep. by right.
Qed.

Lemma foldl_reaches (f : A → B → A) (R : A → Prop) (l : list B) (x : B) : ∀ a,
  x ∈ l → (∀ a, R (f a x)) → (∀ a y, R a → R (f a y)) → R (foldl f a l).
Proof.
  induction l as [|y l IH]; intros a Hx Hat Hkeep; [by apply elem_of_nil in Hx|].
  simpl. apply elem_of_cons in Hx as [->|Hx]; [|by apply IH].
  apply foldl_invariant; [apply Hat|]. intros a' z _. apply Hkeep.
Qed.

Lemma foldl_raising_None (f : A → B → option A) (l : list B) :
  foldl (λ acc x, a ← acc; f a x) None l = None.
Proof. by induction l. Qed.

Lemma foldl_raising_cons (f : A → B → option A) (a : A) (x : B) (l : list B) :
  foldl_raising f a (x :: l) = f a x ≫= λ a', foldl_raising f a' l.
Proof.
  unfold foldl_raising. simpl. destruct (f a x); simpl; [done|apply foldl_raising_None].
Qed.

Lemma foldl_raising_invariant (f : A → B → option A) (I : A → Prop) (l : list B) :
  ∀ a r, I a → (∀ a x a', x ∈ l → I a → f a x = Some a' → I a') →
  foldl_raising f a l = Some r → I r.
Proof.
  induction l as [|x l IH]; intros a r Ha Hstep.
  { by intros [= <-]. }
  rewrite foldl_raising_cons. destruct (f a x) as [a'|] eqn:Hf; simpl; [|done].
  apply IH.
  - apply (Hstep a x); [by left|done|done].
  - intros a'' y r' Hy. apply Hstep. by right.
Qed.

Lemma foldl_raising_reaches (f : A → B → option A) (R : A → Prop) (l : list B) (x : B) :
  ∀ a r, x ∈ l → (∀ a a', f a x = Some a' → R a') →
  (∀ a y a', R a → f a y = Some a' → R a') →
  foldl_raising f a l = Some r → R r.
Proof.
  induction l as [|y l IH]; intros a r Hx Hat Hkeep; [by apply elem_of_nil in Hx|].
  rewrite foldl_raising_cons. destruct (f a y) as [a'|] eqn:Hf; simpl; [|done].
  apply elem_of_cons in Hx as [->|Hx]; [|by apply IH].
  apply foldl_raising_invariant; [by apply (Hat a)|].
  intros a'' z r' _. apply Hkeep.
Qed.

Lemma foldl_raising_is_Some (f : A → B → option A) (l : list B) : ∀ a,
  (∀ a x, x ∈ l → is_Some (f a x)) → is_Some (foldl_raising f a l).
Proof.
  induction l as [|x l IH]; intros a Hf; [by eexists|].
  rewrite foldl_raising_cons. destruct (Hf a x) as [a' ->]; [by left|]. simpl.
  apply IH. intros a'' y Hy. apply Hf. by right.
Qed.

Lemma foldl_raising_raises (f : A → B → option A) (l : list B) (x : B) : ∀ a,
  x ∈ l → (∀ a, f a x = None) → foldl_raising f a l = None.
Proof.
  induction l as [|y l IH]; intros a Hx Hf; [by apply elem_of_nil in Hx|].
  rewrite foldl_raising_cons. apply elem_of_cons in Hx as [->|Hx].
  - by rewrite Hf.
  - destruct (f a y); simpl; [by apply IH|done].
Qed.
End loops.

Lemma strongly_sorted_impl {A} (R1 R2 : A → A → Prop) (l : list A) :
  (∀ x y, R1 x y → R2 x y) → StronglySorted R1 l → StronglySorted R2 l.
Proof.
  intros HR. induction 1 as [|x l Hl IH Hx]; constructor; [done|].
  eapply Forall_impl; [done|]. intros y. apply HR.
Qed.

(** ** Numbered groups *)

Lemma lookup_number_groups (subs : list (list Z)) : ∀ n i grp,
  number_groups n subs !! i = Some grp →
  group_id grp = n + Z.of_nat i + 1
  ∧ ∃ sub, sub ∈ subs ∧ book_ids grp = py_sorted py_lt sub.
Proof.
  induction subs as [|s subs IH]; intros n [|i] grp; simpl; try done.
  - intros [= <-]. simpl. split; [lia|]. exists s. split; [by left|done].
  - intros Hl. destruct (IH _ _ _ Hl) as [Hid (sub & Hs & Hb)].
    split; [lia|]. exists sub. split; [by right|done].
Qed.

Lemma number_groups_complete (subs : list (list Z)) (sub : list Z) : ∀ n,
  sub ∈ subs → ∃ grp, grp ∈ number_groups n subs ∧ book_ids grp = py_sorted py_lt sub.
Proof.
  induction subs as [|s subs IH]; intros n Hsub; [by apply elem_of_nil in Hsub|].
  apply elem_of_cons in Hsub as [->|Hsub]; simpl.
  - eexists. split; [by left|done].
  - destruct (IH (n + 1) Hsub) as (grp & Hg & Hb). exists grp. split; [by right|done].
Qed.

Section book_groups.
Context {HO : HashOrder}.

Lemma partition_list_well_formed `{Countable A} {PO : PyOrd A}
    (data_items : list A) (E : ExemptionsMap A) (sub : list A) :
  sub ∈ _partition_using_exemptions data_items E →
  (2 ≤ length sub)%nat ∧ StronglySorted (λ a b, py_lt a b = true) sub
  ∧ py_sorted py_lt sub = sub.
Proof.
  intros (e & _ & Hsize & ->)%elem_of_partition_using_exemptions.
  split; [rewrite length_sorted_set_iter; lia|].
  split; [apply sorted_set_iter_strict|apply py_sorted_idemp].
Qed.

Lemma lookup_finish_groups `{Countable K} {PK : PyOrd K} (self : DuplicateFinder)
    (cm : gmap K (gset Z)) (sort_by_title : bool) (i : nat) (grp : DuplicateGroup) :
  finish_groups self cm sort_by_title !! i = Some grp →
  group_id grp = Z.of_nat i + 1
  ∧ (2 ≤ length (book_ids grp))%nat
  ∧ StronglySorted Z.lt (book_ids grp)
  ∧ ∃ k c, cm !! k = Some c ∧ ∀ b, b ∈ book_ids grp → b ∈ c.
Proof.
  rewrite finish_groups_spec. unfold groups_of_candidates.
  intros [Hid (sub & Hsub & Hb)]%lookup_number_groups.
  split; [lia|].
  apply list_elem_of_filter in Hsub as [_ Hsub].
  apply list_elem_of_bind in Hsub as (c & Hsub & Hc).
  destruct (partition_list_well_formed _ _ _ Hsub) as (Hlen & Hsorted & Hidem).
  rewrite Hb, Hidem. split; [done|]. split.
  - eapply strongly_sorted_impl; [|done]. intros x y. apply Z.ltb_lt.
  - apply elem_of_pruned_candidates in Hc as (k & Hk & _).
    exists k, c. split; [done|]. intros b Hbsub.
    pose proof (partition_elements_from_input _ _ _ _ Hsub Hbsub) as Hin.
    by rewrite set_iter_perm, elem_of_elements in Hin.
Qed.

Lemma finish_groups_complete `{Countable K} {PK : PyOrd K} (self : DuplicateFinder)
    (cm : gmap K (gset Z)) (sort_by_title : bool) (k : K) (c : gset Z) :
  book_exemptions self = ∅ → cm !! k = Some c → (2 ≤ size c)%nat →
  ∃ grp, grp ∈ finish_groups self cm sort_by_title ∧ ∀ b, b ∈ c → b ∈ book_ids grp.
Proof.
  intros HE Hk Hsize. rewrite finish_groups_spec, HE.
  unfold groups_of_candidates, pruned_candidates.
  assert (Hc : c ∈ (_sort_candidate_groups (_shrink_candidates_map cm) sort_by_title).*2).
  { apply list_elem_of_fmap. exists (k, c). split; [done|].
    by apply elem_of_sort_candidate_groups, lookup_shrink_candidates_map. }
  apply (elem_of_py_sorted (λ x y : gset Z, (size x <? size y)%nat)) in Hc.
  apply prune_subsets_cover in Hc as (c' & Hc' & Hcc').
  assert (Hsize' : (1 < size c')%nat).
  { apply subseteq_size in Hcc'. lia. }
  destruct (number_groups_complete
              (filter (λ sub, 1 < length sub)%nat
                 (_clean_dup_groups
                    (_sort_candidate_groups (_shrink_candidates_map cm) sort_by_title)
                  ≫= λ book_ids, _partition_using_exemptions (set_iter book_ids) ∅))
              (py_sorted py_lt (set_iter c')) 0) as (grp & Hgrp & Hb).
  { apply list_elem_of_filter. split; [rewrite length_sorted_set_iter; lia|].
    apply list_elem_of_bind. exists c'. split; [|done].
    rewrite partition_empty_exemptions, bool_decide_eq_true_2 by done. by left. }
  exists grp. split; [done|]. intros b Hbc.
  rewrite Hb, py_sorted_idemp. apply elem_of_sorted_set_iter. set_solver.
Qed.
End book_groups.

(** ** What the candidate maps hold *)

Section candidate_contents.
Context `{Countable K} `{Countable V}.

Lemma add_candidate_invariant (P : K → V → Prop) (m : gmap K (gset V)) k v :
  (∀ k' v', v' ∈ default ∅ (m !! k') → P k' v') → P k v →
  ∀ k' v', v' ∈ default ∅ (add_candidate m k v !! k') → P k' v'.
Proof.
  intros Hm HP k' v'. unfold add_candidate.
  destruct (decide (k = k')) as [<-|Hne].
  - rewrite lookup_insert_eq. simpl.
    intros [?|Hv]%elem_of_union; [auto|].
    apply elem_of_singleton in Hv as ->. done.
  - rewrite lookup_insert_ne by done. apply Hm.
Qed.

Lemma add_candidate_keeps (m : gmap K (gset V)) k v k' v' :
  v' ∈ default ∅ (m !! k') → v' ∈ default ∅ (add_candidate m k v !! k').
Proof.
  unfold add_candidate. destruct (decide (k = k')) as [<-|Hne].
  - rewrite lookup_insert_eq. simpl. set_solver.
  - by rewrite lookup_insert_ne.
Qed.

Lemma add_candidate_adds (m : gmap K (gset V)) k v :
  v ∈ default ∅ (add_candidate m k v !! k).
Proof. unfold add_candidate. rewrite lookup_insert_eq. simpl. set_solver. Qed.

Lemma default_empty_lookup (m : gmap K (gset V)) k v :
  v ∈ default ∅ (m !! k) → ∃ c, m !! k = Some c ∧ v ∈ c.
Proof. destruct (m !! k) as [c|]; simpl; [by exists c|set_solver]. Qed.
End candidate_contents.

Section finders.
Context {U : Unicode} {TT : TitleTokens} {HO : HashOrder}.

(** *** Identifiers *)

Lemma identifier_candidates_sound (db : CalibreDB) (ids : list Z) (identifier_type : str)
    (k : str) (b : Z) :
  b ∈ default ∅ (_find_identifier_candidates db ids identifier_type !! k) →
  b ∈ ids ∧ k ≠ [] ∧ db_get_identifiers db b !! identifier_type = Some k.
Proof.
  revert k b. unfold _find_identifier_candidates.
  refine (foldl_invariant _
            (λ cm : gmap str (gset Z), ∀ k b, b ∈ default ∅ (cm !! k) →
               b ∈ ids ∧ k ≠ [] ∧ db_get_identifiers db b !! identifier_type = Some k)
            _ _ _ _).
  - intros k b. rewrite lookup_empty. simpl. set_solver.
  - intros cm x Hx Hinv. simpl. case_bool_decide as Hid; [|done].
    apply add_candidate_invariant; [done|].
    split; [done|]. split; [done|].
    destruct (db_get_identifiers db x !! identifier_type); [done|by destruct Hid].
Qed.

Lemma identifier_candidates_complete (db : CalibreDB) (ids : list Z)
    (identifier_type : str) (k : str) (b : Z) :
  b ∈ ids → k ≠ [] → db_get_identifiers db b !! identifier_type = Some k →
  b ∈ default ∅ (_find_identifier_candidates db ids identifier_type !! k).
Proof.
  intros Hb Hk Hid. unfold _find_identifier_candidates.
  refine (foldl_reaches _ (λ cm : gmap str (gset Z), b ∈ default ∅ (cm !! k))
            _ b _ Hb _ _).
  - intros cm. simpl. rewrite Hid. simpl.
    rewrite bool_decide_eq_true_2 by done. apply add_candidate_adds.
  - intros cm y Hcm. simpl. case_bool_decide; [|done]. by apply add_candidate_keeps.
Qed.

(** *** Titles and authors *)

Lemma title_author_step_sound (db : CalibreDB) (ids : list Z)
    (title_fn : option (str → option str → str))
    (author_fn : option (str → str * option str)) (include_languages : bool)
    (cm cm' : gmap str (gset Z)) (x : Z) :
  x ∈ ids →
  (∀ k b, b ∈ default ∅ (cm !! k) →
     b ∈ ids ∧ truthy (db_title db b) = true
     ∧ ∃ tf, title_fn = Some tf
             ∧ (author_fn = None →
                k = tf (default [] (db_title db b))
                      (if include_languages then db_languages db b else None))) →
  title_author_step db title_fn author_fn include_languages cm x = Some cm' →
  ∀ k b, b ∈ default ∅ (cm' !! k) →
     b ∈ ids ∧ truthy (db_title db b) = true
     ∧ ∃ tf, title_fn = Some tf
             ∧ (author_fn = None →
                k = tf (default [] (db_title db b))
                      (if include_languages then db_languages db b else None)).
Proof.
  intros Hx Hinv. unfold title_author_step.
  destruct (truthy (db_title db x)) eqn:Ht; simpl; [|by intros [= <-]].
  destruct title_fn as [tf|]; simpl; [|done].
  destruct author_fn as [af|].
  - case_bool_decide.
    + intros [= <-].
      refine (foldl_invariant _
                (λ cm : gmap str (gset Z), ∀ k b, b ∈ default ∅ (cm !! k) → _) _ _ Hinv _).
      intros cm0 a _ Hcm0. unfold title_author_insert.
      destruct (_ && _).
      * apply add_candidate_invariant; [apply add_candidate_invariant; [done|]|];
          (split; [done|]; split; [done|]; by exists tf).
      * apply add_candidate_invariant; [done|].
        split; [done|]. split; [done|]. by exists tf.
    + intros [= <-]. apply add_candidate_invariant; [done|].
      split; [done|]. split; [done|]. by exists tf.
  - intros [= <-]. apply add_candidate_invariant; [done|].
    split; [done|]. split; [done|]. by exists tf.
Qed.

Lemma title_author_candidates_sound (g : SoundexLengths) (db : CalibreDB) (ids : list Z)
    (title_match author_match : str) (include_languages : bool)
    (cm : gmap str (gset Z)) (k : str) (b : Z) :
  _find_title_author_candidates g db ids title_match author_match include_languages
    = Some cm →
  b ∈ default ∅ (cm !! k) →
  b ∈ ids ∧ truthy (db_title db b) = true
  ∧ ∃ tf, get_title_algorithm_fn g title_match = Some tf
          ∧ ((author_match = py "ignore" ∨ get_author_algorithm_fn g author_match = None) →
             k = tf (default [] (db_title db b))
                   (if include_languages then db_languages db b else None)).
Proof.
  unfold _find_title_author_candidates. intros Hfold Hb.
  assert (Hinv : b ∈ ids ∧ truthy (db_title db b) = true
    ∧ ∃ tf, get_title_algorithm_fn g title_match = Some tf
      ∧ ((if bool_decide (author_match ≠ py "ignore")
          then get_author_algorithm_fn g author_match else None) = None →
         k = tf (default [] (db_title db b))
               (if include_languages then db_languages db b else None))).
  { revert k b Hb.
    refine (foldl_raising_invariant _
              (λ cm : gmap str (gset Z), ∀ k b, b ∈ default ∅ (cm !! k) → _)
              _ _ _ _ _ Hfold).
    - intros k b. rewrite lookup_empty. simpl. set_solver.
    - intros cm0 x cm1 Hx Hcm0 Hstep. by eapply title_author_step_sound. }
  destruct Hinv as (? & ? & tf & ? & Hk). split; [done|]. split; [done|].
  exists tf. split; [done|]. intros Ham. apply Hk.
  case_bool_decide as Hne; [|done]. by destruct Ham.
Qed.

Lemma title_candidates_complete (db : CalibreDB) (ids : list Z)
    (tf : str → option str → str) (include_languages : bool)
    (cm : gmap str (gset Z)) (b : Z) :
  foldl_raising (title_author_step db (Some tf) None include_languages) ∅ ids = Some cm →
  b ∈ ids → truthy (db_title db b) = true →
  b ∈ default ∅ (cm !! tf (default [] (db_title db b))
                         (if include_languages then db_languages db b else None)).
Proof.
  intros Hfold Hb Ht.
  refine (foldl_raising_reaches _
            (λ cm : gmap str (gset Z), b ∈ default ∅ (cm !! _)) _ b _ _ Hb _ _ Hfold).
  - intros cm0 cm1. unfold title_author_step. rewrite Ht. simpl.
    intros [= <-]. apply add_candidate_adds.
  - intros cm0 y cm1 Hcm0. unfold title_author_step.
    destruct (truthy (db_title db y)); simpl; intros [= <-]; [|done].
    by apply add_candidate_keeps.
Qed.
End finders.

Section finders_binary.
Context {U : Unicode} {TT : TitleTokens} {HO : HashOrder}.

(** *** Files *)

Lemma binary_size_map_sound (db : CalibreDB) (ids : list Z) (size : Z) (file : Z * str) :
  file ∈ default ∅ (foldl (binary_size_step db) ∅ ids !! size) →
  file.1 ∈ ids
  ∧ file.2 ∈ str_split_sep (ord ",") (default [] (db_formats db file.1))
  ∧ db_format_size db file.1 file.2 = Some size.
Proof.
  revert size file.
  refine (foldl_invariant _
            (λ sm : gmap Z (gset (Z * str)), ∀ size file, file ∈ default ∅ (sm !! size) →
               file.1 ∈ ids
               ∧ file.2 ∈ str_split_sep (ord ",") (default [] (db_formats db file.1))
               ∧ db_format_size db file.1 file.2 = Some size)
            _ _ _ _).
  - intros size file. rewrite lookup_empty. simpl. set_solver.
  - intros sm x Hx Hsm. unfold binary_size_step.
    destruct (negb (truthy (db_formats db x))); [done|].
    refine (foldl_invariant _
              (λ sm : gmap Z (gset (Z * str)), ∀ size file,
                 file ∈ default ∅ (sm !! size) → _) _ _ Hsm _).
    intros sm0 fmt Hfmt Hsm0. simpl.
    destruct (db_format_size db x fmt) as [sz|] eqn:Hsz; [|done].
    apply (add_candidate_invariant
             (λ size (file : Z * str), file.1 ∈ ids
                 ∧ file.2 ∈ str_split_sep (ord ",") (default [] (db_formats db file.1))
                 ∧ db_format_size db file.1 file.2 = Some size)); [done|].
    simpl. done.
Qed.

Lemma foldl_insert_entry_sound (l : list ((str * Z) * Z)) : ∀ cm k b,
  b ∈ default ∅ (foldl insert_entry cm l !! k) →
  b ∈ default ∅ (cm !! k) ∨ (k, b) ∈ l.
Proof.
  induction l as [|[k0 b0] l IH]; intros cm k b; simpl; [by left|].
  intros [Hb|Hb]%IH; [|right; by right].
  unfold insert_entry in Hb. simpl in Hb. rewrite lookup_add_candidate in Hb.
  case_decide as Hk; [|by left]. subst.
  apply elem_of_union in Hb as [Hb|Hb]; [by left|].
  apply elem_of_singleton in Hb as ->. right. by left.
Qed.

Lemma binary_candidates_sound (db : CalibreDB) (ids : list Z) (h : str) (size : Z) (b : Z) :
  b ∈ default ∅ (_find_binary_candidates db ids !! (h, size)) →
  b ∈ ids ∧ h ≠ []
  ∧ ∃ fmt, fmt ∈ str_split_sep (ord ",") (default [] (db_formats db b))
           ∧ db_format_size db b fmt = Some size
           ∧ db_format_hash db b fmt = Some h.
Proof.
  unfold _find_binary_candidates. rewrite foldl_binary_groups.
  intros [Hb|Hb]%foldl_insert_entry_sound.
  { rewrite lookup_empty in Hb. simpl in Hb. set_solver. }
  apply list_elem_of_bind in Hb as ([sz files] & Hb & Hkv). simpl in Hb.
  apply list_elem_of_bind in Hb as ([b' fmt] & Hb & Hfile).
  rewrite dict_iter_perm in Hkv.
  apply elem_of_map_to_list, map_lookup_filter_Some in Hkv as [Hkv _].
  rewrite set_iter_perm, elem_of_elements in Hfile.
  unfold hash_entries in Hb. simpl in Hb.
  destruct (db_format_hash db b' fmt) as [[|c fh]|] eqn:Hh; simpl in Hb;
    try by apply elem_of_nil in Hb.
  apply list_elem_of_singleton in Hb. injection Hb as -> -> ->.
  destruct (binary_size_map_sound db ids sz (b', fmt)) as (? & ? & ?).
  { by rewrite Hkv. }
  split; [done|]. split; [done|]. by exists fmt.
Qed.
End finders_binary.

Section finders_authors.
Context {U : Unicode} {TT : TitleTokens} {HO : HashOrder}.

(** *** Author names *)

Lemma author_only_insert_books (author_fn : option (str → str * option str))
    (book_id : Z) (st st' : gmap str (gset str) * gmap str (gset Z)) (author : str) :
  author_only_insert author_fn book_id st author = Some st' →
  st'.2 = add_candidate st.2 author book_id.
Proof.
  unfold author_only_insert. destruct author_fn as [af|]; simpl; [|done].
  destruct (_ && _); by intros [= <-].
Qed.

Lemma author_books_sound (db : CalibreDB) (ids : list Z)
    (author_fn : option (str → str * option str))
    (st : gmap str (gset str) * gmap str (gset Z)) (a : str) (b : Z) :
  foldl_raising
    (λ st book_id,
       foldl_raising (author_only_insert author_fn book_id) st (authors_to_list db book_id))
    (∅, ∅) ids = Some st →
  b ∈ default ∅ (st.2 !! a) → b ∈ ids ∧ a ∈ authors_to_list db b.
Proof.
  intros Hfold. revert a b.
  refine (foldl_raising_invariant _
            (λ st : gmap str (gset str) * gmap str (gset Z),
               ∀ a b, b ∈ default ∅ (st.2 !! a) → b ∈ ids ∧ a ∈ authors_to_list db b)
            _ _ _ _ _ Hfold).
  - intros a b. simpl. rewrite lookup_empty. simpl. set_solver.
  - intros st0 x st1 Hx Hst0.
    refine (foldl_raising_invariant _
              (λ st : gmap str (gset str) * gmap str (gset Z),
                 ∀ a b, b ∈ default ∅ (st.2 !! a) → _) _ _ _ Hst0 _).
    intros st2 a st3 Ha Hst2 Hins. rewrite (author_only_insert_books _ _ _ _ _ Hins).
    by apply add_candidate_invariant.
Qed.

Lemma elem_of_union_authors (abm : gmap str (gset Z)) (partition : list str) :
  ∀ (acc : gset Z) b,
  b ∈ foldl (λ acc author, acc ∪ default ∅ (abm !! author)) acc partition →
  b ∈ acc ∨ ∃ a, a ∈ partition ∧ b ∈ default ∅ (abm !! a).
Proof.
  induction partition as [|a0 partition IH]; intros acc b; simpl; [by left|].
  intros [[Hb|Hb]%elem_of_union|(a & Ha & Hb)]%IH.
  - by left.
  - right. exists a0. split; [by left|done].
  - right. exists a. split; [by right|done].
Qed.

Lemma author_only_partition_well_formed (abm : gmap str (gset Z)) (P : Z → Prop)
    (st : list DuplicateGroup * Z) (partition : list str) :
  (∀ a b, b ∈ default ∅ (abm !! a) → P b) →
  (st.2 = Z.of_nat (length st.1)
   ∧ ∀ i grp, st.1 !! i = Some grp →
       group_id grp = Z.of_nat i + 1 ∧ (2 ≤ length (book_ids grp))%nat
       ∧ StronglySorted Z.lt (book_ids grp) ∧ ∀ b, b ∈ book_ids grp → P b) →
  (author_only_partition abm st partition).2
    = Z.of_nat (length (author_only_partition abm st partition).1)
  ∧ ∀ i grp, (author_only_partition abm st partition).1 !! i = Some grp →
      group_id grp = Z.of_nat i + 1 ∧ (2 ≤ length (book_ids grp))%nat
      ∧ StronglySorted Z.lt (book_ids grp) ∧ ∀ b, b ∈ book_ids grp → P b.
Proof.
  intros Habm [Hn Hgroups]. unfold author_only_partition.
  case_bool_decide; [|done]. case_bool_decide as Hsize; [|done]. cbn [fst snd].
  split; [rewrite length_app; cbn [length]; lia|].
  intros i grp [Hi|[Hi Hgrp]]%lookup_app_Some; [by apply Hgroups|].
  apply list_lookup_singleton_Some in Hgrp as [Hi' <-]. cbn [group_id book_ids].
  split; [lia|]. split; [rewrite length_sorted_set_iter; lia|]. split.
  - eapply strongly_sorted_impl; [|apply sorted_set_iter_strict].
    intros x y. apply Z.ltb_lt.
  - intros b [Hb|(a & _ & Hb)]%elem_of_sorted_set_iter%elem_of_union_authors;
      [set_solver|by eapply Habm].
Qed.

Lemma lookup_author_only_duplicates (g : SoundexLengths) (self : DuplicateFinder)
    (ids : list Z) (author_match : str) (sort_by_title : bool)
    (groups : list DuplicateGroup) (i : nat) (grp : DuplicateGroup) :
  _find_author_only_duplicates g self ids author_match sort_by_title = Some groups →
  groups !! i = Some grp →
  group_id grp = Z.of_nat i + 1 ∧ (2 ≤ length (book_ids grp))%nat
  ∧ StronglySorted Z.lt (book_ids grp)
  ∧ ∀ b, b ∈ book_ids grp → b ∈ ids ∧ authors_to_list (db self) b ≠ [].
Proof.
  unfold _find_author_only_duplicates.
  destruct (foldl_raising _ _ ids) as [st|] eqn:Hfold; simpl; [|done].
  intros [= <-]. revert i grp.
  refine (proj2 (foldl_invariant _
            (λ st' : list DuplicateGroup * Z,
               st'.2 = Z.of_nat (length st'.1)
               ∧ ∀ i grp, st'.1 !! i = Some grp →
                   group_id grp = Z.of_nat i + 1 ∧ (2 ≤ length (book_ids grp))%nat
                   ∧ StronglySorted Z.lt (book_ids grp)
                   ∧ ∀ b, b ∈ book_ids grp →
                       b ∈ ids ∧ authors_to_list (db self) b ≠ [])
            _ _ _ _)).
  - split; [done|]. intros i grp Hi. cbn [fst] in Hi. by rewrite lookup_nil in Hi.
  - intros st0 author_group _ Hst0.
    refine (foldl_invariant _
              (λ st' : list DuplicateGroup * Z,
                 st'.2 = Z.of_nat (length st'.1) ∧ _) _ _ Hst0 _).
    intros st1 partition _ Hst1.
    apply (author_only_partition_well_formed _
             (λ b, b ∈ ids ∧ authors_to_list (db self) b ≠ [])); [|done].
    intros a b Hb. destruct (author_books_sound _ _ _ _ _ _ Hfold Hb) as [? Ha].
    split; [done|]. intros Hnil. rewrite Hnil in Ha. by apply elem_of_nil in Ha.
Qed.

(** *** All searches *)

Lemma find_duplicates_well_formed (g : SoundexLengths) (self : DuplicateFinder)
    (search_type title_match author_match identifier_type : str)
    (include_languages sort_by_title : bool) (selection : option (list Z))
    (groups : list DuplicateGroup) (i : nat) (grp : DuplicateGroup) :
  find_duplicates g self search_type title_match author_match identifier_type
    include_languages sort_by_title selection = Some groups →
  groups !! i = Some grp →
  group_id grp = Z.of_nat i + 1 ∧ (2 ≤ length (book_ids grp))%nat
  ∧ StronglySorted Z.lt (book_ids grp)
  ∧ ∀ b, b ∈ book_ids grp → b ∈ default (db_all_ids (db self)) selection.
Proof.
  unfold find_duplicates.
  replace (match selection with Some l => l | None => db_all_ids (db self) end)
    with (default (db_all_ids (db self)) selection) by (by destruct selection).
  generalize (default (db_all_ids (db self)) selection). intros ids.
  repeat case_bool_decide.
  - intros [= <-] (Hid & Hlen & Hs & k & c & Hk & Hc)%lookup_finish_groups.
    split; [done|]. split; [done|]. split; [done|]. intros b Hb%Hc.
    eapply (identifier_candidates_sound _ _ _ k). by rewrite Hk.
  - intros [= <-] (Hid & Hlen & Hs & [h size] & c & Hk & Hc)%lookup_finish_groups.
    split; [done|]. split; [done|]. split; [done|]. intros b Hb%Hc.
    eapply (binary_candidates_sound _ _ h size). by rewrite Hk.
  - intros Hfind Hi.
    destruct (lookup_author_only_duplicates _ _ _ _ _ _ _ _ Hfind Hi)
      as (Hid & Hlen & Hs & Hb).
    split; [done|]. split; [done|]. split; [done|]. intros b Hbg. by apply Hb.
  - destruct (_find_title_author_candidates _ _ _ _ _ _) as [cm|] eqn:Hcm; [|done].
    simpl.
    intros [= <-] (Hid & Hlen & Hs & k & c & Hk & Hc)%lookup_finish_groups.
    split; [done|]. split; [done|]. split; [done|]. intros b Hb%Hc.
    eapply (title_author_candidates_sound _ _ _ _ _ _ _ k); [done|]. by rewrite Hk.
Qed.
End finders_authors.

(** ** The groups of a search *)

(** X17: the groups [find_duplicates] returns are numbered 1, 2, 3, ... in
    the order of the list, whatever the search type. *)
Theorem find_duplicates_numbers_groups {U : Unicode} {TT : TitleTokens} {HO : HashOrder}
    (g : SoundexLengths) (self : DuplicateFinder)
    (search_type title_match author_match identifier_type : str)
    (include_languages sort_by_title : bool) (selection : option (list Z))
    (groups : list DuplicateGroup) (i : nat) (grp : DuplicateGroup) :
  find_duplicates g self search_type title_match author_match identifier_type
    include_languages sort_by_title selection = Some groups →
  groups !! i = Some grp →
  group_id grp = Z.of_nat i + 1.
Proof.
  intros Hfind Hi. by destruct (find_duplicates_well_formed _ _ _ _ _ _ _ _ _ _ _ _ Hfind Hi).
Qed.

Lemma find_duplicates_numbers_groups_witness :
  run_example library_triple (add_exemption 1 3 ∅)
    "title_author" "identical" "identical" true
  = Some [ {| group_id := 1; book_ids := [1; 2]; match_key := [] |};
           {| group_id := 2; book_ids := [2; 3]; match_key := [] |} ]
  ∧ group_id {| group_id := 2; book_ids := [2; 3]; match_key := [] |} = Z.of_nat 1 + 1.
Proof.
  assert (H1 : run_example library_triple (add_exemption 1 3 ∅)
                 "title_author" "identical" "identical" true
               = Some [ {| group_id := 1; book_ids := [1; 2]; match_key := [] |};
                        {| group_id := 2; book_ids := [2; 3]; match_key := [] |} ])
    by (vm_compute; reflexivity).
  split; [exact H1|].
  exact (find_duplicates_numbers_groups (U:=ucd_fragment) (TT:=no_title_tokens)
           (HO:=canonical_order) initial_lengths
           (finder library_triple (add_exemption 1 3 ∅))
           (py "title_author") (py "identical") (py "identical") (py "isbn")
           false true None _ 1%nat _ H1 eq_refl).
Defined.

(** X18: every group has at least two books, and its book ids are in
    strictly ascending order, whatever the search type. *)
Theorem find_duplicates_groups_ascending {U : Unicode} {TT : TitleTokens} {HO : HashOrder}
    (g : SoundexLengths) (self : DuplicateFinder)
    (search_type title_match author_match identifier_type : str)
    (include_languages sort_by_title : bool) (selection : option (list Z))
    (groups : list DuplicateGroup) (grp : DuplicateGroup) :
  find_duplicates g self search_type title_match author_match identifier_type
    include_languages sort_by_title selection = Some groups →
  grp ∈ groups →
  (2 ≤ length (book_ids grp))%nat ∧ StronglySorted Z.lt (book_ids grp).
Proof.
  intros Hfind [i Hi]%list_elem_of_lookup_1.
  destruct (find_duplicates_well_formed _ _ _ _ _ _ _ _ _ _ _ _ Hfind Hi)
    as (_ & ? & ? & _).
  done.
Qed.

Lemma find_duplicates_groups_ascending_witness :
  run_example library_author_pairs ∅ "author_only" "identical" "identical" true
  = Some [ {| group_id := 1; book_ids := [1; 2];
              match_key := fragment_str_of_list [py "Jane Roe"; py "jane roe"] |};
           {| group_id := 2; book_ids := [1; 2; 3];
              match_key := fragment_str_of_list [py "John Doe"; py "john doe"] |} ]
  ∧ (2 ≤ length [1; 2; 3])%nat ∧ StronglySorted Z.lt [1; 2; 3].
Proof.
  assert (H1 : run_example library_author_pairs ∅ "author_only" "identical" "identical" true
               = Some [ {| group_id := 1; book_ids := [1; 2];
                           match_key := fragment_str_of_list [py "Jane Roe"; py "jane roe"] |};
                        {| group_id := 2; book_ids := [1; 2; 3];
                           match_key := fragment_str_of_list [py "John Doe"; py "john doe"] |} ])
    by (vm_compute; reflexivity).
  split; [exact H1|].
  exact (find_duplicates_groups_ascending (U:=ucd_fragment) (TT:=no_title_tokens)
           (HO:=canonical_order) initial_lengths (finder library_author_pairs ∅)
           (py "author_only") (py "identical") (py "identical") (py "isbn")
           false true None _
           {| group_id := 2; book_ids := [1; 2; 3];
              match_key := fragment_str_of_list [py "John Doe"; py "john doe"] |}
           H1 (list_elem_of_further _ _ _ (list_elem_of_here _ _))).
Defined.

(** X19: every book of a group is one of the books the search was asked to
    consider: the given list, or all books of the library when none is
    given. *)
Theorem find_duplicates_books_from_selection {U : Unicode} {TT : TitleTokens}
    {HO : HashOrder} (g : SoundexLengths) (self : DuplicateFinder)
    (search_type title_match author_match identifier_type : str)
    (include_languages sort_by_title : bool) (selection : option (list Z))
    (groups : list DuplicateGroup) (grp : DuplicateGroup) (b : Z) :
  find_duplicates g self search_type title_match author_match identifier_type
    include_languages sort_by_title selection = Some groups →
  grp ∈ groups →
  b ∈ book_ids grp →
  b ∈ default (db_all_ids (db self)) selection.
Proof.
  intros Hfind [i Hi]%list_elem_of_lookup_1.
  destruct (find_duplicates_well_formed _ _ _ _ _ _ _ _ _ _ _ _ Hfind Hi)
    as (_ & _ & _ & Hb).
  apply Hb.
Qed.

Lemma find_duplicates_books_from_selection_witness :
  @find_duplicates ucd_fragment no_title_tokens canonical_order initial_lengths
    (finder library_triple ∅) (py "title_author") (py "identical") (py "identical")
    (py "isbn") false true (Some [3; 1])
  = Some [ {| group_id := 1; book_ids := [1; 3]; match_key := [] |} ]
  ∧ 3 ∈ [3; 1].
Proof.
  assert (H1 : @find_duplicates ucd_fragment no_title_tokens canonical_order
                 initial_lengths (finder library_triple ∅) (py "title_author")
                 (py "identical") (py "identical") (py "isbn") false true (Some [3; 1])
               = Some [ {| group_id := 1; book_ids := [1; 3]; match_key := [] |} ])
    by (vm_compute; reflexivity).
  split; [exact H1|].
  exact (find_duplicates_books_from_selection (U:=ucd_fragment) (TT:=no_title_tokens)
           (HO:=canonical_order) initial_lengths (finder library_triple ∅)
           (py "title_author") (py "identical") (py "identical") (py "isbn")
           false true (Some [3; 1]) _
           {| group_id := 1; book_ids := [1; 3]; match_key := [] |} 3
           H1 (list_elem_of_here _ _)
           (list_elem_of_further _ _ _ (list_elem_of_here _ _))).
Defined.

(** ** Policies that are not known *)

Section unknown_policies.
Context {U : Unicode} {TT : TitleTokens} {HO : HashOrder}.

Lemma title_author_candidates_raise (g : SoundexLengths) (db : CalibreDB) (ids : list Z)
    (title_match author_match : str) (include_languages : bool) :
  _find_title_author_candidates g db ids title_match author_match include_languages = None
  ↔ get_title_algorithm_fn g title_match = None
    ∧ ∃ b, b ∈ ids ∧ truthy (db_title db b) = true.
Proof.
  unfold _find_title_author_candidates.
  set (author_fn := if bool_decide (author_match ≠ py "ignore")
                    then get_author_algorithm_fn g author_match else None).
  split.
  - intros Hnone.
    destruct (decide (Exists (λ b, truthy (db_title db b) = true) ids)) as [Hex|Hex].
    + apply Exists_exists in Hex.
      destruct (get_title_algorithm_fn g title_match) as [tf|] eqn:Htf; [|done].
      destruct (foldl_raising_is_Some
                  (title_author_step db (Some tf) author_fn include_languages) ids ∅)
        as [cm Hcm]; [|congruence].
      intros cm x _. unfold title_author_step.
      destruct (negb _); [by eexists|]. simpl.
      destruct author_fn; [case_bool_decide|]; by eexists.
    + destruct (foldl_raising_is_Some
                  (title_author_step db (get_title_algorithm_fn g title_match)
                     author_fn include_languages) ids ∅)
        as [cm Hcm]; [|congruence].
      intros cm x Hx. unfold title_author_step.
      destruct (truthy (db_title db x)) eqn:Ht; [|by eexists].
      destruct Hex. apply Exists_exists. by exists x.
  - intros [-> (b & Hb & Ht)].
    apply (foldl_raising_raises _ _ b); [done|].
    intros cm. unfold title_author_step. by rewrite Ht.
Qed.

Lemma author_only_raise (g : SoundexLengths) (self : DuplicateFinder) (ids : list Z)
    (author_match : str) (sort_by_title : bool) :
  _find_author_only_duplicates g self ids author_match sort_by_title = None
  ↔ get_author_algorithm_fn g author_match = None
    ∧ ∃ b, b ∈ ids ∧ authors_to_list (db self) b ≠ [].
Proof.
  unfold _find_author_only_duplicates.
  split.
  - intros Hnone.
    destruct (foldl_raising _ _ ids) as [st|] eqn:Hfold; [done|]. clear Hnone.
    destruct (decide (Exists (λ b, authors_to_list (db self) b ≠ []) ids)) as [Hex|Hex].
    + apply Exists_exists in Hex.
      destruct (get_author_algorithm_fn g author_match) as [af|] eqn:Haf; [|done].
      match type of Hfold with
      | foldl_raising ?f ?a ?l = None =>
          destruct (foldl_raising_is_Some f l a) as [st Hst]; [|congruence]
      end.
      intros st x _. apply foldl_raising_is_Some.
      intros st' a _. unfold author_only_insert. simpl.
      destruct (_ && _); by eexists.
    + match type of Hfold with
      | foldl_raising ?f ?a ?l = None =>
          destruct (foldl_raising_is_Some f l a) as [st Hst]; [|congruence]
      end.
      intros st x Hx.
      destruct (authors_to_list (db self) x) as [|a l] eqn:Ha; [by eexists|].
      destruct Hex. apply Exists_exists. exists x. split; [done|]. by rewrite Ha.
  - intros [-> (b & Hb & Ha)].
    rewrite (foldl_raising_raises _ _ b); [done|done|].
    intros st. destruct (authors_to_list (db self) b) as [|a l]; [done|].
    by rewrite foldl_raising_cons.
Qed.
End unknown_policies.

(** X20: a search by title and author raises exactly when the title policy
    is none of [identical], [similar], [soundex], [fuzzy] and one of the
    books to consider has a title; an unknown policy goes unnoticed
    otherwise. *)
Theorem title_search_raises_iff {U : Unicode} {TT : TitleTokens} {HO : HashOrder}
    (g : SoundexLengths) (self : DuplicateFinder)
    (search_type title_match author_match identifier_type : str)
    (include_languages sort_by_title : bool) (selection : option (list Z)) :
  search_type ≠ py "identifier" →
  search_type ≠ py "binary" →
  search_type ≠ py "author_only" →
  find_duplicates g self search_type title_match author_match identifier_type
    include_languages sort_by_title selection = None
  ↔ get_title_algorithm_fn g title_match = None
    ∧ ∃ b, b ∈ default (db_all_ids (db self)) selection
           ∧ truthy (db_title (db self) b) = true.
Proof.
  intros H1 H2 H3. unfold find_duplicates.
  replace (match selection with Some l => l | None => db_all_ids (db self) end)
    with (default (db_all_ids (db self)) selection) by (by destruct selection).
  rewrite !bool_decide_eq_false_2 by done.
  rewrite <-(title_author_candidates_raise g (db self) _ title_match author_match
               include_languages).
  destruct (_find_title_author_candidates _ _ _ _ _ _); simpl; split; intros; done.
Qed.

Lemma title_search_raises_iff_witness :
  py "title_author" ≠ py "identifier"
  ∧ py "title_author" ≠ py "binary"
  ∧ py "title_author" ≠ py "author_only"
  ∧ run_example library_triple ∅ "title_author" "exact" "identical" true = None.
Proof.
  assert (H1 : py "title_author" ≠ py "identifier") by by_evaluation.
  assert (H2 : py "title_author" ≠ py "binary") by by_evaluation.
  assert (H3 : py "title_author" ≠ py "author_only") by by_evaluation.
  assert (H4 : @get_title_algorithm_fn ucd_fragment no_title_tokens initial_lengths
                 (py "exact") = None) by (vm_compute; reflexivity).
  assert (H5 : 1 ∈ default (db_all_ids (db (finder library_triple ∅))) None)
    by by_evaluation.
  assert (H6 : truthy (db_title (db (finder library_triple ∅)) 1) = true)
    by (vm_compute; reflexivity).
  split; [exact H1|]. split; [exact H2|]. split; [exact H3|].
  exact (proj2 (title_search_raises_iff (U:=ucd_fragment) (TT:=no_title_tokens)
                  (HO:=canonical_order) initial_lengths (finder library_triple ∅)
                  (py "title_author") (py "exact") (py "identical") (py "isbn")
                  false true None H1 H2 H3)
           (conj H4 (ex_intro _ 1 (conj H5 H6)))).
Defined.

(** X21: a search for authors raises exactly when the author policy is none
    of [identical], [similar], [soundex], [fuzzy] and one of the books to
    consider has an author; [ignore] is such a policy here. *)
Theorem author_search_raises_iff {U : Unicode} {TT : TitleTokens} {HO : HashOrder}
    (g : SoundexLengths) (self : DuplicateFinder)
    (title_match author_match identifier_type : str)
    (include_languages sort_by_title : bool) (selection : option (list Z)) :
  (find_duplicates g self (py "author_only") title_match author_match identifier_type
     include_languages sort_by_title selection = None
   ↔ get_author_algorithm_fn g author_match = None
     ∧ ∃ b, b ∈ default (db_all_ids (db self)) selection
            ∧ authors_to_list (db self) b ≠ [])
  ∧ get_author_algorithm_fn g (py "ignore") = None.
Proof.
  split; [|by vm_compute].
  unfold find_duplicates.
  replace (match selection with Some l => l | None => db_all_ids (db self) end)
    with (default (db_all_ids (db self)) selection) by (by destruct selection).
  assert (H1 : py "author_only" ≠ py "identifier") by by_evaluation.
  assert (H2 : py "author_only" ≠ py "binary") by by_evaluation.
  rewrite !bool_decide_eq_false_2 by done.
  rewrite bool_decide_eq_true_2 by done.
  apply author_only_raise.
Qed.

Lemma author_search_raises_iff_witness :
  run_example library_triple ∅ "author_only" "identical" "ignore" true = None.
Proof.
  assert (H1 : @get_author_algorithm_fn ucd_fragment initial_lengths (py "ignore") = None)
    by (vm_compute; reflexivity).
  assert (H2 : 1 ∈ default (db_all_ids (db (finder library_triple ∅))) None)
    by by_evaluation.
  assert (H3 : @authors_to_list ucd_fragment (db (finder library_triple ∅)) 1 ≠ [])
    by (vm_compute; discriminate).
  exact (proj2 (proj1 (author_search_raises_iff (U:=ucd_fragment) (TT:=no_title_tokens)
                         (HO:=canonical_order) initial_lengths (finder library_triple ∅)
                         (py "identical") (py "ignore") (py "isbn") false true None))
           (conj H1 (ex_intro _ 1 (conj H2 H3)))).
Defined.

(** ** What the books of a group have in common *)

Lemma two_elements_size `{Countable A} (c : gset A) (x y : A) :
  x ∈ c → y ∈ c → x ≠ y → (2 ≤ size c)%nat.
Proof.
  intros Hx Hy Hxy.
  assert (Hsub : ({[x; y]} : gset A) ⊆ c) by set_solver.
  apply subseteq_size in Hsub.
  rewrite size_union, !size_singleton in Hsub by set_solver. lia.
Qed.

(** X22: in a search by identifier, the books of a group carry one and the
    same non-empty identifier of the requested type; and without
    exemptions, two books to consider that carry the same non-empty
    identifier are together in some group. *)
Theorem identifier_search_groups {U : Unicode} {TT : TitleTokens} {HO : HashOrder}
    (g : SoundexLengths) (self : DuplicateFinder)
    (title_match author_match identifier_type : str)
    (include_languages sort_by_title : bool) (selection : option (list Z))
    (groups : list DuplicateGroup) :
  find_duplicates g self (py "identifier") title_match author_match identifier_type
    include_languages sort_by_title selection = Some groups →
  (∀ grp, grp ∈ groups →
     ∃ v, v ≠ [] ∧ ∀ b, b ∈ book_ids grp →
       db_get_identifiers (db self) b !! identifier_type = Some v)
  ∧ (book_exemptions self = ∅ →
     ∀ b1 b2 v,
       b1 ∈ default (db_all_ids (db self)) selection →
       b2 ∈ default (db_all_ids (db self)) selection →
       b1 ≠ b2 → v ≠ [] →
       db_get_identifiers (db self) b1 !! identifier_type = Some v →
       db_get_identifiers (db self) b2 !! identifier_type = Some v →
       ∃ grp, grp ∈ groups ∧ b1 ∈ book_ids grp ∧ b2 ∈ book_ids grp).
Proof.
  unfold find_duplicates.
  replace (match selection with Some l => l | None => db_all_ids (db self) end)
    with (default (db_all_ids (db self)) selection) by (by destruct selection).
  rewrite bool_decide_eq_true_2 by done. intros [= <-]. split.
  - intros grp [i Hi]%list_elem_of_lookup_1.
    apply lookup_finish_groups in Hi as (_ & Hlen & _ & k & c & Hk & Hc).
    exists k. split.
    + destruct (book_ids grp) as [|b l] eqn:Hb; [simpl in Hlen; lia|].
      eapply (identifier_candidates_sound _ _ _ k b).
      rewrite Hk. apply Hc. by left.
    + intros b Hb%Hc.
      eapply (identifier_candidates_sound _ _ _ k b). by rewrite Hk.
  - intros HE b1 b2 v Hb1 Hb2 Hne Hv Hv1 Hv2.
    pose proof (identifier_candidates_complete _ _ _ _ _ Hb1 Hv Hv1) as Hc1.
    pose proof (identifier_candidates_complete _ _ _ _ _ Hb2 Hv Hv2) as Hc2.
    apply default_empty_lookup in Hc1 as (c & Hc & Hc1).
    rewrite Hc in Hc2. simpl in Hc2.
    destruct (finish_groups_complete self _ sort_by_title v c HE Hc) as (grp & Hgrp & Hin).
    { by apply (two_elements_size c b1 b2). }
    exists grp. auto.
Qed.

Lemma identifier_search_groups_witness :
  @find_duplicates ucd_fragment no_title_tokens canonical_order initial_lengths
    {| db := library_S8; book_exemptions := ∅; author_exemptions := ∅ |}
    (py "identifier") (py "similar") (py "similar") (py "isbn") false true None
  = Some [ {| group_id := 1; book_ids := [1; 2; 3]; match_key := [] |} ]
  ∧ ∃ v, v ≠ [] ∧ ∀ b, b ∈ [1; 2; 3] →
      db_get_identifiers library_S8 b !! py "isbn" = Some v.
Proof.
  assert (H1 : @find_duplicates ucd_fragment no_title_tokens canonical_order
                 initial_lengths
                 {| db := library_S8; book_exemptions := ∅; author_exemptions := ∅ |}
                 (py "identifier") (py "similar") (py "similar") (py "isbn")
                 false true None
               = Some [ {| group_id := 1; book_ids := [1; 2; 3]; match_key := [] |} ])
    by (vm_compute; reflexivity).
  split; [exact H1|].
  exact (proj1 (identifier_search_groups (U:=ucd_fragment) (TT:=no_title_tokens)
                  (HO:=canonical_order) initial_lengths
                  {| db := library_S8; book_exemptions := ∅; author_exemptions := ∅ |}
                  (py "similar") (py "similar") (py "isbn") false true None _ H1)
           {| group_id := 1; book_ids := [1; 2; 3]; match_key := [] |}
           (list_elem_of_here _ _)).
Defined.

(** X23: in a binary search, the books of a group each have a file of one
    and the same size and one and the same non-empty hash. *)
Theorem binary_search_groups {U : Unicode} {TT : TitleTokens} {HO : HashOrder}
    (g : SoundexLengths) (self : DuplicateFinder)
    (title_match author_match identifier_type : str)
    (include_languages sort_by_title : bool) (selection : option (list Z))
    (groups : list DuplicateGroup) (grp : DuplicateGroup) :
  find_duplicates g self (py "binary") title_match author_match identifier_type
    include_languages sort_by_title selection = Some groups →
  grp ∈ groups →
  ∃ file_hash size, file_hash ≠ [] ∧ ∀ b, b ∈ book_ids grp →
    ∃ fmt, fmt ∈ str_split_sep (ord ",") (default [] (db_formats (db self) b))
           ∧ db_format_size (db self) b fmt = Some size
           ∧ db_format_hash (db self) b fmt = Some file_hash.
Proof.
  unfold find_duplicates.
  assert (H1 : py "binary" ≠ py "identifier") by by_evaluation.
  rewrite bool_decide_eq_false_2, bool_decide_eq_true_2 by done.
  intros [= <-] [i Hi]%list_elem_of_lookup_1.
  apply lookup_finish_groups in Hi as (_ & Hlen & _ & [h size] & c & Hk & Hc).
  exists h, size. split.
  - destruct (book_ids grp) as [|b l] eqn:Hb; [simpl in Hlen; lia|].
    eapply (binary_candidates_sound _ _ h size b).
    rewrite Hk. apply Hc. by left.
  - intros b Hb%Hc.
    eapply (binary_candidates_sound _ _ h size b). by rewrite Hk.
Qed.

Lemma binary_search_groups_witness :
  @find_duplicates ucd_fragment no_title_tokens canonical_order initial_lengths
    {| db := library_files; book_exemptions := ∅; author_exemptions := ∅ |}
    (py "binary") (py "similar") (py "similar") (py "isbn") false true None
  = Some [ {| group_id := 1; book_ids := [1; 2]; match_key := [] |} ]
  ∧ ∃ file_hash size, file_hash ≠ [] ∧ ∀ b, b ∈ [1; 2] →
      ∃ fmt, fmt ∈ str_split_sep (ord ",") (default [] (db_formats library_files b))
             ∧ db_format_size library_files b fmt = Some size
             ∧ db_format_hash library_files b fmt = Some file_hash.
Proof.
  assert (H1 : @find_duplicates ucd_fragment no_title_tokens canonical_order
                 initial_lengths
                 {| db := library_files; book_exemptions := ∅; author_exemptions := ∅ |}
                 (py "binary") (py "similar") (py "similar") (py "isbn")
                 false true None
               = Some [ {| group_id := 1; book_ids := [1; 2]; match_key := [] |} ])
    by (vm_compute; reflexivity).
  split; [exact H1|].
  exact (binary_search_groups (U:=ucd_fragment) (TT:=no_title_tokens)
           (HO:=canonical_order) initial_lengths
           {| db := library_files; book_exemptions := ∅; author_exemptions := ∅ |}
           (py "similar") (py "similar") (py "isbn") false true None _
           {| group_id := 1; book_ids := [1; 2]; match_key := [] |}
           H1 (list_elem_of_here _ _)).
Defined.

(** X24: in a search by title that ignores the authors, because the author
    policy is [ignore] or is not known, the books of a group all have the
    same title key; and without exemptions, two titled books to consider
    that have the same title key are together in some group. *)
Theorem title_search_ignoring_authors {U : Unicode} {TT : TitleTokens} {HO : HashOrder}
    (g : SoundexLengths) (self : DuplicateFinder)
    (search_type title_match author_match identifier_type : str)
    (include_languages sort_by_title : bool) (selection : option (list Z))
    (groups : list DuplicateGroup) (title_fn : str → option str → str) :
  search_type ≠ py "identifier" →
  search_type ≠ py "binary" →
  search_type ≠ py "author_only" →
  author_match = py "ignore" ∨ get_author_algorithm_fn g author_match = None →
  get_title_algorithm_fn g title_match = Some title_fn →
  find_duplicates g self search_type title_match author_match identifier_type
    include_languages sort_by_title selection = Some groups →
  (∀ grp b1 b2, grp ∈ groups → b1 ∈ book_ids grp → b2 ∈ book_ids grp →
     title_fn (default [] (db_title (db self) b1))
       (if include_languages then db_languages (db self) b1 else None)
     = title_fn (default [] (db_title (db self) b2))
         (if include_languages then db_languages (db self) b2 else None))
  ∧ (book_exemptions self = ∅ →
     ∀ b1 b2,
       b1 ∈ default (db_all_ids (db self)) selection →
       b2 ∈ default (db_all_ids (db self)) selection →
       b1 ≠ b2 →
       truthy (db_title (db self) b1) = true →
       truthy (db_title (db self) b2) = true →
       title_fn (default [] (db_title (db self) b1))
         (if include_languages then db_languages (db self) b1 else None)
       = title_fn (default [] (db_title (db self) b2))
           (if include_languages then db_languages (db self) b2 else None) →
       ∃ grp, grp ∈ groups ∧ b1 ∈ book_ids grp ∧ b2 ∈ book_ids grp).
Proof.
  intros H1 H2 H3 Ham Htf. unfold find_duplicates.
  replace (match selection with Some l => l | None => db_all_ids (db self) end)
    with (default (db_all_ids (db self)) selection) by (by destruct selection).
  rewrite !bool_decide_eq_false_2 by done.
  destruct (_find_title_author_candidates _ _ _ _ _ _) as [cm|] eqn:Hcm; [|done].
  simpl. intros [= <-]. split.
  - intros grp b1 b2 [i Hi]%list_elem_of_lookup_1 Hb1 Hb2.
    apply lookup_finish_groups in Hi as (_ & _ & _ & k & c & Hk & Hc).
    assert (Hkey : ∀ b, b ∈ book_ids grp →
              k = title_fn (default [] (db_title (db self) b))
                    (if include_languages then db_languages (db self) b else None)).
    { intros b Hb%Hc.
      destruct (title_author_candidates_sound _ _ _ _ _ _ _ k b Hcm)
        as (_ & _ & tf & Htf' & Hkb); [by rewrite Hk|].
      rewrite Htf in Htf'. injection Htf' as <-. by apply Hkb. }
    by rewrite <-(Hkey b1), <-(Hkey b2).
  - intros HE b1 b2 Hb1 Hb2 Hne Ht1 Ht2 Hkey.
    unfold _find_title_author_candidates in Hcm. rewrite Htf in Hcm.
    assert (Haf : (if bool_decide (author_match ≠ py "ignore")
                   then get_author_algorithm_fn g author_match else None) = None).
    { case_bool_decide; [|done]. by destruct Ham. }
    rewrite Haf in Hcm.
    pose proof (title_candidates_complete _ _ _ _ _ _ Hcm Hb1 Ht1) as Hc1.
    pose proof (title_candidates_complete _ _ _ _ _ _ Hcm Hb2 Ht2) as Hc2.
    rewrite <-Hkey in Hc2.
    apply default_empty_lookup in Hc1 as (c & Hc & Hc1).
    rewrite Hc in Hc2. simpl in Hc2.
    destruct (finish_groups_complete self _ sort_by_title _ c HE Hc) as (grp & Hgrp & Hin).
    { by apply (two_elements_size c b1 b2). }
    exists grp. auto.
Qed.

Lemma title_search_ignoring_authors_witness :
  py "title_author" ≠ py "identifier"
  ∧ py "title_author" ≠ py "binary"
  ∧ py "title_author" ≠ py "author_only"
  ∧ run_example library_two_authors ∅ "title_author" "identical" "ignore" true
    = Some [ {| group_id := 1; book_ids := [1; 2; 3]; match_key := [] |} ]
  ∧ @identical_title_match ucd_fragment
      (default [] (db_title (library library_two_authors) 1)) None
    = @identical_title_match ucd_fragment
        (default [] (db_title (library library_two_authors) 3)) None.
Proof.
  assert (H1 : py "title_author" ≠ py "identifier") by by_evaluation.
  assert (H2 : py "title_author" ≠ py "binary") by by_evaluation.
  assert (H3 : py "title_author" ≠ py "author_only") by by_evaluation.
  assert (H4 : @get_title_algorithm_fn ucd_fragment no_title_tokens initial_lengths
                 (py "identical") = Some (@identical_title_match ucd_fragment))
    by reflexivity.
  assert (H5 : run_example library_two_authors ∅ "title_author" "identical" "ignore" true
               = Some [ {| group_id := 1; book_ids := [1; 2; 3]; match_key := [] |} ])
    by (vm_compute; reflexivity).
  split; [exact H1|]. split; [exact H2|]. split; [exact H3|]. split; [exact H5|].
  exact (proj1 (title_search_ignoring_authors (U:=ucd_fragment) (TT:=no_title_tokens)
                  (HO:=canonical_order) initial_lengths (finder library_two_authors ∅)
                  (py "title_author") (py "identical") (py "ignore") (py "isbn")
                  false true None _ _ H1 H2 H3 (or_introl eq_refl) H4 H5)
           {| group_id := 1; book_ids := [1; 2; 3]; match_key := [] |} 1 3
           (list_elem_of_here _ _) (list_elem_of_here _ _)
           (list_elem_of_further _ _ _ (list_elem_of_further _ _ _ (list_elem_of_here _ _)))).
Defined.

(** X25: a book without a title is in no group of a search by title and
    author, and a book without an author is in no group of a search for
    authors. *)
Theorem grouped_books_are_eligible {U : Unicode} {TT : TitleTokens} {HO : HashOrder}
    (g : SoundexLengths) (self : DuplicateFinder)
    (search_type title_match author_match identifier_type : str)
    (include_languages sort_by_title : bool) (selection : option (list Z))
    (groups : list DuplicateGroup) (grp : DuplicateGroup) (b : Z) :
  search_type ≠ py "identifier" →
  search_type ≠ py "binary" →
  find_duplicates g self search_type title_match author_match identifier_type
    include_languages sort_by_title selection = Some groups →
  grp ∈ groups →
  b ∈ book_ids grp →
  if bool_decide (search_type = py "author_only")
  then authors_to_list (db self) b ≠ []
  else truthy (db_title (db self) b) = true.
Proof.
  intros H1 H2. unfold find_duplicates.
  rewrite !(bool_decide_eq_false_2 (search_type = py "identifier")) by done.
  rewrite !(bool_decide_eq_false_2 (search_type = py "binary")) by done.
  case_bool_decide.
  - intros Hfind [i Hi]%list_elem_of_lookup_1 Hb.
    destruct (lookup_author_only_duplicates _ _ _ _ _ _ _ _ Hfind Hi) as (_ & _ & _ & Hin).
    by apply Hin.
  - destruct (_find_title_author_candidates _ _ _ _ _ _) as [cm|] eqn:Hcm; [|done].
    simpl. intros [= <-] [i Hi]%list_elem_of_lookup_1 Hb.
    apply lookup_finish_groups in Hi as (_ & _ & _ & k & c & Hk & Hc).
    eapply (title_author_candidates_sound _ _ _ _ _ _ _ k b Hcm).
    rewrite Hk. by apply Hc.
Qed.

Lemma grouped_books_are_eligible_witness :
  py "title_author" ≠ py "identifier"
  ∧ py "title_author" ≠ py "binary"
  ∧ run_example library_triple ∅ "title_author" "identical" "identical" true
    = Some [ {| group_id := 1; book_ids := [1; 2; 3]; match_key := [] |} ]
  ∧ truthy (db_title (library library_triple) 2) = true.
Proof.
  assert (H1 : py "title_author" ≠ py "identifier") by by_evaluation.
  assert (H2 : py "title_author" ≠ py "binary") by by_evaluation.
  assert (H3 : run_example library_triple ∅ "title_author" "identical" "identical" true
               = Some [ {| group_id := 1; book_ids := [1; 2; 3]; match_key := [] |} ])
    by (vm_compute; reflexivity).
  split; [exact H1|]. split; [exact H2|]. split; [exact H3|].
  exact (grouped_books_are_eligible (U:=ucd_fragment) (TT:=no_title_tokens)
           (HO:=canonical_order) initial_lengths (finder library_triple ∅)
           (py "title_author") (py "identical") (py "identical") (py "isbn")
           false true None _
           {| group_id := 1; book_ids := [1; 2; 3]; match_key := [] |} 2
           H1 H2 H3 (list_elem_of_here _ _)
           (list_elem_of_further _ _ _ (list_elem_of_here _ _))).
Defined.

(** ** Lengths of soundex keys *)




(** ** The groups of a search for authors *)

Section author_groups.
Context {U : Unicode} {TT : TitleTokens} {HO : HashOrder}.

Lemma author_books_complete (db : CalibreDB) (ids : list Z)
    (author_fn : option (str → str * option str))
    (st : gmap str (gset str) * gmap str (gset Z)) (a : str) (b : Z) :
  foldl_raising
    (λ st book_id,
       foldl_raising (author_only_insert author_fn book_id) st (authors_to_list db book_id))
    (∅, ∅) ids = Some st →
  b ∈ ids → a ∈ authors_to_list db b → b ∈ default ∅ (st.2 !! a).
Proof.
  intros Hfold Hb Ha.
  refine (foldl_raising_reaches _
            (λ st : gmap str (gset str) * gmap str (gset Z), b ∈ default ∅ (st.2 !! a))
            _ b _ _ Hb _ _ Hfold).
  - intros st0 st1.
    refine (foldl_raising_reaches _
              (λ st : gmap str (gset str) * gmap str (gset Z), b ∈ default ∅ (st.2 !! a))
              _ a _ _ Ha _ _).
    + intros st2 st3 Hins. rewrite (author_only_insert_books _ _ _ _ _ Hins).
      apply add_candidate_adds.
    + intros st2 a' st3 Hst2 Hins. rewrite (author_only_insert_books _ _ _ _ _ Hins).
      by apply add_candidate_keeps.
  - intros st0 x st1 Hst0.
    refine (foldl_raising_invariant _
              (λ st : gmap str (gset str) * gmap str (gset Z), b ∈ default ∅ (st.2 !! a))
              _ _ _ Hst0 _).
    intros st2 a' st3 _ Hst2 Hins. rewrite (author_only_insert_books _ _ _ _ _ Hins).
    by apply add_candidate_keeps.
Qed.

Lemma elem_of_union_authors_2 (abm : gmap str (gset Z)) (partition : list str) :
  ∀ (acc : gset Z) b,
  (b ∈ acc ∨ ∃ a, a ∈ partition ∧ b ∈ default ∅ (abm !! a)) →
  b ∈ foldl (λ acc author, acc ∪ default ∅ (abm !! author)) acc partition.
Proof.
  induction partition as [|a0 partition IH]; intros acc b; simpl.
  - intros [?|(a & Ha & _)]; [done|by apply elem_of_nil in Ha].
  - intros [Hb|(a & Ha & Hb)]; apply IH.
    + left. set_solver.
    + apply elem_of_cons in Ha as [->|Ha]; [left; set_solver|right; by exists a].
Qed.

Lemma author_only_partition_names (abm : gmap str (gset Z))
    (st : list DuplicateGroup * Z) (partition : list str) :
  Forall (λ grp, ∃ names, match_key grp = str_of_list names ∧ (2 ≤ length names)%nat
            ∧ ∀ b, b ∈ book_ids grp ↔ ∃ a, a ∈ names ∧ b ∈ default ∅ (abm !! a)) st.1 →
  Forall (λ grp, ∃ names, match_key grp = str_of_list names ∧ (2 ≤ length names)%nat
            ∧ ∀ b, b ∈ book_ids grp ↔ ∃ a, a ∈ names ∧ b ∈ default ∅ (abm !! a))
    (author_only_partition abm st partition).1.
Proof.
  intros Hst. unfold author_only_partition.
  case_bool_decide as Hlen; [|done]. case_bool_decide; [|done]. cbn [fst].
  apply Forall_app. split; [done|]. apply Forall_singleton.
  exists partition. cbn [match_key book_ids]. split; [done|]. split; [lia|].
  intros b. rewrite elem_of_sorted_set_iter. split.
  - intros [Hb|Hb]%elem_of_union_authors; [set_solver|done].
  - intros Hb. apply elem_of_union_authors_2. by right.
Qed.
End author_groups.

(** X27: each group of a search for authors names at least two authors in
    its key, and its books are exactly the books to consider that have one of
    those names among their authors. *)
Theorem author_search_group_books {U : Unicode} {TT : TitleTokens} {HO : HashOrder}
    (g : SoundexLengths) (self : DuplicateFinder)
    (title_match author_match identifier_type : str)
    (include_languages sort_by_title : bool) (selection : option (list Z))
    (groups : list DuplicateGroup) (grp : DuplicateGroup) :
  find_duplicates g self (py "author_only") title_match author_match identifier_type
    include_languages sort_by_title selection = Some groups →
  grp ∈ groups →
  ∃ names, match_key grp = str_of_list names ∧ (2 ≤ length names)%nat
    ∧ ∀ b, b ∈ book_ids grp
           ↔ b ∈ default (db_all_ids (db self)) selection
             ∧ ∃ a, a ∈ names ∧ a ∈ authors_to_list (db self) b.
Proof.
  unfold find_duplicates.
  replace (match selection with Some l => l | None => db_all_ids (db self) end)
    with (default (db_all_ids (db self)) selection) by (by destruct selection).
  generalize (default (db_all_ids (db self)) selection). intros ids.
  assert (H1 : py "author_only" ≠ py "identifier") by by_evaluation.
  assert (H2 : py "author_only" ≠ py "binary") by by_evaluation.
  rewrite !bool_decide_eq_false_2 by done.
  rewrite bool_decide_eq_true_2 by done.
  unfold _find_author_only_duplicates.
  destruct (foldl_raising _ _ ids) as [st|] eqn:Hfold; simpl; [|done].
  intros [= <-] Hgrp.
  assert (Hall : Forall (λ grp, ∃ names, match_key grp = str_of_list names
                    ∧ (2 ≤ length names)%nat
                    ∧ ∀ b, b ∈ book_ids grp
                           ↔ ∃ a, a ∈ names ∧ b ∈ default ∅ (st.2 !! a))
            (foldl (λ st0 author_group,
                      foldl (author_only_partition st.2) st0
                        (_partition_using_exemptions (set_iter author_group)
                           (author_exemptions self)))
               ([], 0)
               (_clean_dup_groups
                  (_sort_candidate_groups (_shrink_candidates_map st.1) sort_by_title))).1).
  { refine (foldl_invariant _ (λ st' : list DuplicateGroup * Z, Forall _ st'.1) _ _ _ _).
    - constructor.
    - intros st0 author_group _ Hst0.
      refine (foldl_invariant _ (λ st' : list DuplicateGroup * Z, Forall _ st'.1)
                _ _ Hst0 _).
      intros st1 partition _ Hst1. by apply author_only_partition_names. }
  rewrite Forall_forall in Hall.
  destruct (Hall grp Hgrp) as (names & Hkey & Hlen & Hbooks).
  exists names. split; [done|]. split; [done|]. intros b. rewrite Hbooks. split.
  - intros (a & Ha & Hb).
    destruct (author_books_sound _ _ _ _ _ _ Hfold Hb) as [Hin Hauth].
    split; [done|]. by exists a.
  - intros (Hin & a & Ha & Hauth). exists a. split; [done|].
    by apply (author_books_complete _ _ _ _ _ _ Hfold).
Qed.

Lemma author_search_group_books_witness :
  run_example library_one_author ∅ "author_only" "identical" "identical" true
  = Some [ {| group_id := 1; book_ids := [1; 2];
              match_key := fragment_str_of_list [py "Jane Roe"; py "jane roe"] |} ]
  ∧ ∃ names,
      fragment_str_of_list [py "Jane Roe"; py "jane roe"] = fragment_str_of_list names
      ∧ (2 ≤ length names)%nat
      ∧ ∀ b, b ∈ [1; 2]
             ↔ b ∈ [1; 2]
               ∧ ∃ a, a ∈ names ∧ a ∈ @authors_to_list ucd_fragment
                                          (library library_one_author) b.
Proof.
  assert (H1 : run_example library_one_author ∅ "author_only" "identical" "identical" true
               = Some [ {| group_id := 1; book_ids := [1; 2];
                           match_key :=
                             fragment_str_of_list [py "Jane Roe"; py "jane roe"] |} ])
    by (vm_compute; reflexivity).
  split; [exact H1|].
  exact (author_search_group_books (U:=ucd_fragment) (TT:=no_title_tokens)
           (HO:=canonical_order) initial_lengths (finder library_one_author ∅)
           (py "identical") (py "identical") (py "isbn") false true None _
           {| group_id := 1; book_ids := [1; 2];
              match_key := fragment_str_of_list [py "Jane Roe"; py "jane roe"] |}
           H1 (list_elem_of_here _ _)).
Defined.

(** ** Books filed under one key *)

Lemma lookup_number_groups_sub (subs : list (list Z)) : ∀ n i grp,
  number_groups n subs !! i = Some grp →
  ∃ sub, subs !! i = Some sub ∧ book_ids grp = py_sorted py_lt sub.
Proof.
  induction subs as [|s subs IH]; intros n [|i] grp; simpl; try done.
  - intros [= <-]. by exists s.
  - apply IH.
Qed.

Section single_key.
Context {HO : HashOrder} `{Countable K} {PK : PyOrd K}.

Lemma single_key_candidates_disjoint (cm : gmap K (gset Z)) (sort_by_title : bool) :
  (∀ k1 k2 b, b ∈ default ∅ (cm !! k1) → b ∈ default ∅ (cm !! k2) → k1 = k2) →
  pairwise_disjoint (pruned_candidates cm sort_by_title).
Proof.
  intros Hkey c c' (k & Hk & _)%elem_of_pruned_candidates
    (k' & Hk' & _)%elem_of_pruned_candidates Hne.
  apply elem_of_disjoint. intros b Hb Hb'. apply Hne.
  assert (k = k') as ->; [|congruence].
  apply (Hkey k k' b); [by rewrite Hk|by rewrite Hk'].
Qed.

Lemma groups_disjoint_no_exemptions (candidates : list (gset Z)) :
  pairwise_disjoint candidates → NoDup candidates →
  groups_disjoint (groups_of_candidates ∅ candidates).
Proof.
  intros Hdis Hnd i j gi gj id Hij Hi Hj Hidi Hidj.
  unfold groups_of_candidates in Hi, Hj.
  apply lookup_number_groups_sub in Hi as (si & Hi & Hbi).
  apply lookup_number_groups_sub in Hj as (sj & Hj & Hbj).
  assert (Hsubs : NoDup (filter (λ sub : list Z, (1 < length sub)%nat)
                     (candidates ≫= λ book_ids,
                        _partition_using_exemptions (set_iter book_ids) ∅))).
  { apply NoDup_filter, NoDup_bind; [| |done].
    - intros c1 c2 sub _ _ H1 H2. rewrite partition_empty_exemptions in H1, H2.
      destruct (bool_decide (1 < size c1)%nat); [|by apply elem_of_nil in H1].
      destruct (bool_decide (1 < size c2)%nat); [|by apply elem_of_nil in H2].
      apply list_elem_of_singleton in H1 as ->.
      apply list_elem_of_singleton in H2 as Heq.
      apply set_eq. intros x.
      by rewrite <-(elem_of_sorted_set_iter c1), Heq, elem_of_sorted_set_iter.
    - intros c _. rewrite partition_empty_exemptions.
      case_bool_decide; [apply NoDup_singleton|constructor]. }
  assert (Hne : si ≠ sj).
  { intros ->. apply Hij. by apply (NoDup_lookup _ i j sj Hsubs). }
  apply list_elem_of_lookup_2, list_elem_of_filter in Hi as [_ Hi].
  apply list_elem_of_lookup_2, list_elem_of_filter in Hj as [_ Hj].
  apply list_elem_of_bind in Hi as (ci & Hsi & Hci).
  apply list_elem_of_bind in Hj as (cj & Hsj & Hcj).
  rewrite partition_empty_exemptions in Hsi, Hsj.
  destruct (bool_decide (1 < size ci)%nat); [|by apply elem_of_nil in Hsi].
  destruct (bool_decide (1 < size cj)%nat); [|by apply elem_of_nil in Hsj].
  apply list_elem_of_singleton in Hsi as ->.
  apply list_elem_of_singleton in Hsj as ->.
  rewrite Hbi, py_sorted_idemp, elem_of_sorted_set_iter in Hidi.
  rewrite Hbj, py_sorted_idemp, elem_of_sorted_set_iter in Hidj.
  assert (Hc : ci ≠ cj) by (intros ->; by apply Hne).
  specialize (Hdis ci cj Hci Hcj Hc). set_solver.
Qed.

(** When the candidate map files every book under one key, two groups that
    share a book are partitions of one candidate set, and without exemptions
    no two groups share a book. *)
Lemma single_key_one_group (self : DuplicateFinder) (cm : gmap K (gset Z))
    (sort_by_title : bool) :
  (∀ k1 k2 b, b ∈ default ∅ (cm !! k1) → b ∈ default ∅ (cm !! k2) → k1 = k2) →
  pairwise_disjoint (pruned_candidates cm sort_by_title)
  ∧ one_group_or_split (book_exemptions self) (pruned_candidates cm sort_by_title)
      (finish_groups self cm sort_by_title)
  ∧ (book_exemptions self = ∅ → groups_disjoint (finish_groups self cm sort_by_title)).
Proof.
  intros Hkey.
  pose proof (single_key_candidates_disjoint cm sort_by_title Hkey) as Hdis.
  split; [done|]. rewrite finish_groups_spec. split.
  - by apply groups_share_candidate.
  - intros ->. apply groups_disjoint_no_exemptions; [done|].
    apply prune_subsets_NoDup.
Qed.
End single_key.

Section one_key.
Context {U : Unicode} {TT : TitleTokens} {HO : HashOrder}.

(** The keys [_find_title_author_candidates] files a book under: the title
    hash when authors are ignored or the book has none, and otherwise the
    title hash followed by the hash of one of its authors, or by the
    reversed hash of one that has a reversed hash of its own. *)
Local Abbreviation filed_under db title_fn author_fn include_languages k b :=
  (∃ tf : str → option str → str, title_fn = Some tf ∧
     (((author_fn = None ∨ authors_to_list db b = [])
       ∧ k = tf (default [] (db_title db b))
                (if include_languages then db_languages db b else None))
      ∨ (∃ (af : str → str * option str) a,
           author_fn = Some af ∧ a ∈ authors_to_list db b ∧
           (k = tf (default [] (db_title db b))
                   (if include_languages then db_languages db b else None)
                ++ (af a).1
            ∨ ∃ r, (af a).2 = Some r ∧ r ≠ [] ∧ r ≠ (af a).1
                   ∧ k = tf (default [] (db_title db b))
                            (if include_languages then db_languages db b else None)
                         ++ r)))).

Lemma title_author_step_keys (db : CalibreDB)
    (title_fn : option (str → option str → str))
    (author_fn : option (str → str * option str)) (include_languages : bool)
    (cm cm' : gmap str (gset Z)) (x : Z) :
  (∀ k b, b ∈ default ∅ (cm !! k) →
     filed_under db title_fn author_fn include_languages k b) →
  title_author_step db title_fn author_fn include_languages cm x = Some cm' →
  ∀ k b, b ∈ default ∅ (cm' !! k) →
     filed_under db title_fn author_fn include_languages k b.
Proof.
  intros Hinv. unfold title_author_step.
  destruct (truthy (db_title db x)) eqn:Ht; simpl; [|by intros [= <-]].
  destruct title_fn as [tf|]; simpl; [|done].
  destruct author_fn as [af|].
  - case_bool_decide as Hauthors.
    + intros [= <-].
      refine (foldl_invariant _
                (λ cm : gmap str (gset Z), ∀ k b, b ∈ default ∅ (cm !! k) → _) _ _ Hinv _).
      intros cm0 a Ha Hcm0. unfold title_author_insert.
      destruct (truthy (af a).2) eqn:Hrev; simpl.
      * case_bool_decide as Hne; simpl.
        -- apply add_candidate_invariant; [done|].
           exists tf. split; [done|]. right. exists af, a. split; [done|].
           split; [done|]. by left.
        -- apply add_candidate_invariant; [apply add_candidate_invariant; [done|]|].
           ++ exists tf. split; [done|]. right. exists af, a. split; [done|].
              split; [done|]. by left.
           ++ exists tf. split; [done|]. right. exists af, a. split; [done|].
              split; [done|]. right.
              destruct (af a).2 as [[|c r]|] eqn:Hr; try done.
              exists (c :: r). split; [done|]. split; [done|].
              split; [|done]. intros Heq. apply Hne. by rewrite Heq.
      * apply add_candidate_invariant; [done|].
        exists tf. split; [done|]. right. exists af, a. split; [done|].
        split; [done|]. by left.
    + intros [= <-]. apply add_candidate_invariant; [done|].
      exists tf. split; [done|]. left. split; [|done]. right.
      destruct (authors_to_list db x); [done|]. by destruct Hauthors.
  - intros [= <-]. apply add_candidate_invariant; [done|].
    exists tf. split; [done|]. left. split; [by left|done].
Qed.

Lemma title_author_candidates_keys (g : SoundexLengths) (db : CalibreDB) (ids : list Z)
    (title_match author_match : str) (include_languages : bool)
    (cm : gmap str (gset Z)) (k : str) (b : Z) :
  _find_title_author_candidates g db ids title_match author_match include_languages
    = Some cm →
  b ∈ default ∅ (cm !! k) →
  filed_under db (get_title_algorithm_fn g title_match)
    (if bool_decide (author_match ≠ py "ignore")
     then get_author_algorithm_fn g author_match else None)
    include_languages k b.
Proof.
  unfold _find_title_author_candidates. intros Hfold. revert k b.
  refine (foldl_raising_invariant _
            (λ cm : gmap str (gset Z), ∀ k b, b ∈ default ∅ (cm !! k) → _)
            _ _ _ _ _ Hfold).
  - intros k b. rewrite lookup_empty. simpl. set_solver.
  - intros cm0 x cm1 _ Hcm0 Hstep. by eapply title_author_step_keys.
Qed.

(** With the authors ignored, a book is filed under its title hash only. *)
Lemma title_candidates_one_key_ignoring (g : SoundexLengths) (db : CalibreDB)
    (ids : list Z) (title_match author_match : str) (include_languages : bool)
    (cm : gmap str (gset Z)) :
  author_match = py "ignore" ∨ get_author_algorithm_fn g author_match = None →
  _find_title_author_candidates g db ids title_match author_match include_languages
    = Some cm →
  ∀ k1 k2 b, b ∈ default ∅ (cm !! k1) → b ∈ default ∅ (cm !! k2) → k1 = k2.
Proof.
  intros Ham Hcm k1 k2 b Hb1 Hb2.
  assert (Haf : (if bool_decide (author_match ≠ py "ignore")
                 then get_author_algorithm_fn g author_match else None) = None).
  { case_bool_decide; [|done]. by destruct Ham. }
  destruct (title_author_candidates_keys _ _ _ _ _ _ _ _ _ Hcm Hb1)
    as (tf1 & Htf1 & [[_ ->]|(af & a & Hsome & _)]); [|congruence].
  destruct (title_author_candidates_keys _ _ _ _ _ _ _ _ _ Hcm Hb2)
    as (tf2 & Htf2 & [[_ ->]|(af & a & Hsome & _)]); [|congruence].
  rewrite Htf1 in Htf2. by injection Htf2 as <-.
Qed.

(** With a known author policy, a book is filed under one key when its
    authors all have the same hash and none has a reversed hash of its
    own. *)
Lemma title_candidates_one_key_authors (g : SoundexLengths) (db : CalibreDB)
    (ids : list Z) (title_match author_match : str) (include_languages : bool)
    (author_fn : str → str * option str) (cm : gmap str (gset Z)) :
  get_author_algorithm_fn g author_match = Some author_fn →
  (∀ b a1 a2, b ∈ ids →
     a1 ∈ authors_to_list db b → a2 ∈ authors_to_list db b →
     (author_fn a1).1 = (author_fn a2).1
     ∧ ((author_fn a1).2 = None ∨ (author_fn a1).2 = Some []
        ∨ (author_fn a1).2 = Some (author_fn a1).1)) →
  _find_title_author_candidates g db ids title_match author_match include_languages
    = Some cm →
  ∀ k1 k2 b, b ∈ default ∅ (cm !! k1) → b ∈ default ∅ (cm !! k2) → k1 = k2.
Proof.
  intros Haf Hone Hcm k1 k2 b Hb1 Hb2.
  assert (Hfn : (if bool_decide (author_match ≠ py "ignore")
                 then get_author_algorithm_fn g author_match else None)
                = Some author_fn).
  { case_bool_decide as Hne; [done|].
    subst. by vm_compute in Haf. }
  destruct (title_author_candidates_sound _ _ _ _ _ _ _ _ _ Hcm Hb1) as (Hb & _).
  pose proof (title_author_candidates_keys _ _ _ _ _ _ _ _ _ Hcm Hb1) as H1.
  pose proof (title_author_candidates_keys _ _ _ _ _ _ _ _ _ Hcm Hb2) as H2.
  rewrite Hfn in H1, H2.
  destruct H1 as (tf1 & Htf1 & H1). destruct H2 as (tf2 & Htf2 & H2).
  rewrite Htf1 in Htf2. injection Htf2 as <-.
  assert (Hkey : ∀ k,
            (∃ (af : str → str * option str) a,
               Some author_fn = Some af ∧ a ∈ authors_to_list db b ∧
               (k = tf1 (default [] (db_title db b))
                        (if include_languages then db_languages db b else None)
                    ++ (af a).1
                ∨ ∃ r, (af a).2 = Some r ∧ r ≠ [] ∧ r ≠ (af a).1
                       ∧ k = tf1 (default [] (db_title db b))
                                 (if include_languages then db_languages db b else None)
                             ++ r)) →
            ∃ a, a ∈ authors_to_list db b
                 ∧ k = tf1 (default [] (db_title db b))
                           (if include_languages then db_languages db b else None)
                       ++ (author_fn a).1).
  { intros k (af & a & [= <-] & Ha & [->|(r & Hr & Hr0 & Hrh & _)]); [by exists a|].
    destruct (Hone b a a Hb Ha Ha) as [_ [Hn|[Hn|Hn]]]; congruence. }
  destruct H1 as [[[?| Hnil1] ->]|H1]; [done| |].
  - destruct H2 as [[_ ->]|(af & a & _ & Ha & _)]; [done|].
    rewrite Hnil1 in Ha. by apply elem_of_nil in Ha.
  - apply Hkey in H1 as (a1 & Ha1 & ->).
    destruct H2 as [[[?| Hnil2] ->]|H2]; [done| |].
    + rewrite Hnil2 in Ha1. by apply elem_of_nil in Ha1.
    + apply Hkey in H2 as (a2 & Ha2 & ->).
      by rewrite (proj1 (Hone b a1 a2 Hb Ha1 Ha2)).
Qed.

(** A binary search files a book under one key when its files all have one
    size and one hash. *)
Lemma binary_candidates_one_key (db : CalibreDB) (ids : list Z) :
  (∀ b fmt1 fmt2 size1 size2 hash1 hash2, b ∈ ids →
     fmt1 ∈ str_split_sep (ord ",") (default [] (db_formats db b)) →
     fmt2 ∈ str_split_sep (ord ",") (default [] (db_formats db b)) →
     db_format_size db b fmt1 = Some size1 → db_format_size db b fmt2 = Some size2 →
     db_format_hash db b fmt1 = Some hash1 → db_format_hash db b fmt2 = Some hash2 →
     size1 = size2 ∧ hash1 = hash2) →
  ∀ k1 k2 b,
    b ∈ default ∅ (_find_binary_candidates db ids !! k1) →
    b ∈ default ∅ (_find_binary_candidates db ids !! k2) → k1 = k2.
Proof.
  intros Hone [h1 s1] [h2 s2] b
    (Hb & _ & fmt1 & Hf1 & Hs1 & Hh1)%binary_candidates_sound
    (_ & _ & fmt2 & Hf2 & Hs2 & Hh2)%binary_candidates_sound.
  destruct (Hone b fmt1 fmt2 s1 s2 h1 h2) as [-> ->]; done.
Qed.

Lemma identifier_candidates_one_key (db : CalibreDB) (ids : list Z)
    (identifier_type : str) :
  ∀ k1 k2 b,
    b ∈ default ∅ (_find_identifier_candidates db ids identifier_type !! k1) →
    b ∈ default ∅ (_find_identifier_candidates db ids identifier_type !! k2) → k1 = k2.
Proof.
  intros k1 k2 b (_ & _ & H1)%identifier_candidates_sound
    (_ & _ & H2)%identifier_candidates_sound.
  congruence.
Qed.
End one_key.

(** C2, amended: in a search by identifier, in a search by title that
    ignores the authors, in a search by title and author where the authors of
    each book all have one hash and no reversed hash of their own, and in a
    binary search where the files of each book all have one size and one
    hash, every book is filed under one key: the candidate sets that survive
    the pruning are pairwise disjoint, two returned groups that share a book
    are partitions of one candidate set, and without exemptions no two
    returned groups share a book. *)
Theorem one_group_when_filed_under_one_key :
  (∀ (U : Unicode) (TT : TitleTokens) (HO : HashOrder) g self
     title_match author_match identifier_type include_languages sort_by_title
     selection groups candidates,
     find_duplicates g self (py "identifier") title_match author_match
       identifier_type include_languages sort_by_title selection = Some groups →
     candidate_groups g self (py "identifier") title_match author_match
       identifier_type include_languages sort_by_title selection = Some candidates →
     pairwise_disjoint candidates
     ∧ one_group_or_split (book_exemptions self) candidates groups
     ∧ (book_exemptions self = ∅ → groups_disjoint groups))
  ∧ (∀ (U : Unicode) (TT : TitleTokens) (HO : HashOrder) g self search_type
       title_match author_match identifier_type include_languages sort_by_title
       selection groups candidates,
     search_type ≠ py "identifier" →
     search_type ≠ py "binary" →
     search_type ≠ py "author_only" →
     author_match = py "ignore" ∨ get_author_algorithm_fn g author_match = None →
     find_duplicates g self search_type title_match author_match identifier_type
       include_languages sort_by_title selection = Some groups →
     candidate_groups g self search_type title_match author_match identifier_type
       include_languages sort_by_title selection = Some candidates →
     pairwise_disjoint candidates
     ∧ one_group_or_split (book_exemptions self) candidates groups
     ∧ (book_exemptions self = ∅ → groups_disjoint groups))
  ∧ (∀ (U : Unicode) (TT : TitleTokens) (HO : HashOrder) g self search_type
       title_match author_match identifier_type include_languages sort_by_title
       selection groups candidates (author_fn : str → str * option str),
     search_type ≠ py "identifier" →
     search_type ≠ py "binary" →
     search_type ≠ py "author_only" →
     get_author_algorithm_fn g author_match = Some author_fn →
     (∀ b a1 a2, b ∈ default (db_all_ids (db self)) selection →
        a1 ∈ authors_to_list (db self) b → a2 ∈ authors_to_list (db self) b →
        (author_fn a1).1 = (author_fn a2).1
        ∧ ((author_fn a1).2 = None ∨ (author_fn a1).2 = Some []
           ∨ (author_fn a1).2 = Some (author_fn a1).1)) →
     find_duplicates g self search_type title_match author_match identifier_type
       include_languages sort_by_title selection = Some groups →
     candidate_groups g self search_type title_match author_match identifier_type
       include_languages sort_by_title selection = Some candidates →
     pairwise_disjoint candidates
     ∧ one_group_or_split (book_exemptions self) candidates groups
     ∧ (book_exemptions self = ∅ → groups_disjoint groups))
  ∧ (∀ (U : Unicode) (TT : TitleTokens) (HO : HashOrder) g self
       title_match author_match identifier_type include_languages sort_by_title
       selection groups candidates,
     (∀ b fmt1 fmt2 size1 size2 hash1 hash2,
        b ∈ default (db_all_ids (db self)) selection →
        fmt1 ∈ str_split_sep (ord ",") (default [] (db_formats (db self) b)) →
        fmt2 ∈ str_split_sep (ord ",") (default [] (db_formats (db self) b)) →
        db_format_size (db self) b fmt1 = Some size1 →
        db_format_size (db self) b fmt2 = Some size2 →
        db_format_hash (db self) b fmt1 = Some hash1 →
        db_format_hash (db self) b fmt2 = Some hash2 →
        size1 = size2 ∧ hash1 = hash2) →
     find_duplicates g self (py "binary") title_match author_match
       identifier_type include_languages sort_by_title selection = Some groups →
     candidate_groups g self (py "binary") title_match author_match
       identifier_type include_languages sort_by_title selection = Some candidates →
     pairwise_disjoint candidates
     ∧ one_group_or_split (book_exemptions self) candidates groups
     ∧ (book_exemptions self = ∅ → groups_disjoint groups)).
Proof.
  split_and!.
  - intros U TT HO g self tm am it il sbt sel groups cands.
    unfold find_duplicates, candidate_groups.
    rewrite !bool_decide_eq_true_2 by done. intros [= <-] [= <-].
    apply single_key_one_group, identifier_candidates_one_key.
  - intros U TT HO g self st tm am it il sbt sel groups cands H1 H2 H3 Ham.
    unfold find_duplicates, candidate_groups.
    rewrite !bool_decide_eq_false_2 by done.
    destruct (_find_title_author_candidates _ _ _ _ _ _) as [cm|] eqn:Hcm; [|done].
    simpl. intros [= <-] [= <-].
    apply single_key_one_group.
    by apply (title_candidates_one_key_ignoring _ _ _ _ _ _ _ Ham Hcm).
  - intros U TT HO g self st tm am it il sbt sel groups cands af H1 H2 H3 Haf Hone.
    unfold find_duplicates, candidate_groups.
    rewrite !bool_decide_eq_false_2 by done.
    replace (match sel with Some l => l | None => db_all_ids (db self) end)
      with (default (db_all_ids (db self)) sel) by (by destruct sel).
    destruct (_find_title_author_candidates _ _ _ _ _ _) as [cm|] eqn:Hcm; [|done].
    simpl. intros [= <-] [= <-].
    apply single_key_one_group.
    by apply (title_candidates_one_key_authors _ _ _ _ _ _ _ _ Haf Hone Hcm).
  - intros U TT HO g self tm am it il sbt sel groups cands Hone.
    unfold find_duplicates, candidate_groups.
    assert (H1 : py "binary" ≠ py "identifier") by by_evaluation.
    rewrite !(bool_decide_eq_false_2 (py "binary" = py "identifier")) by done.
    rewrite !bool_decide_eq_true_2 by done.
    replace (match sel with Some l => l | None => db_all_ids (db self) end)
      with (default (db_all_ids (db self)) sel) by (by destruct sel).
    intros [= <-] [= <-].
    by apply single_key_one_group, binary_candidates_one_key.
Qed.

Lemma one_group_when_filed_under_one_key_witness :
  (@find_duplicates ucd_fragment no_title_tokens canonical_order initial_lengths
     {| db := library_S8; book_exemptions := ∅; author_exemptions := ∅ |}
     (py "identifier") (py "similar") (py "similar") (py "isbn") false true None
   = Some [ {| group_id := 1; book_ids := [1; 2; 3]; match_key := [] |} ]
   ∧ @candidate_groups ucd_fragment no_title_tokens canonical_order initial_lengths
       {| db := library_S8; book_exemptions := ∅; author_exemptions := ∅ |}
       (py "identifier") (py "similar") (py "similar") (py "isbn") false true None
     = Some [ {[1; 2; 3]} ]
   ∧ @one_group_or_split canonical_order ∅ [ {[1; 2; 3]} ]
       [ {| group_id := 1; book_ids := [1; 2; 3]; match_key := [] |} ])
  ∧ (run_example library_two_authors ∅ "title_author" "identical" "ignore" true
     = Some [ {| group_id := 1; book_ids := [1; 2; 3]; match_key := [] |} ]
     ∧ @candidate_groups ucd_fragment no_title_tokens canonical_order initial_lengths
         (finder library_two_authors ∅) (py "title_author") (py "identical")
         (py "ignore") (py "isbn") false true None
       = Some [ {[1; 2; 3]} ]
     ∧ groups_disjoint [ {| group_id := 1; book_ids := [1; 2; 3]; match_key := [] |} ])
  ∧ (run_example library_triple (add_exemption 1 3 ∅)
       "title_author" "identical" "identical" true
     = Some [ {| group_id := 1; book_ids := [1; 2]; match_key := [] |};
              {| group_id := 2; book_ids := [2; 3]; match_key := [] |} ]
     ∧ @candidate_groups ucd_fragment no_title_tokens canonical_order initial_lengths
         (finder library_triple (add_exemption 1 3 ∅)) (py "title_author")
         (py "identical") (py "identical") (py "isbn") false true None
       = Some [ {[1; 2; 3]} ]
     ∧ @one_group_or_split canonical_order (add_exemption 1 3 ∅) [ {[1; 2; 3]} ]
         [ {| group_id := 1; book_ids := [1; 2]; match_key := [] |};
           {| group_id := 2; book_ids := [2; 3]; match_key := [] |} ])
  ∧ (@find_duplicates ucd_fragment no_title_tokens canonical_order initial_lengths
       {| db := library_files; book_exemptions := ∅; author_exemptions := ∅ |}
       (py "binary") (py "similar") (py "similar") (py "isbn") false true None
     = Some [ {| group_id := 1; book_ids := [1; 2]; match_key := [] |} ]
     ∧ @candidate_groups ucd_fragment no_title_tokens canonical_order initial_lengths
         {| db := library_files; book_exemptions := ∅; author_exemptions := ∅ |}
         (py "binary") (py "similar") (py "similar") (py "isbn") false true None
       = Some [ {[1; 2]} ]
     ∧ groups_disjoint [ {| group_id := 1; book_ids := [1; 2]; match_key := [] |} ]).
Proof.
  assert (Hst1 : py "title_author" ≠ py "identifier") by by_evaluation.
  assert (Hst2 : py "title_author" ≠ py "binary") by by_evaluation.
  assert (Hst3 : py "title_author" ≠ py "author_only") by by_evaluation.
  assert (A1 : @find_duplicates ucd_fragment no_title_tokens canonical_order
                 initial_lengths
                 {| db := library_S8; book_exemptions := ∅; author_exemptions := ∅ |}
                 (py "identifier") (py "similar") (py "similar") (py "isbn")
                 false true None
               = Some [ {| group_id := 1; book_ids := [1; 2; 3]; match_key := [] |} ])
    by (vm_compute; reflexivity).
  assert (A2 : @candidate_groups ucd_fragment no_title_tokens canonical_order
                 initial_lengths
                 {| db := library_S8; book_exemptions := ∅; author_exemptions := ∅ |}
                 (py "identifier") (py "similar") (py "similar") (py "isbn")
                 false true None
               = Some [ {[1; 2; 3]} ])
    by (vm_compute; reflexivity).
  assert (B1 : run_example library_two_authors ∅ "title_author" "identical" "ignore" true
               = Some [ {| group_id := 1; book_ids := [1; 2; 3]; match_key := [] |} ])
    by (vm_compute; reflexivity).
  assert (B2 : @candidate_groups ucd_fragment no_title_tokens canonical_order
                 initial_lengths (finder library_two_authors ∅) (py "title_author")
                 (py "identical") (py "ignore") (py "isbn") false true None
               = Some [ {[1; 2; 3]} ])
    by (vm_compute; reflexivity).
  assert (C0 : @get_author_algorithm_fn ucd_fragment initial_lengths (py "identical")
               = Some (@identical_authors_match ucd_fragment)) by reflexivity.
  assert (C1 : ∀ b a1 a2,
            b ∈ default (db_all_ids (db (finder library_triple (add_exemption 1 3 ∅)))) None →
            a1 ∈ @authors_to_list ucd_fragment
                   (db (finder library_triple (add_exemption 1 3 ∅))) b →
            a2 ∈ @authors_to_list ucd_fragment
                   (db (finder library_triple (add_exemption 1 3 ∅))) b →
            (@identical_authors_match ucd_fragment a1).1
            = (@identical_authors_match ucd_fragment a2).1
            ∧ ((@identical_authors_match ucd_fragment a1).2 = None
               ∨ (@identical_authors_match ucd_fragment a1).2 = Some []
               ∨ (@identical_authors_match ucd_fragment a1).2
                 = Some (@identical_authors_match ucd_fragment a1).1)).
  { intros b a1 a2 Hb Ha1 Ha2. split; [|by left].
    apply list_elem_of_In in Hb. simpl in Hb.
    destruct Hb as [<-|[<-|[<-|[]]]]; vm_compute in Ha1; vm_compute in Ha2;
      apply list_elem_of_singleton in Ha1 as ->;
      apply list_elem_of_singleton in Ha2 as ->; reflexivity. }
  assert (C2 : run_example library_triple (add_exemption 1 3 ∅)
                 "title_author" "identical" "identical" true
               = Some [ {| group_id := 1; book_ids := [1; 2]; match_key := [] |};
                        {| group_id := 2; book_ids := [2; 3]; match_key := [] |} ])
    by (vm_compute; reflexivity).
  assert (C3 : @candidate_groups ucd_fragment no_title_tokens canonical_order
                 initial_lengths (finder library_triple (add_exemption 1 3 ∅))
                 (py "title_author") (py "identical") (py "identical") (py "isbn")
                 false true None
               = Some [ {[1; 2; 3]} ])
    by (vm_compute; reflexivity).
  assert (D0 : ∀ b fmt1 fmt2 size1 size2 hash1 hash2,
            b ∈ default (db_all_ids library_files) None →
            fmt1 ∈ str_split_sep (ord ",") (default [] (db_formats library_files b)) →
            fmt2 ∈ str_split_sep (ord ",") (default [] (db_formats library_files b)) →
            db_format_size library_files b fmt1 = Some size1 →
            db_format_size library_files b fmt2 = Some size2 →
            db_format_hash library_files b fmt1 = Some hash1 →
            db_format_hash library_files b fmt2 = Some hash2 →
            size1 = size2 ∧ hash1 = hash2).
  { intros b fmt1 fmt2 s1 s2 h1 h2 Hb Hf1 Hf2 Hs1 Hs2 Hh1 Hh2.
    apply list_elem_of_In in Hb. simpl in Hb.
    destruct Hb as [<-|[<-|[<-|[]]]];
      vm_compute in Hf1; vm_compute in Hf2;
      apply list_elem_of_singleton in Hf1 as ->;
      apply list_elem_of_singleton in Hf2 as ->;
      split; congruence. }
  assert (D1 : @find_duplicates ucd_fragment no_title_tokens canonical_order
                 initial_lengths
                 {| db := library_files; book_exemptions := ∅; author_exemptions := ∅ |}
                 (py "binary") (py "similar") (py "similar") (py "isbn")
                 false true None
               = Some [ {| group_id := 1; book_ids := [1; 2]; match_key := [] |} ])
    by (vm_compute; reflexivity).
  assert (D2 : @candidate_groups ucd_fragment no_title_tokens canonical_order
                 initial_lengths
                 {| db := library_files; book_exemptions := ∅; author_exemptions := ∅ |}
                 (py "binary") (py "similar") (py "similar") (py "isbn")
                 false true None
               = Some [ {[1; 2]} ])
    by (vm_compute; reflexivity).
  split; [|split; [|split]].
  - split; [exact A1|]. split; [exact A2|].
    exact (proj1 (proj2 (proj1 one_group_when_filed_under_one_key ucd_fragment
                           no_title_tokens canonical_order initial_lengths
                           {| db := library_S8; book_exemptions := ∅;
                              author_exemptions := ∅ |}
                           (py "similar") (py "similar") (py "isbn") false true None
                           _ _ A1 A2))).
  - split; [exact B1|]. split; [exact B2|].
    exact (proj2 (proj2 (proj1 (proj2 one_group_when_filed_under_one_key)
                           ucd_fragment no_title_tokens canonical_order
                           initial_lengths (finder library_two_authors ∅)
                           (py "title_author") (py "identical") (py "ignore")
                           (py "isbn") false true None _ _
                           Hst1 Hst2 Hst3 (or_introl eq_refl) B1 B2)) eq_refl).
  - split; [exact C2|]. split; [exact C3|].
    exact (proj1 (proj2 (proj1 (proj2 (proj2 one_group_when_filed_under_one_key))
                           ucd_fragment no_title_tokens canonical_order
                           initial_lengths
                           (finder library_triple (add_exemption 1 3 ∅))
                           (py "title_author") (py "identical") (py "identical")
                           (py "isbn") false true None _ _ _
                           Hst1 Hst2 Hst3 C0 C1 C2 C3))).
  - split; [exact D1|]. split; [exact D2|].
    exact (proj2 (proj2 (proj2 (proj2 (proj2 one_group_when_filed_under_one_key))
                           ucd_fragment no_title_tokens canonical_order
                           initial_lengths
                           {| db := library_files; book_exemptions := ∅;
                              author_exemptions := ∅ |}
                           (py "similar") (py "similar") (py "isbn") false true None
                           _ _ D0 D1 D2)) eq_refl).
Defined.
